(** * Proxima tangle coordination: a shallow embedding of the Go sources

    The development follows the packages of the repository:

    - [ledger]      logical time, identifiers and outputs;
    - [multistate]  the committed state of a branch;
    - [transaction] [ledger/transaction/tx.go]: base validation and the
                    scan of the produced outputs;
    - [set]         the iteration over a set;
    - [vertex]      the wrapped transaction (VID) and the memory of them;
    - [attacher]    [core/attacher]: the past-cone attacher;
    - [tippool]     the sequencer tip pool;
    - [sample]      a small instance of what the sources leave open, to run
                    the definitions on.

    The properties follow the definitions, package by package, each with
    its runs on the sample instance.

    Conventions.  Unsigned machine integers ([byte], [uint32], [uint64])
    are numbers of [N], and every place where the Go code can wrap around
    writes the wrap-around out.  A Go pointer [*vertex.WrappedTx] is an
    address ([nat]); a pointer that can be [nil] is an [option].  A call
    that can panic (a failed [util.Assertf], a nil dereference, an index
    out of range) returns an [option], [None] being the panic.  A Go
    [error] result is a value of [error]; [nil] is [None].  State that the
    Go code mutates in place is passed in and returned. *)

From Stdlib Require Import NArith ZArith Lia.
From stdpp Require Import base option list strings functions gmap fin_maps fin_sets.
From stdpp Require Import sorting.

Open Scope N_scope.

(** ** Errors created with [fmt.Errorf] *)

(** The arguments of a format string keep the values they render. *)
Inductive fmtArg : Type :=
| ArgNum (n : N)
| ArgBytes (bs : list N)
| ArgPtr (p : nat)
| ArgOut (p : nat) (index : N)
| ArgTime (slot tick : N)
| ArgErr (e : error)
with error : Type :=
| Errorf (format : string) (args : list fmtArg)
| CaughtPanic.

Inductive result (A : Type) : Type :=
| Ok (a : A)
| Err (e : error).
Arguments Ok {A} a.
Arguments Err {A} e.

Definition isErr {A} (r : result A) : bool :=
  match r with Err _ => true | Ok _ => false end.

(** ** Package ledger *)

Module ledger.

Definition MaxUint64 : N := 18446744073709551615.
Definition Uint64Modulus : N := 18446744073709551616.
Definition Uint32Modulus : N := 4294967296.

(** Modelled from the spec: [LogicalTime = (Slot: u32, Tick: u8)]; the
    type and its order are declared in a file of package [ledger] that
    lies outside the files embedded here. *)
Record LogicalTime : Type := MkLogicalTime { Slot : N; TimeTick : N }.

Global Instance LogicalTime_eq_dec : EqDecision LogicalTime.
Proof. solve_decision. Defined.

(** Modelled from the spec: the time order is slot-major, tick-minor.
    [Before] and [After] are the strict comparisons of the Go type. *)
Definition Before (t t1 : LogicalTime) : bool :=
  (Slot t <? Slot t1) || ((Slot t =? Slot t1) && (TimeTick t <? TimeTick t1)).

Definition After (t t1 : LogicalTime) : bool := Before t1 t.

(** [TransactionID] is a byte array; [OutputID] a transaction id and the
    index of the output. *)
Definition TransactionID : Type := list N.

Record OutputID : Type := NewOutputID { TransactionIDOf : TransactionID; IndexOf : N }.

Global Instance OutputID_eq_dec : EqDecision OutputID.
Proof. solve_decision. Defined.

Global Instance OutputID_countable : Countable OutputID.
Proof.
  refine (inj_countable' (λ o, (TransactionIDOf o, IndexOf o))
                         (λ p, NewOutputID p.1 p.2) _).
  by intros [].
Defined.

Definition ChainID : Type := list N.

(** An output, as far as the code below looks into it: its amount and
    the index of its chain constraint ([0xff] when it has none). *)
Record Output : Type := MkOutput { Amount : N; ChainConstraintIndex : N }.

(** The functions of the package that the sources call but do not
    contain.  Nothing is assumed about them. *)
Class Library : Type := {
  (* TransactionID *)
  Timestamp : TransactionID → LogicalTime;
  IsSequencerMilestone : TransactionID → bool;
  IsBranchTransaction : TransactionID → bool;
  (* LogicalTime *)
  NilLogicalTime : LogicalTime;
  MustNewLogicalTime : N → N → option LogicalTime;
  LogicalTimeFromBytes : list N → result LogicalTime;
  (* outputs and hashes *)
  OutputFromBytesMain : list N → result (Output * N);
  OutputFromBytesReadOnly : list N → result Output;
  OutputIDFromBytes : list N → result OutputID;
  MustOutputIndexFromIDBytes : list N → option N;
  HashTransactionBytes : list N → list N;
  (* indices of the elements of the transaction tree *)
  TxTimestamp : N;
  TxSequencerAndStemOutputIndices : N;
  TxTotalProducedAmount : N;
  TxOutputs : N;
  TxInputIDs : N;
}.

(** More of the package that the validation options of [tx.go] call but
    the sources do not contain.  Nothing is assumed about them. *)
Class Constraints : Type := {
  TransactionIDFromBytes : list N → result TransactionID;
  ValidTimePace : LogicalTime → LogicalTime → bool;
  MaxNumberOfEndorsements : nat;
  (* more indices of the elements of the transaction tree *)
  TxUnlockParams : N;
  TxInputCommitment : N;
  TxEndorsements : N;
}.

End ledger.

(** ** Package multistate: the committed state of a branch *)

Module multistate.
Import ledger.

(** Modelled from the spec: the committed state reader is a read view of
    a branch state, a map from output ids to outputs ([get_output],
    [has_utxo]) together with the transactions the state knows
    ([knows_committed_tx]).  Package [multistate] lies outside the files embedded here. *)
Record SugaredStateReader : Type := MakeSugared {
  utxo : gmap OutputID Output;
  committed : gset TransactionID;
}.

Definition GetOutput (r : SugaredStateReader) (oid : OutputID) : option Output :=
  utxo r !! oid.

Definition HasUTXO (r : SugaredStateReader) (oid : OutputID) : bool :=
  bool_decide (is_Some (utxo r !! oid)).

Definition KnowsCommittedTransaction (r : SugaredStateReader) (txid : TransactionID) : bool :=
  bool_decide (txid ∈ committed r).

(** The sum of a list of amounts, exact. *)
Definition sumN (l : list N) : N := foldr N.add 0 l.

(** The total of the amounts a state holds. *)
Definition totalAmount (r : SugaredStateReader) : N :=
  sumN ((λ p, Amount p.2) <$> map_to_list (utxo r)).

End multistate.

(** ** Package transaction (ledger/transaction/tx.go) *)

Module transaction.
Import ledger.

(** The lazy-bytes tree of a transaction is its byte string, read through
    the two accessors of package [lazybytes] (outside the files embedded here); both panic on data that is not a tree. *)
Class LazyTree : Type := {
  BytesAtPath : list N → list N → option (list N);
  NumElements : list N → list N → option nat;
}.

(** The fields of [Transaction] that the embedded functions read or set. *)
Record Transaction : Type := MkTransaction {
  tree : list N;
  txHash : list N;
  sequencerMilestoneFlag : bool;
  branchTransactionFlag : bool;
  timestamp : LogicalTime;
  totalAmount : N;
  byteSize : nat;
}.

(** A validation option mutates the transaction and returns an error or
    [nil].  Every caller drops the transaction when the error is not
    [nil], so the embedding returns either the updated transaction or the
    error; a panic inside an option is [None]. *)
Definition TxValidationOption : Type := Transaction → option (result Transaction).

Definition Path (i : N) : list N := [i].

(** [byte(i)] for an [int] index. *)
Definition byte_of_nat (i : nat) : N := N.of_nat i mod 256.

(** [binary.BigEndian.Uint64] on a slice of eight bytes. *)
Definition BigEndianUint64 (bs : list N) : N :=
  foldl (λ acc b, acc * 256 + b) 0 bs.

Section with_library.
Context `{Library} `{LazyTree}.

(** [tx.Validate]: runs the options in order and stops at the first
    error; [util.CatchPanicOrError] turns a panic into an error. *)
Fixpoint Validate (tx : Transaction) (opt : list TxValidationOption) : result Transaction :=
  match opt with
  | [] => Ok tx
  | fun_ :: rest =>
      match fun_ tx with
      | None => Err CaughtPanic
      | Some (Err err) => Err err
      | Some (Ok tx') => Validate tx' rest
      end
  end.

Definition BaseValidation : TxValidationOption := λ tx,
  tsBin ← BytesAtPath (tree tx) (Path TxTimestamp);
  outputIndexData ← BytesAtPath (tree tx) (Path TxSequencerAndStemOutputIndices);
  match outputIndexData with
  | [b0; b1] =>
      let tx := MkTransaction (tree tx) (txHash tx)
                  (negb (b0 =? 255)) (negb (b1 =? 255))
                  (timestamp tx) (totalAmount tx) (byteSize tx) in
      if branchTransactionFlag tx && negb (sequencerMilestoneFlag tx) then
        Some (Err (Errorf "wrong branch transaction flag" []))
      else
        match LogicalTimeFromBytes tsBin with
        | Err err => Some (Err err)
        | Ok ts =>
            let tx := MkTransaction (tree tx) (txHash tx)
                        (sequencerMilestoneFlag tx) (branchTransactionFlag tx)
                        ts (totalAmount tx) (byteSize tx) in
            if (TimeTick (timestamp tx) =? 0) && sequencerMilestoneFlag tx
               && negb (branchTransactionFlag tx) then
              Some (Err (Errorf "when on time slot boundary, a sequencer transaction must be a branch" []))
            else
              totalAmountBin ← BytesAtPath (tree tx) (Path TxTotalProducedAmount);
              if bool_decide (length totalAmountBin = 8%nat) then
                Some (Ok (MkTransaction (tree tx)
                            (HashTransactionBytes (tree tx))
                            (sequencerMilestoneFlag tx) (branchTransactionFlag tx)
                            (timestamp tx) (BigEndianUint64 totalAmountBin)
                            (byteSize tx)))
              else
                Some (Err (Errorf "wrong total amount bytes, must be 8 bytes" []))
        end
  | _ => Some (Err (Errorf "wrong sequencer and stem output indices, must be 2 bytes" []))
  end.

Definition transactionFromBytes (txBytes : list N) (opt : list TxValidationOption)
  : result Transaction :=
  Validate (MkTransaction txBytes [] false false (MkLogicalTime 0 0) 0 (length txBytes)) opt.

Definition FromBytes (txBytes : list N) (opt : list TxValidationOption)
  : result Transaction :=
  match transactionFromBytes txBytes [BaseValidation] with
  | Err err => Err (Errorf "transaction.FromBytes: basic parse failed: '%v'" [ArgErr err])
  | Ok ret =>
      match Validate ret opt with
      | Err err =>
          Err (Errorf "FromBytes: validation failed, txid = %s: '%v'"
                 [ArgBytes (txHash ret); ArgErr err])
      | Ok ret => Ok ret
      end
  end.

(** The loop of [ScanOutputs] over the indices [idxs] still to visit,
    [totalAmount] being the running [uint64] sum. *)
Fixpoint scanLoop (tr : list N) (idxs : list nat) (totalAmount : N)
  : option (result N) :=
  match idxs with
  | [] => Some (Ok totalAmount)
  | i :: rest =>
      data ← BytesAtPath tr [TxOutputs; byte_of_nat i];
      match OutputFromBytesMain data with
      | Err err => Some (Err (Errorf "scanning output #%d: '%v'" [ArgNum (N.of_nat i); ArgErr err]))
      | Ok (_, amount) =>
          if MaxUint64 - totalAmount <? amount then
            Some (Err (Errorf "scanning output #%d: 'arithmetic overflow while calculating total of outputs'"
                         [ArgNum (N.of_nat i)]))
          else scanLoop tr rest ((totalAmount + amount) mod Uint64Modulus)
      end
  end.

Definition ScanOutputs : TxValidationOption := λ tx,
  numOutputs ← NumElements (tree tx) (Path TxOutputs);
  r ← scanLoop (tree tx) (seq 0 numOutputs) 0;
  match r with
  | Err err => Some (Err err)
  | Ok total =>
      if bool_decide (totalAmount tx = total) then Some (Ok tx)
      else Some (Err (Errorf "wrong total produced amount value" []))
  end.

Definition NumProducedOutputs (tx : Transaction) : option nat :=
  NumElements (tree tx) (Path TxOutputs).

Definition NumInputs (tx : Transaction) : option nat :=
  NumElements (tree tx) (Path TxInputIDs).

Definition MustOutputDataAt (tx : Transaction) (idx : N) : option (list N) :=
  BytesAtPath (tree tx) [TxOutputs; idx].

Definition ProducedOutputAt (tx : Transaction) (idx : N) : option (result Output) :=
  n ← NumProducedOutputs tx;
  if bool_decide (n ≤ N.to_nat idx)%nat then
    Some (Err (Errorf "wrong output index" []))
  else
    data ← MustOutputDataAt tx idx;
    Some (OutputFromBytesReadOnly data).

Definition InputAt (tx : Transaction) (idx : N) : option (result OutputID) :=
  n ← NumInputs tx;
  if bool_decide (n ≤ N.to_nat idx)%nat then
    Some (Err (Errorf "InputAt: wrong input index" []))
  else
    data ← BytesAtPath (tree tx) [TxInputIDs; idx];
    Some (OutputIDFromBytes data).

(** [util.AssertNoError] panics on an error. *)
Definition MustInputAt (tx : Transaction) (idx : N) : option OutputID :=
  r ← InputAt tx idx;
  match r with Ok ret => Some ret | Err _ => None end.

Definition MustOutputIndexOfTheInput (tx : Transaction) (inputIdx : N) : option N :=
  data ← BytesAtPath (tree tx) [TxInputIDs; inputIdx];
  MustOutputIndexFromIDBytes data.

(** *** Notions used in the statements about the transaction layer *)

(** What [BaseValidation] reads from the bytes: the two output indices and
    the timestamp. *)
Definition indexBytes (txBytes : list N) (sequencerIndex stemIndex : N) : Prop :=
  BytesAtPath txBytes (Path TxSequencerAndStemOutputIndices) = Some [sequencerIndex; stemIndex].

Definition timestampOfBytes (txBytes : list N) (ts : LogicalTime) : Prop :=
  ∃ tsBin, BytesAtPath txBytes (Path TxTimestamp) = Some tsBin
           ∧ LogicalTimeFromBytes tsBin = Ok ts.

Definition emptyTransaction (txBytes : list N) : Transaction :=
  MkTransaction txBytes [] false false (MkLogicalTime 0 0) 0 (length txBytes).

(** The bytes at the indices [idxs] of the output array parse to the
    outputs and amounts [outs]. *)
Definition outputsParse (tr : list N) (idxs : list nat) (outs : list (Output * N)) : Prop :=
  Forall2 (λ i oa, ∃ data, BytesAtPath tr [TxOutputs; byte_of_nat i] = Some data
                           ∧ OutputFromBytesMain data = Ok oa) idxs outs.

Definition amounts (outs : list (Output * N)) : list N := outs.*2.

Definition overflowError (i : nat) : error :=
  Errorf "scanning output #%d: 'arithmetic overflow while calculating total of outputs'"
    [ArgNum (N.of_nat i)].

End with_library.

(** [Tree.ForEach] of package [lazybytes] (outside the files embedded
    here) visits the elements of the array at a path, in order, until the
    callback returns [false]; [ForEachData] gives these elements, and
    panics on data that is not a tree. *)
Class LazyTreeIteration : Type := {
  ForEachData : list N → list N → option (list (list N));
}.

(** The validation options that set fields of [Transaction] which no
    embedded function reads ([sequencerTransactionData], [sender]) and that
    rely on the constraint library and on [ed25519]: each returns an error
    or [nil], or panics. *)
Class OpaqueOptions : Type := {
  ScanSequencerDataResult : Transaction → option (option error);
  CheckSenderResult : Transaction → option (option error);
}.

Section more_validation.
Context `{Library} `{Constraints} `{LazyTree} `{LazyTreeIteration} `{OpaqueOptions}.

(** The loop of [Tree.ForEach] from the index [i] on; the callback acts on
    the variables [S] that the Go closure captures and can panic. *)
Fixpoint forEachFrom {S : Type} (i : nat) (datas : list (list N))
    (fun_ : N → list N → S → option (S * bool)) (s : S) : option S :=
  match datas with
  | [] => Some s
  | data :: rest =>
      match fun_ (byte_of_nat i) data s with
      | Some (s', continue) =>
          if continue then forEachFrom (Datatypes.S i) rest fun_ s' else Some s'
      | None => None
      end
  end.

Definition TreeForEach {S : Type} (tr : list N) (path : list N)
    (fun_ : N → list N → S → option (S * bool)) (s : S) : option S :=
  datas ← ForEachData tr path;
  forEachFrom 0 datas fun_ s.

(** [util.Assertf(err == nil, ...)] panics on data that does not parse. *)
Definition ForEachInput {S : Type} (tx : Transaction)
    (fun_ : N → OutputID → S → S * bool) (s : S) : option S :=
  TreeForEach (tree tx) (Path TxInputIDs)
    (λ i data s,
       match OutputIDFromBytes data with
       | Ok oid => Some (fun_ i oid s)
       | Err _ => None
       end) s.

Definition ForEachEndorsement {S : Type} (tx : Transaction)
    (fun_ : N → TransactionID → S → S * bool) (s : S) : option S :=
  TreeForEach (tree tx) (Path TxEndorsements)
    (λ i data s,
       match TransactionIDFromBytes data with
       | Ok txid => Some (fun_ i txid s)
       | Err _ => None
       end) s.

Definition NumEndorsements (tx : Transaction) : option nat :=
  NumElements (tree tx) (Path TxEndorsements).

Definition ScanSequencerData : TxValidationOption := λ tx,
  r ← ScanSequencerDataResult tx;
  match r with Some err => Some (Err err) | None => Some (Ok tx) end.

Definition CheckSender : TxValidationOption := λ tx,
  r ← CheckSenderResult tx;
  match r with Some err => Some (Err err) | None => Some (Ok tx) end.

Definition CheckNumElements : TxValidationOption := λ tx,
  numOutputs ← NumElements (tree tx) (Path TxOutputs);
  if bool_decide (numOutputs ≤ 0)%nat then
    Some (Err (Errorf "number of outputs can't be 0" []))
  else
    numInputs ← NumElements (tree tx) (Path TxInputIDs);
    if bool_decide (numInputs ≤ 0)%nat then
      Some (Err (Errorf "number of inputs can't be 0" []))
    else
      numUnlock ← NumElements (tree tx) (Path TxUnlockParams);
      if negb (bool_decide (numInputs = numUnlock)) then
        Some (Err (Errorf "number of unlock params must be equal to the number of inputs" []))
      else
        numEndorsements ← NumElements (tree tx) (Path TxEndorsements);
        if bool_decide (MaxNumberOfEndorsements < numEndorsements)%nat then
          Some (Err (Errorf "number of endorsements exceeds limit of %d"
                       [ArgNum (N.of_nat MaxNumberOfEndorsements)]))
        else Some (Ok tx).

Definition repeatingInput (i : N) : error := Errorf "repeating input @ %d" [ArgNum i].

Definition repeatingEndorsement (i : N) : error :=
  Errorf "repeating endorsement @ %d" [ArgNum i].

Definition CheckUniqueness : TxValidationOption := λ tx,
  (* check if inputs are unique *)
  r ← ForEachInput tx
        (λ i oid (st : gset OutputID * option error),
           if bool_decide (oid ∈ st.1) then ((st.1, Some (repeatingInput i)), false)
           else (({[oid]} ∪ st.1, st.2), true))
        (∅, None);
  match r.2 with
  | Some err => Some (Err err)
  | None =>
      (* check if endorsements are unique *)
      r ← ForEachEndorsement tx
            (λ i txid (st : gset TransactionID * option error),
               if bool_decide (txid ∈ st.1) then ((st.1, Some (repeatingEndorsement i)), false)
               else (({[txid]} ∪ st.1, st.2), true))
            (∅, None);
      match r.2 with
      | Some err => Some (Err err)
      | None => Some (Ok tx)
      end
  end.

Definition timePaceError (oid : OutputID) : error :=
  Errorf "timestamp of input violates time pace constraint: %s"
    [ArgBytes (TransactionIDOf oid); ArgNum (IndexOf oid)].

(** [oid.Timestamp()] is the timestamp of the transaction id of the
    output id. *)
Definition CheckTimePace : TxValidationOption := λ tx,
  let ts := timestamp tx in
  err ← ForEachInput tx
          (λ _ oid (err : option error),
             if negb (ValidTimePace (Timestamp (TransactionIDOf oid)) ts) then
               (Some (timePaceError oid), false)
             else (err, true))
          None;
  match err with
  | Some err => Some (Err err)
  | None => Some (Ok tx)
  end.

Definition endorsementNotSequencer (tx : Transaction) (endorsedTxID : TransactionID) : error :=
  Errorf "tx %s contains endorsement of non-sequencer transaction: %s"
    [ArgBytes (txHash tx); ArgBytes endorsedTxID].

Definition endorsementOtherSlot (tx : Transaction) (endorsedTxID : TransactionID) : error :=
  Errorf "tx %s can't endorse tx from another slot: %s"
    [ArgBytes (txHash tx); ArgBytes endorsedTxID].

Definition CheckEndorsements : TxValidationOption := λ tx,
  nonSequencerEndorses ←
    (if negb (sequencerMilestoneFlag tx) then
       n ← NumEndorsements tx; Some (bool_decide (0 < n)%nat)
     else Some false);
  if (nonSequencerEndorses : bool) then
    Some (Err (Errorf "non-sequencer tx can't contain endorsements: %s" [ArgBytes (txHash tx)]))
  else
    let txSlot := Slot (timestamp tx) in
    err ← ForEachEndorsement tx
            (λ _ endorsedTxID (err : option error),
               if negb (IsSequencerMilestone endorsedTxID) then
                 (Some (endorsementNotSequencer tx endorsedTxID), false)
               else if negb (Slot (Timestamp endorsedTxID) =? txSlot) then
                 (Some (endorsementOtherSlot tx endorsedTxID), false)
               else (err, true))
            None;
    match err with
    | Some err => Some (Err err)
    | None => Some (Ok tx)
    end.

Definition CheckSizeOfOutputCommitment : TxValidationOption := λ tx,
  data ← BytesAtPath (tree tx) (Path TxInputCommitment);
  if negb (bool_decide (length data = 32%nat)) then
    Some (Err (Errorf "input commitment must be 32-bytes long" []))
  else Some (Ok tx).

(** [MainTxValidationOptions] is all except Base, time bounds and input
    context validation. *)
Definition MainTxValidationOptions : list TxValidationOption :=
  [ScanSequencerData; CheckSender; CheckNumElements; CheckTimePace;
   CheckEndorsements; CheckUniqueness; ScanOutputs; CheckSizeOfOutputCommitment].

Definition FromBytesMainChecksWithOpt (txBytes : list N) (additional : list TxValidationOption)
  : result Transaction :=
  match FromBytes txBytes MainTxValidationOptions with
  | Err err => Err err
  | Ok tx =>
      match Validate tx additional with
      | Err err => Err err
      | Ok tx => Ok tx
      end
  end.

(** *** Notions used in the statements about the validation options *)

(** The inputs of a transaction: the elements of its input array parse to
    the output ids [oids]. *)
Definition inputsParse (tx : Transaction) (oids : list OutputID) : Prop :=
  ∃ datas, ForEachData (tree tx) (Path TxInputIDs) = Some datas
           ∧ Forall2 (λ data oid, OutputIDFromBytes data = Ok oid) datas oids.

Definition endorsementsParse (tx : Transaction) (txids : list TransactionID) : Prop :=
  ∃ datas, ForEachData (tree tx) (Path TxEndorsements) = Some datas
           ∧ Forall2 (λ data txid, TransactionIDFromBytes data = Ok txid) datas txids.

(** [x] at the index [i] is the first element of the list that occurs a
    second time. *)
Definition firstRepeatAt {A : Type} (l : list A) (i : nat) (x : A) : Prop :=
  l !! i = Some x ∧ x ∈ take i l ∧ NoDup (take i l).

(** [x] at the index [i] is the first element of the list that fails [P]. *)
Definition firstFailureAt {A : Type} (P : A → bool) (l : list A) (i : nat) (x : A) : Prop :=
  l !! i = Some x ∧ P x = false ∧ Forall (λ y, P y = true) (take i l).

(** The check of one endorsement by [CheckEndorsements]. *)
Definition endorsementOk (tx : Transaction) (endorsedTxID : TransactionID) : bool :=
  IsSequencerMilestone endorsedTxID
  && (Slot (Timestamp endorsedTxID) =? Slot (timestamp tx)).

(** The error, if any, that the loops of [CheckTimePace] and of
    [CheckEndorsements] raise on one element. *)
Definition timePaceCheck (tx : Transaction) (oid : OutputID) : option error :=
  if negb (ValidTimePace (Timestamp (TransactionIDOf oid)) (timestamp tx))
  then Some (timePaceError oid) else None.

Definition endorsementCheck (tx : Transaction) (txid : TransactionID) : option error :=
  if negb (IsSequencerMilestone txid) then Some (endorsementNotSequencer tx txid)
  else if negb (Slot (Timestamp txid) =? Slot (timestamp tx))
       then Some (endorsementOtherSlot tx txid)
  else None.

(** A validation option that only checks: it returns the transaction as
    it got it. *)
Definition checksOnly (option : TxValidationOption) : Prop :=
  ∀ tx tx', option tx = Some (Ok tx') → tx' = tx.

(** The loop of [ForEachInput] and [ForEachEndorsement] on elements that
    all parse. *)
Fixpoint iterFrom {A S : Type} (i : nat) (xs : list A)
    (fun_ : N → A → S → S * bool) (s : S) : S :=
  match xs with
  | [] => s
  | x :: rest =>
      let r := fun_ (byte_of_nat i) x s in
      if r.2 then iterFrom (Datatypes.S i) rest fun_ r.1 else r.1
  end.

End more_validation.

(** The methods of [Transaction] whose names package [ledger] uses as
    well. *)
Module Tx.

(** The functions that the methods call but the sources do not contain:
    the transaction id made of the four fields, and the hash. *)
Class Hashing : Type := {
  NewTransactionID : LogicalTime → list N → bool → bool → TransactionID;
  blake2b_Sum256 : list N → list N;
}.

Section with_library.
Context `{Library} `{LazyTree} `{Hashing}.

Definition ID (tx : Transaction) : TransactionID :=
  NewTransactionID (timestamp tx) (txHash tx) (sequencerMilestoneFlag tx)
    (branchTransactionFlag tx).

Definition IsSequencerMilestone (tx : Transaction) : bool := sequencerMilestoneFlag tx.

Definition IsBranchTransaction (tx : Transaction) : bool :=
  sequencerMilestoneFlag tx && branchTransactionFlag tx.

Definition Timestamp (tx : Transaction) : LogicalTime := timestamp tx.

End with_library.

End Tx.

Section predecessors.
Context `{Library} `{Constraints} `{LazyTree} `{LazyTreeIteration}.

(** [oid.TransactionID()] is the transaction id of the output id. *)
Definition PredecessorTransactionIDs (tx : Transaction) : option (gset TransactionID) :=
  ret ← ForEachInput tx
          (λ _ oid (ret : gset TransactionID), ({[TransactionIDOf oid]} ∪ ret, true))
          ∅;
  ForEachEndorsement tx
    (λ _ txid (ret : gset TransactionID), ({[txid]} ∪ ret, true))
    ret.

End predecessors.

End transaction.

(** ** Package util/set *)

Module set.

(** [Set.ForEach] calls [fun_] on the members of the set, in no particular
    order, until it returns [false].  The set is given by the list of its
    members in the order of the iteration; [fun_] acts on the variables [S]
    that the Go closure captures. *)
Fixpoint ForEach {A S : Type} (members : list A) (fun_ : A → S → S * bool) (s : S) : S :=
  match members with
  | [] => s
  | x :: rest =>
      let '(s', continue) := fun_ x s in
      if continue then ForEach rest fun_ s' else s'
  end.

End set.

(** ** Package vertex *)

Module vertex.
Import ledger.

Inductive Status : Type := Undefined | Good | Bad.

Global Instance Status_eq_dec : EqDecision Status.
Proof. solve_decision. Defined.

(** [WrappedOutput]: the pointer to the wrapped transaction and the index
    of the output. *)
Record WrappedOutput : Type := MkWrappedOutput { VID : nat; Index : N }.

Global Instance WrappedOutput_eq_dec : EqDecision WrappedOutput.
Proof. solve_decision. Defined.

Global Instance WrappedOutput_countable : Countable WrappedOutput.
Proof.
  refine (inj_countable' (λ w, (VID w, Index w)) (λ p, MkWrappedOutput p.1 p.2) _).
  by intros [].
Defined.

(** [Vertex]: the transaction and the pointers to the wrapped transactions
    of its inputs and endorsements, [nil] until they are attached. *)
Record Vertex : Type := MkVertex {
  Tx : transaction.Transaction;
  Inputs : list (option nat);
  Endorsements : list (option nat);
  BaselineBranch : option nat;
}.

Record VirtualTransaction : Type := MkVirtualTransaction {
  outputs : gmap N Output;
}.

(** The payload of a wrapped transaction.  A [_vertex] holds the pointer to
    its [Vertex]. *)
Inductive _genericWrapper : Type :=
| _vertex (v : nat)
| _virtualTx (v : VirtualTransaction)
| _deletedTx.

(** The mutable part of [WrappedTx].  The id of a wrapped transaction never
    changes and is kept apart, see [Identity]. *)
Record WrappedTx : Type := MkWrappedTx {
  txStatus : Status;
  reason : option error;
  wrapper : _genericWrapper;
  consumers : gmap N (gset nat);
}.

(** The transaction id behind every pointer to a wrapped transaction. *)
Class Identity : Type := { ID : nat → TransactionID }.

(** The memory: wrapped transactions and vertices by address. *)
Record Memory : Type := MkMemory {
  vids : nat → WrappedTx;
  vertices : nat → Vertex;
}.

Definition setVID (m : Memory) (vid : nat) (w : WrappedTx) : Memory :=
  MkMemory (<[vid := w]> (vids m)) (vertices m).

Definition setVertex (m : Memory) (p : nat) (v : Vertex) : Memory :=
  MkMemory (vids m) (<[p := v]> (vertices m)).

Section with_library.
Context `{Library} `{transaction.LazyTree} `{Identity}.

Definition GetTxStatus (m : Memory) (vid : nat) : Status := txStatus (vids m vid).

Definition GetReason (m : Memory) (vid : nat) : option error := reason (vids m vid).

Definition IsBranchTransaction (vid : nat) : bool := ledger.IsBranchTransaction (ID vid).

Definition IsSequencerMilestone (vid : nat) : bool := ledger.IsSequencerMilestone (ID vid).

Definition Timestamp (vid : nat) : LogicalTime := ledger.Timestamp (ID vid).

Definition Slot (vid : nat) : N := ledger.Slot (Timestamp vid).

(** The method [BaselineBranch] of [WrappedTx] ([BaselineBranch] itself is
    the field of [Vertex] here): it unwraps the payload, and panics on a
    deleted transaction ([PanicAccessDeleted]). *)
Definition BaselineBranchOf (m : Memory) (vid : nat) : option (option nat) :=
  match wrapper (vids m vid) with
  | _vertex v => Some (BaselineBranch (vertices m v))
  | _virtualTx _ =>
      if ledger.IsBranchTransaction (ID vid) && bool_decide (txStatus (vids m vid) = Good)
      then Some (Some vid) else Some None
  | _deletedTx => None
  end.

(** [OutputAt]: the output, or [nil] when it is not available, and an
    error for a wrong index; a deleted transaction panics. *)
Definition OutputAt (m : Memory) (vid : nat) (idx : N) : option (result (option Output)) :=
  match wrapper (vids m vid) with
  | _vertex v =>
      r ← transaction.ProducedOutputAt (Tx (vertices m v)) idx;
      match r with
      | Ok o => Some (Ok (Some o))
      | Err err => Some (Err err)
      end
  | _virtualTx v => Some (Ok (outputs v !! idx))
  | _deletedTx => None
  end.

(** Modelled from the spec: [attach_consumer(index, consumer_VID,
    conflict_check_fn) -> bool] inserts [consumer_VID] into
    [consumers[index]] iff the check rejects none of the existing consumers,
    under the lock of the producing transaction.  [AttachConsumer] is a
    method of [WrappedTx] in a file of package [vertex] that lies outside
    the files embedded here. *)
Definition AttachConsumer (m : Memory) (vid : nat) (outputIndex : N) (consumer : nat)
    (checkConflicts : gset nat → bool) : Memory * bool :=
  let w := vids m vid in
  let existingConsumers := default ∅ (consumers w !! outputIndex) in
  if checkConflicts existingConsumers then (m, false)
  else
    (setVID m vid
       (MkWrappedTx (txStatus w) (reason w) (wrapper w)
          (<[outputIndex := {[consumer]} ∪ existingConsumers]> (consumers w))),
     true).

(** Modelled from the spec: a rooted output [(vid, idx)] is the output
    [OutputID(vid.id, idx)], and its timestamp is the timestamp of [vid].
    [DecodeID] and [Timestamp] are methods of [WrappedOutput] in a file of
    package [vertex] that lies outside the files embedded here. *)
Definition DecodeID (wOut : WrappedOutput) : OutputID := NewOutputID (ID (VID wOut)) (Index wOut).

Definition TimestampOfOutput (wOut : WrappedOutput) : LogicalTime := Timestamp (VID wOut).

(** Modelled from the spec: the purge of the tip pool drops what belongs to
    a wrapped transaction that [is Bad or Deleted].  [IsBadOrDeleted] is a
    method of [WrappedTx] in a file of package [vertex] that lies outside
    the files embedded here. *)
Definition IsBadOrDeleted (m : Memory) (vid : nat) : bool :=
  match wrapper (vids m vid) with
  | _deletedTx => true
  | _ => bool_decide (txStatus (vids m vid) = Bad)
  end.

End with_library.

Section more_methods.
Context `{Library} `{transaction.LazyTree} `{Identity}.

(** [HasOutputAt] returns whether the output is there and whether the
    index is invalid; a deleted transaction panics. *)
Definition HasOutputAt (m : Memory) (vid : nat) (idx : N) : option (bool * bool) :=
  match wrapper (vids m vid) with
  | _vertex v =>
      n ← transaction.NumProducedOutputs (Tx (vertices m v));
      if bool_decide (n ≤ N.to_nat idx)%nat then Some (false, true)
      else Some (true, false)
  | _virtualTx v => Some (bool_decide (is_Some (outputs v !! idx)), false)
  | _deletedTx => None
  end.

End more_methods.

Section deletion.
Context `{Library} `{transaction.LazyTree} `{Identity}.

(** [MarkDeleted] replaces the payload of the wrapped transaction, which
    keeps its id; on a deleted one it panics ([PanicAccessDeleted]). *)
Definition MarkDeleted (m : Memory) (vid : nat) : option Memory :=
  match wrapper (vids m vid) with
  | _vertex _ | _virtualTx _ =>
      Some (setVID m vid
              (MkWrappedTx (txStatus (vids m vid)) (reason (vids m vid)) _deletedTx
                 (consumers (vids m vid))))
  | _deletedTx => None
  end.

End deletion.

End vertex.

(** ** Package attacher (core/attacher) *)

Module attacher.
Import ledger multistate vertex.

(** The fields of [attacher] that the embedded functions read or set. *)
Record attacher : Type := MkAttacher {
  name : string;
  baselineBranch : option nat;
  rooted : gmap nat (gset N);
  validPastVertices : gset nat;
  undefinedPastVertices : gset nat;
  coverageDelta : N;
  reason : option error;
  prevCoverage : list N;
}.

(** What an attacher asks of its environment without waiting for an answer. *)
Inductive Event : Type :=
| PokeMe (vid : nat)
| Pull (txid : TransactionID).

(** The state a call works on: the attacher, the memory of wrapped
    transactions and vertices, and the requests made so far. *)
Record World : Type := MkWorld {
  att : attacher;
  mem : Memory;
  trace : list Event;
}.

(** The functions of the environment and of the packages [attacher],
    [vertex] and [multistate] that the sources call but do not contain.
    The committed state of a branch and the descendance of branches are
    read-only for an attacher.  [GetStateReaderForTheBranch] gives the
    reader that the DAG holds for a branch; its assertion and the [nil]
    reader of a branch that the DAG does not hold are in
    [dag.GetStateReaderForTheBranch] below, and a statement that depends on
    them assumes that the DAG holds the reader. *)
Class Environment : Type := {
  GetStateReaderForTheBranch : nat → SugaredStateReader;
  BranchIsDescendantOf : TransactionID → TransactionID → bool;
  AttachTxID : Memory → TransactionID → Memory * nat;
  EnsureOutput : Memory → nat → N → Output → Memory * bool;
  maxToleratedParasiticChainSlots : N;
  HistoryCoverageDeltas : nat;
  FetchRootRecord : TransactionID → option (list N);
}.

(** *** The monad of the calls: state and panic *)

Definition M (A : Type) : Type := World → option (A * World).

Definition ret {A} (x : A) : M A := λ w, Some (x, w).

Definition bind {A B} (c : M A) (k : A → M B) : M B :=
  λ w, match c w with
       | Some (x, w') => k x w'
       | None => None
       end.

Definition panic {A} : M A := λ _, None.

Definition gets {A} (f : World → A) : M A := λ w, Some (f w, w).

Definition modify (f : World → World) : M unit := λ w, Some (tt, f w).

Definition Assertf (cond : bool) : M unit := if cond then ret tt else panic.

Notation "x <- c ;; k" := (bind c (λ x, k))
  (at level 20, c at level 99, k at level 200, only parsing).
Notation "' p <- c ;; k" := (bind c (λ x, let 'p := x in k))
  (at level 20, p pattern, c at level 99, k at level 200, only parsing).

(** An optional value whose absence is a panic. *)
Definition liftOption {A} (f : World → option A) : M A :=
  λ w, match f w with
       | Some x => Some (x, w)
       | None => None
       end.

Definition setAttacher (f : attacher → attacher) : M unit :=
  modify (λ w, MkWorld (f (att w)) (mem w) (trace w)).

Definition setMemory (m : Memory) : M unit :=
  modify (λ w, MkWorld (att w) m (trace w)).

Definition emit (e : Event) : M unit :=
  modify (λ w, MkWorld (att w) (mem w) (trace w ++ [e])).

(** A nil pointer dereference panics. *)
Definition deref {A} (p : option A) : M A :=
  match p with
  | Some x => ret x
  | None => panic
  end.

Section with_environment.
Context `{Library} `{transaction.LazyTree} `{Identity} `{Environment}.

Definition newPastConeAttacher (name : string) : attacher :=
  MkAttacher name None ∅ ∅ ∅ 0 None [].

Definition baselineStateReader : M SugaredStateReader :=
  b <- gets (λ w, baselineBranch (att w)) ;;
  b <- deref b ;;
  ret (GetStateReaderForTheBranch b).

Definition setReason (err : option error) : M unit :=
  setAttacher (λ a, MkAttacher (name a) (baselineBranch a) (rooted a)
                      (validPastVertices a) (undefinedPastVertices a)
                      (coverageDelta a) err (prevCoverage a)).

(** [FetchRootRecord] gives the ledger coverage of the root record of the
    branch, when the record is found. *)
Definition setBaselineBranch (vid : option nat) : M unit :=
  _ <- setAttacher (λ a, MkAttacher (name a) vid (rooted a)
                           (validPastVertices a) (undefinedPastVertices a)
                           (coverageDelta a) (reason a) (prevCoverage a)) ;;
  match vid with
  | Some b =>
      if bool_decide (1 < HistoryCoverageDeltas)%nat then
        rr <- deref (FetchRootRecord (ID b)) ;;
        setAttacher (λ a, MkAttacher (name a) (baselineBranch a) (rooted a)
                            (validPastVertices a) (undefinedPastVertices a)
                            (coverageDelta a) (reason a) rr)
      else ret tt
  | None => ret tt
  end.

Definition pastConeVertexVisited (vid : nat) (good : bool) : M unit :=
  if good then
    setAttacher (λ a, MkAttacher (name a) (baselineBranch a) (rooted a)
                        ({[vid]} ∪ validPastVertices a)
                        (undefinedPastVertices a ∖ {[vid]})
                        (coverageDelta a) (reason a) (prevCoverage a))
  else
    valid <- gets (λ w, validPastVertices (att w)) ;;
    _ <- Assertf (negb (bool_decide (vid ∈ valid))) ;;
    setAttacher (λ a, MkAttacher (name a) (baselineBranch a) (rooted a)
                        (validPastVertices a)
                        ({[vid]} ∪ undefinedPastVertices a)
                        (coverageDelta a) (reason a) (prevCoverage a)).

Definition isKnownVertex (vid : nat) : M bool :=
  a <- gets att ;;
  if bool_decide (vid ∈ validPastVertices a) then
    _ <- Assertf (negb (bool_decide (vid ∈ undefinedPastVertices a))) ;;
    ret true
  else if bool_decide (vid ∈ undefinedPastVertices a) then
    _ <- Assertf (negb (bool_decide (vid ∈ validPastVertices a))) ;;
    ret true
  else ret false.

(** [a.rooted[vid]]: the set stored for the key, empty for a missing key. *)
Definition rootedOf (a : attacher) (vid : nat) : gset N := default ∅ (rooted a !! vid).

Definition isRooted (a : attacher) (vid : nat) : bool :=
  bool_decide (0 < size (rootedOf a vid))%nat.

Definition isValidated (a : attacher) (vid : nat) : bool :=
  bool_decide (vid ∈ validPastVertices a).

Definition attachRooted (wOut : WrappedOutput) : M (bool * bool) :=
  b <- gets (λ w, baselineBranch (att w)) ;;
  b <- deref b ;;
  if After (TimestampOfOutput wOut) (Timestamp b) then
    (* output is later than baseline -> can't be rooted in it *)
    ret (true, false)
  else
    consumedRooted <- gets (λ w, rootedOf (att w) (VID wOut)) ;;
    if bool_decide (Index wOut ∈ consumedRooted) then
      (* it means it is already covered *)
      ret (true, true)
    else
      stateReader <- baselineStateReader ;;
      let oid := DecodeID wOut in
      let txid := TransactionIDOf oid in
      if bool_decide (size consumedRooted = 0%nat)
         && negb (KnowsCommittedTransaction stateReader txid) then
        (* it is not rooted, but it is fine *)
        ret (true, false)
      else
        match GetOutput stateReader oid with
        | Some out =>
            (* output has been found in the state -> Good *)
            m <- gets mem ;;
            let '(m', ensured) := EnsureOutput m (VID wOut) (Index wOut) out in
            _ <- setMemory m' ;;
            _ <- Assertf ensured ;;
            _ <- setAttacher (λ a, MkAttacher (name a) (baselineBranch a)
                                (<[VID wOut := {[Index wOut]} ∪ consumedRooted]> (rooted a))
                                (validPastVertices a) (undefinedPastVertices a)
                                ((coverageDelta a + Amount out) mod Uint64Modulus)
                                (reason a) (prevCoverage a)) ;;
            ret (true, true)
        | None =>
            (* output has not been found in the state -> Bad *)
            _ <- setReason (Some (Errorf "output %s is already consumed in the baseline state %s"
                               [ArgOut (VID wOut) (Index wOut); ArgPtr b])) ;;
            ret (false, false)
        end.

(** [a.pokeMe] of a milestone attacher and [a.Pull] leave a request. *)
Definition pokeMe (vid : nat) : M unit := emit (PokeMe vid).

Definition branchesCompatible (vid1 vid2 : option nat) : option bool :=
  match vid1, vid2 with
  | Some vid1, Some vid2 =>
      if vertex.IsBranchTransaction vid1 && vertex.IsBranchTransaction vid2 then
        if bool_decide (vid1 = vid2) then Some true
        else if vertex.Slot vid1 =? vertex.Slot vid2 then
          (* two different branches on the same slot conflicts *)
          Some false
        else if vertex.Slot vid1 <? vertex.Slot vid2 then
          Some (BranchIsDescendantOf (ID vid2) (ID vid1))
        else Some (BranchIsDescendantOf (ID vid1) (ID vid2))
      else None
  | _, _ => None
  end.

Definition checkConflictsFunc (a : attacher) (consumerTx : nat)
    (existingConsumers : gset nat) : bool :=
  set.ForEach (elements existingConsumers)
    (λ existingConsumer (conflict : bool),
       if bool_decide (existingConsumer = consumerTx) then (conflict, true)
       else if bool_decide (existingConsumer ∈ validPastVertices a) then (true, false)
       else if bool_decide (existingConsumer ∈ undefinedPastVertices a) then (true, false)
       else (conflict, true))
    false.

(** [v.Inputs[i]]: an index out of range panics. *)
Definition inputSlot (v : Vertex) (i : N) : M (option nat) :=
  deref (Inputs v !! N.to_nat i).

(** The wrapped transaction of the input: the one the vertex already
    points to, otherwise the one [AttachTxID] finds or creates. *)
Definition inputVID (slot : option nat) (inputOid : OutputID) : M nat :=
  match slot with
  | Some vid => ret vid
  | None =>
      m <- gets mem ;;
      let '(m', vid) := AttachTxID m (TransactionIDOf inputOid) in
      _ <- setMemory m' ;;
      ret vid
  end.

(** The check of the baselines of a sequencer milestone input. *)
Definition checkInputBaseline (a : attacher) (vidInputTx : nat) : M bool :=
  if vertex.IsSequencerMilestone vidInputTx then
    (* for sequencer milestones check if baselines are compatible *)
    inputBaselineBranch <- liftOption (λ w, BaselineBranchOf (mem w) vidInputTx) ;;
    match inputBaselineBranch with
    | Some ib =>
        c <- deref (branchesCompatible (baselineBranch a) (Some ib)) ;;
        if negb c then
          b <- deref (baselineBranch a) ;;
          _ <- setReason (Some (Errorf "branches %s and %s not compatible" [ArgPtr b; ArgPtr ib])) ;;
          ret false
        else ret true
    | None => ret true
    end
  else ret true.

Definition doubleSpendError (inputOid : OutputID) (consumerTx b : nat) : error :=
  Errorf "input %s of consumer %s conflicts with existing consumers in the baseline state %s (double spend)"
    [ArgBytes (TransactionIDOf inputOid); ArgNum (IndexOf inputOid); ArgPtr consumerTx; ArgPtr b].

Definition attachInputID (consumerVertex : nat) (consumerTx : nat) (inputIdx : N) : M bool :=
  cv <- gets (λ w, vertices (mem w) consumerVertex) ;;
  inputOid <- deref (transaction.MustInputAt (Tx cv) inputIdx) ;;
  slot <- inputSlot cv inputIdx ;;
  vidInputTx <- inputVID slot inputOid ;;
  status <- gets (λ w, GetTxStatus (mem w) vidInputTx) ;;
  if bool_decide (status = Bad) then
    r <- gets (λ w, GetReason (mem w) vidInputTx) ;;
    _ <- setReason r ;;
    ret false
  else
    (* attach consumer and check for conflicts *)
    known <- isKnownVertex consumerTx ;;
    _ <- Assertf known ;;
    a <- gets att ;;
    m <- gets mem ;;
    let '(m', attached) :=
      AttachConsumer m vidInputTx (IndexOf inputOid) consumerTx (checkConflictsFunc a consumerTx) in
    _ <- setMemory m' ;;
    if negb attached then
      b <- deref (baselineBranch a) ;;
      _ <- setReason (Some (doubleSpendError inputOid consumerTx b)) ;;
      ret false
    else
      compatible <- checkInputBaseline a vidInputTx ;;
      if negb compatible then ret false
      else
        cv <- gets (λ w, vertices (mem w) consumerVertex) ;;
        m <- gets mem ;;
        _ <- setMemory (setVertex m consumerVertex
                     (MkVertex (Tx cv) (<[N.to_nat inputIdx := Some vidInputTx]> (Inputs cv))
                        (Endorsements cv) (BaselineBranch cv))) ;;
        ret true.

(** The subtraction of [uint32] slots wraps around. *)
Definition subSlots (slot k : N) : N :=
  (slot + Uint32Modulus - k mod Uint32Modulus) mod Uint32Modulus.

Definition parasiticChainError (parasiticChainHorizon : LogicalTime) (wOut : WrappedOutput) : error :=
  Errorf "parasitic chain threshold %s broken while attaching output %s"
    [ArgTime (ledger.Slot parasiticChainHorizon) (TimeTick parasiticChainHorizon);
     ArgOut (VID wOut) (Index wOut)].

Section recursion.
(** [attachOutput] descends into the producing vertex with [attachVertex],
    which in turn comes back to [attachInput] for every input of that
    vertex.  The embedding takes the callee as a parameter. *)
Variable attachVertex :
  nat → nat → LogicalTime → gset nat → M (bool * gset nat).

(** The [Unwrap] at the end of [attachOutput], for an output that is not
    rooted and passed the parasitic chain rule. *)
Definition attachOutputUnwrap (wOut : WrappedOutput) (parasiticChainHorizon : LogicalTime)
    (visited : gset nat) : M (bool * gset nat) :=
  status <- gets (λ w, GetTxStatus (mem w) (VID wOut)) ;;
  payload <- gets (λ w, wrapper (vids (mem w) (VID wOut))) ;;
  match payload with
  | _vertex v =>
      let isSeq := ledger.IsSequencerMilestone (ID (VID wOut)) in
      if negb isSeq || bool_decide (status = Good) then
        (* go deeper if it is not seq milestone or its is good;
           good seq milestone, reset parasitic chain horizon *)
        attachVertex v (VID wOut)
          (if isSeq then NilLogicalTime else parasiticChainHorizon) visited
      else
        _ <- pokeMe (VID wOut) ;;
        ret (true, visited)
  | _virtualTx _ =>
      _ <- emit (Pull (ID (VID wOut))) ;;
      _ <- pokeMe (VID wOut) ;;
      ret (true, visited)
  | _deletedTx => ret (true, visited)
  end.

Definition attachOutput (wOut : WrappedOutput) (parasiticChainHorizon : LogicalTime)
    (visited : gset nat) : M (bool * gset nat) :=
  '(ok, outputIsRooted) <- attachRooted wOut ;;
  if negb ok then ret (false, visited)
  else if outputIsRooted then ret (true, visited)
  else if Before (TimestampOfOutput wOut) parasiticChainHorizon then
    (* parasitic chain rule *)
    _ <- setReason (Some (parasiticChainError parasiticChainHorizon wOut)) ;;
    ret (false, visited)
  else
    (* input is not rooted *)
    attachOutputUnwrap wOut parasiticChainHorizon visited.

(** The horizon [attachInput] hands to [attachOutput]. *)
Definition inputHorizon (parasiticChainHorizon : LogicalTime) (input : nat) : M LogicalTime :=
  if bool_decide (parasiticChainHorizon = NilLogicalTime) then
    deref (MustNewLogicalTime
             (subSlots (vertex.Slot input) maxToleratedParasiticChainSlots) 0)
  else ret parasiticChainHorizon.

Definition attachInput (v : nat) (inputIdx : N) (vid : nat)
    (parasiticChainHorizon : LogicalTime) (visited : gset nat)
    : M ((bool * bool) * gset nat) :=
  ok <- attachInputID v vid inputIdx ;;
  if negb ok then ret ((false, false), visited)
  else
    vv <- gets (λ w, vertices (mem w) v) ;;
    slot <- inputSlot vv inputIdx ;;
    input <- deref slot ;;
    parasiticChainHorizon <- inputHorizon parasiticChainHorizon input ;;
    index <- deref (transaction.MustOutputIndexOfTheInput (Tx vv) inputIdx) ;;
    let wOut := MkWrappedOutput input index in
    '(ok, visited) <- attachOutput wOut parasiticChainHorizon visited ;;
    if negb ok then ret ((false, false), visited)
    else
      a <- gets att ;;
      ret ((true, bool_decide (input ∈ validPastVertices a) || isRooted a input), visited).

End recursion.

(** *** Notions used in the statements about the attacher *)

(** The consumers registered for an output of a wrapped transaction. *)
Definition consumersOf (m : Memory) (vid : nat) (index : N) : gset nat :=
  default ∅ (consumers (vids m vid) !! index).

(** The outputs recorded in [a.rooted], as wrapped outputs. *)
Definition rootedList (r : gmap nat (gset N)) : list WrappedOutput :=
  map_to_list r ≫= λ entry, MkWrappedOutput entry.1 <$> elements entry.2.

Definition rootedOutputs (a : attacher) : list WrappedOutput := rootedList (rooted a).

(** The amount of a wrapped output in a committed state; 0 when the state
    does not hold the output. *)
Definition amountInState (r : SugaredStateReader) (wOut : WrappedOutput) : N :=
  from_option Amount 0 (GetOutput r (DecodeID wOut)).

(** The predicate of C2 on an attacher with baseline branch [b]. *)
Definition rootedCoverage (a : attacher) (b : nat) : Prop :=
  baselineBranch a = Some b
  ∧ coverageDelta a
    = sumN (amountInState (GetStateReaderForTheBranch b) <$> rootedOutputs a)
  ∧ (∀ vid index, index ∈ rootedOf a vid →
       HasUTXO (GetStateReaderForTheBranch b) (DecodeID (MkWrappedOutput vid index)) = true)
  ∧ (∀ vid, isRooted a vid = true →
       After (vertex.Timestamp vid) (vertex.Timestamp b) = false).

(** The horizon of the claim: the timestamp of the baseline,
    [maxToleratedParasiticChainSlots] slots earlier. *)
Definition baselineHorizon (b : nat) : LogicalTime :=
  MkLogicalTime (subSlots (vertex.Slot b) maxToleratedParasiticChainSlots)
    (TimeTick (vertex.Timestamp b)).

(** The closure that [checkConflictsFunc] hands to [ForEach]. *)
Definition conflictClosure (a : attacher) (consumerTx : nat)
    (existingConsumer : nat) (conflict : bool) : bool * bool :=
  if bool_decide (existingConsumer = consumerTx) then (conflict, true)
  else if bool_decide (existingConsumer ∈ validPastVertices a) then (true, false)
  else if bool_decide (existingConsumer ∈ undefinedPastVertices a) then (true, false)
  else (conflict, true).

End with_environment.

End attacher.

(** ** Package sort of the Go library *)

Module sort.

(** [sort.Slice] sorts a slice in place with the [less] it is given, which
    can panic; the library lies outside the files embedded here. *)
Class Slice : Type := {
  sortSlice : ∀ {A : Type}, (A → A → option bool) → list A → option (list A);
}.

(** *** Notions used in the statements about sorted selections *)

(** What the library asks of [less] on the elements of the slice: it does
    not panic, no element is less than itself, and both [less] and its
    negation are transitive. *)
Definition strictWeakOrder {A : Type} (less : A → A → option bool) (l : list A) : Prop :=
  (∀ a b, a ∈ l → b ∈ l → is_Some (less a b))
  ∧ (∀ a, a ∈ l → less a a = Some false)
  ∧ (∀ a b c, a ∈ l → b ∈ l → c ∈ l →
       less a b = Some true → less b c = Some true → less a c = Some true)
  ∧ (∀ a b c, a ∈ l → b ∈ l → c ∈ l →
       less a b = Some false → less b c = Some false → less a c = Some false).

(** What the library promises for such a [less]: the slice is rearranged,
    and no element is less than one that comes before it. *)
Definition sorts `{Slice} : Prop :=
  ∀ (A : Type) (less : A → A → option bool) (l : list A),
    strictWeakOrder less l →
    ∃ l', sortSlice less l = Some l' ∧ l' ≡ₚ l
          ∧ StronglySorted (λ a b, less b a = Some false) l'.

End sort.

(** ** Package tippool *)

Module tippool.
Import ledger vertex.

(** The functions of the environment and of package [vertex] that the
    sources call but do not contain.  Instants and durations are counted in
    nanoseconds; an instant is the time elapsed since the zero [time.Time]. *)
Class Environment : Type := {
  SequencerID : ChainID;
  PullSequencerTips : ChainID → bool → result (gset WrappedOutput);
  SequencerIDIfAvailable : Memory → nat → ChainID * bool;
  LedgerCoverageSum : Memory → nat → N;
  SlotDuration : Z;
}.

Record SequencerTipPool : Type := MkSequencerTipPool {
  outputs : gset WrappedOutput;
  latestMilestones : gmap ChainID nat;
  lastPruned : Z;
  outputCount : Z;
  removedOutputsSinceReset : Z;
}.

(** Arithmetic of the Go type [int] (64 bits, two's complement). *)
Definition wrapInt (x : Z) : Z :=
  ((x + 9223372036854775808) mod 18446744073709551616 - 9223372036854775808)%Z.

(** [bytes.Compare]: the byte-wise lexicographic comparison, [-1], [0] or
    [1]. *)
Fixpoint bytesCompare (a b : list N) : Z :=
  match a, b with
  | [], [] => 0%Z
  | [], _ :: _ => (-1)%Z
  | _ :: _, [] => 1%Z
  | x :: a', y :: b' =>
      if x <? y then (-1)%Z
      else if y <? x then 1%Z
      else bytesCompare a' b'
  end.

Definition OptionDoNotLoadOwnMilestones : N := 0.

Section with_environment.
Context `{Library} `{transaction.LazyTree} `{Identity} `{Environment}.

Definition isCandidateToTagAlong (m : Memory) (wOut : WrappedOutput) : option bool :=
  if IsBadOrDeleted m (VID wOut) then Some false
  else if vertex.IsBranchTransaction (VID wOut) then
    (* outputs of branch transactions are filtered out *)
    Some false
  else
    r ← OutputAt m (VID wOut) (Index wOut);
    match r with
    | Err _ => Some false
    | Ok None => Some true
    | Ok (Some o) =>
        if negb (ChainConstraintIndex o =? 255) then
          (* filter out all chain constrained outputs *)
          Some false
        else Some true
    end.

(** The first loop of [purge]: the members to delete, in the order of the
    iteration over the set. *)
Fixpoint purgeCollect (m : Memory) (members : list WrappedOutput) : option (list WrappedOutput) :=
  match members with
  | [] => Some []
  | wOut :: rest =>
      c ← isCandidateToTagAlong m wOut;
      toDelete ← purgeCollect m rest;
      Some (if negb c then wOut :: toDelete else toDelete)
  end.

(** [purge] at the instant [now]. *)
Definition purge (m : Memory) (now : Z) (tp : SequencerTipPool) : option SequencerTipPool :=
  let cleanupPeriod := (SlotDuration `quot` 2)%Z in
  if (now - lastPruned tp <? cleanupPeriod)%Z then Some tp
  else
    toDelete ← purgeCollect m (elements (outputs tp));
    let outputs' := foldl (λ s wOut, s ∖ {[wOut]}) (outputs tp) toDelete in
    let toDeleteMilestoneChainID :=
      (filter (λ entry, Is_true (IsBadOrDeleted m entry.2))
              (map_to_list (latestMilestones tp))).*1 in
    let latestMilestones' :=
      foldl (λ ms chainID, delete chainID ms) (latestMilestones tp) toDeleteMilestoneChainID in
    Some (MkSequencerTipPool outputs' latestMilestones' now (outputCount tp)
            (wrapInt (removedOutputsSinceReset tp + Z.of_nat (length toDelete)))).

(** The listener of the chain-locked account that [New] registers. *)
Definition accountListener (m : Memory) (now : Z) (wOut : WrappedOutput)
    (tp : SequencerTipPool) : option SequencerTipPool :=
  tp ← purge m now tp;
  c ← isCandidateToTagAlong m wOut;
  if negb c then Some tp
  else
    Some (MkSequencerTipPool ({[wOut]} ∪ outputs tp) (latestMilestones tp) (lastPruned tp)
            (wrapInt (outputCount tp + 1)) (removedOutputsSinceReset tp)).

(** The listener of the sequencers that [New] registers. *)
Definition sequencerListener (m : Memory) (vid : nat)
    (tp : SequencerTipPool) : option SequencerTipPool :=
  let '(seqIDIncoming, ok) := SequencerIDIfAvailable m vid in
  if negb ok then None
  else
    let store :=
      match latestMilestones tp !! seqIDIncoming with
      | None => true
      | Some old => negb (Before (vertex.Timestamp vid) (vertex.Timestamp old))
      end in
    if store then
      (* store the latest one for each seqID *)
      Some (MkSequencerTipPool (outputs tp) (<[seqIDIncoming := vid]> (latestMilestones tp))
              (lastPruned tp) (outputCount tp) (removedOutputsSinceReset tp))
    else Some tp.

(** [New]: the tip pool once the tips of the sequencer are pulled. *)
Definition New (opts : list N) : result SequencerTipPool :=
  let doNotLoadOwnMilestones := bool_decide (OptionDoNotLoadOwnMilestones ∈ opts) in
  match PullSequencerTips SequencerID (negb doNotLoadOwnMilestones) with
  | Err err => Err err
  | Ok outs => Ok (MkSequencerTipPool outs ∅ 0 0 0)
  end.

Definition isPreferredMilestoneAgainstTheOther (m : Memory) (vid1 vid2 : option nat)
    : option bool :=
  (* the assertion dereferences both pointers *)
  v1 ← vid1;
  v2 ← vid2;
  if negb (vertex.IsSequencerMilestone v1 && vertex.IsSequencerMilestone v2) then None
  else if bool_decide (vid1 = vid2) then Some false
  else if bool_decide (vid2 = None) then Some true
  else
    let coverage1 := LedgerCoverageSum m v1 in
    let coverage2 := LedgerCoverageSum m v2 in
    if coverage2 <? coverage1 then
      (* main preference is by ledger coverage *)
      Some true
    else if coverage1 =? coverage2 then
      (* in case of equal coverage hash will be used *)
      Some (0 <? bytesCompare (ID v1) (ID v2))%Z
    else Some false.

(** *** Notions used in the statements about the tip pool *)

(** The lexicographic order of byte strings, strict. *)
Fixpoint lexLess (a b : list N) : Prop :=
  match a, b with
  | _, [] => False
  | [], _ :: _ => True
  | x :: a', y :: b' => x < y ∨ (x = y ∧ lexLess a' b')
  end.

(** The tip pool with [vid] stored as the latest milestone of [seqID]. *)
Definition withLatestMilestone (seqID : ChainID) (vid : nat) (tp : SequencerTipPool)
  : SequencerTipPool :=
  MkSequencerTipPool (outputs tp) (<[seqID := vid]> (latestMilestones tp))
    (lastPruned tp) (outputCount tp) (removedOutputsSinceReset tp).

(** The instant of a purge is due when half a slot has passed since the
    previous one. *)
Definition purgeDue (now : Z) (tp : SequencerTipPool) : Prop :=
  (SlotDuration `quot` 2 ≤ now - lastPruned tp)%Z.

End with_environment.

Section selection.
Context `{Library} `{Constraints} `{transaction.LazyTree} `{Identity} `{Environment}
  `{sort.Slice}.

(** The loop of [preSelectAndSortEndorsableMilestones] over the map of the
    latest milestones, whose values it takes in the order [mss]. *)
Definition preSelect (targetTs : LogicalTime) (mss : list nat) : list nat :=
  foldl (λ ret ms,
           if negb (vertex.Slot ms =? ledger.Slot targetTs)
              || negb (ValidTimePace (vertex.Timestamp ms) targetTs)
           then ret
           else ret ++ [ms])
        [] mss.

(** [preSelectAndSortEndorsableMilestones] at the instant [now]: the
    milestones selected and the pool after the purge. *)
Definition preSelectAndSortEndorsableMilestones (m : Memory) (now : Z)
    (targetTs : LogicalTime) (tp : SequencerTipPool)
  : option (list nat * SequencerTipPool) :=
  tp ← purge m now tp;
  ret ← sort.sortSlice
           (λ vid1 vid2,
              (* order is important !!! *)
              isPreferredMilestoneAgainstTheOther m (Some vid1) (Some vid2))
           (preSelect targetTs (map_to_list (latestMilestones tp)).*2);
  Some (ret, tp).

End selection.

End tippool.

(** ** Package dag (core/dag/dag.go) *)

Module dag.
Import ledger multistate vertex.

(** The vertices by transaction id and the state readers of the branches.
    A state reader is the committed state it reads. *)
Record DAG : Type := MkDAG {
  vertices : gmap TransactionID nat;
  branches : gmap nat SugaredStateReader;
}.

(** The functions of package [multistate] and of [WrappedTx] that the
    sources call but do not contain: the root record of a branch, the
    reader of a root, and the sum of the ledger coverage that a wrapped
    transaction holds. *)
Class Environment : Type := {
  FetchRootRecord : TransactionID → option (list N);
  NewReadable : list N → result SugaredStateReader;
  LedgerCoverageSum : Memory → nat → N;
}.

Section with_environment.
Context `{Library} `{Identity} `{Environment} `{sort.Slice}.

Definition New : DAG := MkDAG ∅ ∅.

Definition GetVertexNoLock (d : DAG) (txid : TransactionID) : option nat :=
  vertices d !! txid.

Definition AddVertexNoLock (d : DAG) (vid : nat) : option DAG :=
  if negb (bool_decide (GetVertexNoLock d (ID vid) = None)) then None
  else Some (MkDAG (<[ID vid := vid]> (vertices d)) (branches d)).

Definition GetIndexedStateReader (branchTxID : TransactionID) : result SugaredStateReader :=
  match FetchRootRecord branchTxID with
  | None => Err (Errorf "root record for %s has not been found" [ArgBytes branchTxID])
  | Some root => NewReadable root
  end.

Definition MustGetIndexedStateReader (branchTxID : TransactionID) : option SugaredStateReader :=
  match GetIndexedStateReader branchTxID with
  | Ok ret => Some ret
  | Err _ => None
  end.

Definition AddBranchNoLock (d : DAG) (branchVID : nat) : option DAG :=
  if negb (vertex.IsBranchTransaction branchVID) then None
  else
    match branches d !! branchVID with
    | Some _ => Some d
    | None =>
        rdr ← MustGetIndexedStateReader (ID branchVID);
        Some (MkDAG (vertices d) (<[branchVID := rdr]> (branches d)))
    end.

(** The reader of a branch that the DAG does not hold is [nil]. *)
Definition GetStateReaderForTheBranch (d : DAG) (branchVID : nat)
  : option (option SugaredStateReader) :=
  if negb (vertex.IsBranchTransaction branchVID) then None
  else Some (branches d !! branchVID).

(** The loops over the map of the branches take its keys in the order
    [keys]. *)
Definition branchesForSlot (keys : list nat) (slot : N) : list nat :=
  filter (λ br, vertex.Slot br = slot) keys.

Definition _branchesForSlot (d : DAG) (slot : N) : list nat :=
  branchesForSlot (map_to_list (branches d)).*1 slot.

Definition _branchesDescending (m : Memory) (d : DAG) (slot : N) : option (list nat) :=
  sort.sortSlice (λ bi bj, Some (LedgerCoverageSum m bj <? LedgerCoverageSum m bi))
    (_branchesForSlot d slot).

Definition latestBranchSlot (keys : list nat) : N :=
  foldl (λ ret br, if ret <? vertex.Slot br then vertex.Slot br else ret) 0 keys.

Definition _latestBranchSlot (d : DAG) : N :=
  latestBranchSlot (map_to_list (branches d)).*1.

Definition LatestBranchSlot (d : DAG) : N := _latestBranchSlot d.

(** The loop of [FindOutputInLatestTimeSlot]; a branch whose reader is
    [nil] panics. *)
Fixpoint findOutput (d : DAG) (brs : list nat) (oid : OutputID)
  : option (option (nat * SugaredStateReader)) :=
  match brs with
  | [] => Some None
  | br :: rest =>
      rdr ← branches d !! br;
      if HasUTXO rdr oid then Some (Some (br, rdr)) else findOutput d rest oid
  end.

Definition FindOutputInLatestTimeSlot (m : Memory) (d : DAG) (oid : OutputID)
  : option (option (nat * SugaredStateReader)) :=
  brs ← _branchesDescending m d (_latestBranchSlot d);
  findOutput d brs oid.

Fixpoint hasOutputInAll (d : DAG) (brs : list nat) (oid : OutputID) : option bool :=
  match brs with
  | [] => Some true
  | br :: rest =>
      rdr ← branches d !! br;
      if negb (HasUTXO rdr oid) then Some false else hasOutputInAll d rest oid
  end.

Definition HasOutputInAllBranches (m : Memory) (d : DAG) (e : N) (oid : OutputID)
  : option bool :=
  brs ← _branchesDescending m d e;
  hasOutputInAll d brs oid.

End with_environment.

End dag.

(** ** Package sequencer: the proposals of a milestone factory
    (sequencer/proposer.go and the factory of the same package) *)

Module sequencer.
Import ledger transaction vertex.

(** A string made with [fmt.Sprintf]; the empty string is [None] where a
    function returns one. *)
Inductive formatted : Type := Sprintf (format : string) (args : list fmtArg).

Record proposedMilestoneWithData : Type := MkProposed {
  tx : Transaction;
  extended : WrappedOutput;
  coverage : N;
  elapsed : Z;
  proposedBy : string;
}.

(** Durations are counted in nanoseconds ([int64]). *)
Record latestMilestoneProposal : Type := MkProposal {
  targetTs : LogicalTime;
  bestSoFarCoverage : N;
  current : option Transaction;
  currentExtended : WrappedOutput;
  durations : list Z;
}.

(** The fields of [proposerTaskGeneric] that the embedded functions read
    or set; [factory.proposal] is shared by the tasks and passed apart. *)
Record proposerTaskGeneric : Type := MkTask {
  strategyName : string;
  taskTargetTs : LogicalTime;
  alreadyProposed : gset (list N);
  visited : gset (nat * nat);
}.

(** [LedgerCoverageFromTransaction] of package [utangle], taken by its
    result, since the draft vertex it builds is outside the files embedded
    here: the ledger coverage, or an error, which it returns together with
    the coverage 0. *)
Class Environment : Type := {
  LedgerCoverageFromTransaction : Transaction → result N;
}.

(** Arithmetic of the Go type [int64]. *)
Definition wrapInt64 (x : Z) : Z :=
  ((x + 9223372036854775808) mod 18446744073709551616 - 9223372036854775808)%Z.

Section with_environment.
Context `{Library} `{LazyTree} `{Tx.Hashing} `{Identity} `{Environment}.

Definition newProposerGeneric (targetTs : LogicalTime) (strategyName : string)
  : proposerTaskGeneric :=
  MkTask strategyName targetTs ∅ ∅.

Definition storeVisited (c : proposerTaskGeneric) (extend endorse : nat) : proposerTaskGeneric :=
  MkTask (strategyName c) (taskTargetTs c) (alreadyProposed c) ({[(extend, endorse)]} ∪ visited c).

Definition alreadyVisited (c : proposerTaskGeneric) (extend endorse : nat) : bool :=
  bool_decide ((extend, endorse) ∈ visited c).

(** [tx.HashInputsAndEndorsements]: the hash of the input ids followed by
    the endorsements. *)
Definition HashInputsAndEndorsements `{Constraints} (tx : Transaction) : option (list N) :=
  inputs ← BytesAtPath (tree tx) (Path TxInputIDs);
  endorsements ← BytesAtPath (tree tx) (Path TxEndorsements);
  Some (Tx.blake2b_Sum256 (inputs ++ endorsements)).

Definition IsSlotBoundary (ts : LogicalTime) : bool := TimeTick ts =? 0.

(** [placeProposalIfRelevant]: the proposal of the factory afterwards, the
    reject reason and whether the task must exit.  The trace and the
    warning it logs are left out. *)
Definition placeProposalIfRelevant (proposal : latestMilestoneProposal)
    (mdProposed : proposedMilestoneWithData)
  : latestMilestoneProposal * (option formatted * bool) :=
  if bool_decide (targetTs proposal = NilLogicalTime) then
    (proposal,
     (Some (Sprintf "%s SKIPPED: target is nil" [ArgBytes (Tx.ID (tx mdProposed))]), false))
  else if negb (bool_decide (Tx.Timestamp (tx mdProposed) = targetTs proposal)) then
    (* decide if it is not lagging behind the target *)
    (proposal,
     (Some (Sprintf "%s SKIPPED: task is behind target" [ArgBytes (Tx.ID (tx mdProposed))]), true))
  else if match current proposal with
          | Some cur => bool_decide (Tx.ID cur = Tx.ID (tx mdProposed))
          | None => false
          end then
    (proposal,
     (Some (Sprintf "%s SKIPPED: repeating" [ArgBytes (Tx.ID (tx mdProposed))]), false))
  else
    let baselineCoverage := bestSoFarCoverage proposal in
    if negb (Tx.IsBranchTransaction (tx mdProposed))
       && (coverage mdProposed <=? baselineCoverage) then
      (proposal,
       (Some (Sprintf "%s SKIPPED: no increase in coverage %s <- %s)"
                [ArgBytes (Tx.ID (tx mdProposed)); ArgNum (coverage mdProposed);
                 ArgNum (bestSoFarCoverage proposal)]), false))
    else
      (* branch proposals always accepted *)
      (MkProposal (targetTs proposal) (coverage mdProposed) (Some (tx mdProposed))
         (extended mdProposed) (durations proposal),
       (None, false)).

(** [assessAndAcceptProposal]: the task and the proposal afterwards, and
    whether the task must exit.  [elapsed] is the time since [startTime]. *)
Definition assessAndAcceptProposal `{Constraints} (c : proposerTaskGeneric)
    (proposal : latestMilestoneProposal) (tx : Transaction) (extend : WrappedOutput)
    (elapsed : Z) (taskName : string)
  : option (proposerTaskGeneric * latestMilestoneProposal * bool) :=
  (* prevent repeating transactions with same consumedInThePastPath *)
  hashOfProposal ← HashInputsAndEndorsements tx;
  if bool_decide (hashOfProposal ∈ alreadyProposed c) then Some (c, proposal, false)
  else
    let c := MkTask (strategyName c) (taskTargetTs c) ({[hashOfProposal]} ∪ alreadyProposed c)
               (visited c) in
    let coverage := match LedgerCoverageFromTransaction tx with
                    | Ok coverage => coverage
                    | Err _ => 0
                    end in
    let msData := MkProposed tx extend coverage elapsed taskName in
    let '(proposal, (_, forceExit)) := placeProposalIfRelevant proposal msData in
    Some (c, proposal, forceExit).

(** [setNewTarget] signals the new timestamp to the proposers. *)
Definition setNewTarget (proposal : latestMilestoneProposal) (ts : LogicalTime)
  : latestMilestoneProposal :=
  MkProposal ts (if IsSlotBoundary ts then 0 else bestSoFarCoverage proposal) None
    (currentExtended proposal) [].

Definition storeProposalDuration (proposal : latestMilestoneProposal) (d : Z)
  : latestMilestoneProposal :=
  MkProposal (targetTs proposal) (bestSoFarCoverage proposal) (current proposal)
    (currentExtended proposal) (durations proposal ++ [d]).

(** The sum is an [int64] and wraps around; the division truncates. *)
Definition averageProposalDuration (proposal : latestMilestoneProposal) : Z * nat :=
  if bool_decide (length (durations proposal) = 0%nat) then (0%Z, 0%nat)
  else
    let sum := foldl (λ sum d, wrapInt64 (sum + d)) 0%Z (durations proposal) in
    ((sum `quot` Z.of_nat (length (durations proposal)))%Z, length (durations proposal)).

Definition continueCandidateProposing (mc : latestMilestoneProposal) (ts : LogicalTime) : bool :=
  bool_decide (targetTs mc = ts).

Definition getLatestProposal (mc : latestMilestoneProposal) : option Transaction := current mc.

(** [getLatestMilestone]: the own milestones are given in the order in
    which the map is iterated; the assertion panics on an empty map. *)
Definition getLatestMilestone (ownMilestones : list WrappedOutput) : option WrappedOutput :=
  foldl (λ (ret : option WrappedOutput) ms,
           match ret with
           | None => Some ms
           | Some r =>
               if After (TimestampOfOutput ms) (TimestampOfOutput r) then Some ms else Some r
           end)
        None ownMilestones.

(** *** Notions used in the statements about the proposals *)

(** What the proposers and the factory do to the proposal of the factory. *)
Inductive proposalStep : Type :=
| SetNewTarget (ts : LogicalTime)
| PlaceProposal (mdProposed : proposedMilestoneWithData)
| StoreDuration (d : Z).

Definition runStep (proposal : latestMilestoneProposal) (step : proposalStep)
  : latestMilestoneProposal :=
  match step with
  | SetNewTarget ts => setNewTarget proposal ts
  | PlaceProposal mdProposed => (placeProposalIfRelevant proposal mdProposed).1
  | StoreDuration d => storeProposalDuration proposal d
  end.

(** The current proposal, when there is one, is for the current target. *)
Definition proposalForTarget (proposal : latestMilestoneProposal) : Prop :=
  ∀ tx, current proposal = Some tx →
        Tx.Timestamp tx = targetTs proposal ∧ targetTs proposal ≠ NilLogicalTime.

End with_environment.

End sequencer.

(** ** A small instance of the absent functions

    The definitions above run on any implementation of [ledger.Library],
    [transaction.LazyTree], [vertex.Identity] and the two environments.
    The instance below is small enough to compute with: a tree is a
    sequence of elements, each preceded by its length in one byte; a
    transaction id starts with its slot, its tick and its two flags. *)

Module sample.
Import ledger transaction.

(** The elements of a tree node; [fuel] bounds the number of elements. *)
Fixpoint elementsOf (fuel : nat) (bs : list N) : option (list (list N)) :=
  match fuel, bs with
  | _, [] => Some []
  | O, _ :: _ => None
  | S fuel, len :: rest =>
      if bool_decide (length rest < N.to_nat len)%nat then None
      else
        tl ← elementsOf fuel (drop (N.to_nat len) rest);
        Some (take (N.to_nat len) rest :: tl)
  end.

Fixpoint bytesAtPath (bs : list N) (path : list N) : option (list N) :=
  match path with
  | [] => Some bs
  | i :: path =>
      elems ← elementsOf (length bs) bs;
      sub ← elems !! N.to_nat i;
      bytesAtPath sub path
  end.

Definition numElements (bs : list N) (path : list N) : option nat :=
  sub ← bytesAtPath bs path;
  elems ← elementsOf (length sub) sub;
  Some (length elems).

Global Instance tree : LazyTree := {|
  BytesAtPath := bytesAtPath;
  NumElements := numElements;
|}.

Definition timeFromBytes (bs : list N) : result LogicalTime :=
  match bs with
  | [a; b; c; d; t] => Ok (MkLogicalTime (BigEndianUint64 [a; b; c; d]) t)
  | _ => Err (Errorf "wrong timestamp bytes" [])
  end.

(** An output is its amount in eight bytes and the index of its chain
    constraint. *)
Definition outputFromBytes (bs : list N) : result (Output * N) :=
  match bs with
  | [a; b; c; d; e; f; g; h; chain] =>
      let amount := BigEndianUint64 [a; b; c; d; e; f; g; h] in
      Ok (MkOutput amount chain, amount)
  | _ => Err (Errorf "wrong output bytes" [])
  end.

Definition outputIDFromBytes (bs : list N) : result OutputID :=
  match reverse bs with
  | index :: txid => Ok (NewOutputID (reverse txid) index)
  | [] => Err (Errorf "wrong output id bytes" [])
  end.

Global Instance library : Library := {|
  Timestamp txid := MkLogicalTime (nth 0 txid 0) (nth 1 txid 0);
  IsSequencerMilestone txid := nth 2 txid 0 =? 1;
  IsBranchTransaction txid := nth 3 txid 0 =? 1;
  NilLogicalTime := MkLogicalTime 0 0;
  MustNewLogicalTime slot tick :=
    if (slot <? Uint32Modulus) && (tick <? 100) then Some (MkLogicalTime slot tick) else None;
  LogicalTimeFromBytes := timeFromBytes;
  OutputFromBytesMain := outputFromBytes;
  OutputFromBytesReadOnly bs :=
    match outputFromBytes bs with Ok (o, _) => Ok o | Err err => Err err end;
  OutputIDFromBytes := outputIDFromBytes;
  MustOutputIndexFromIDBytes bs := last bs;
  HashTransactionBytes bs := take 4 bs;
  TxTimestamp := 5;
  TxSequencerAndStemOutputIndices := 4;
  TxTotalProducedAmount := 6;
  TxOutputs := 2;
  TxInputIDs := 1;
|}.

(** The bytes of a tree node with the given elements. *)
Definition node (elems : list (list N)) : list N :=
  elems ≫= (λ e, N.of_nat (length e) :: e).

(** A transaction with no unlock data: inputs, outputs, the two indices,
    the timestamp and the total. *)
Definition txBytes (inputs outputs : list (list N)) (indices ts total : list N) : list N :=
  node [ []; node inputs; node outputs; []; indices; ts; total ].

(** The wrapped transactions of the examples, by address:
    1 is a branch on slot 100; 2 a sequencer milestone on slot 100;
    3 an old transaction, of slot 10; 4 a transaction of slot 90;
    5 and 6 two sequencer milestones with the same timestamp; 7 a second
    branch on slot 100. *)
Definition idOf (vid : nat) : TransactionID :=
  match vid with
  | 1%nat => [100; 0; 1; 1; 1]
  | 2%nat => [100; 5; 1; 0; 2]
  | 3%nat => [10; 5; 0; 0; 3]
  | 4%nat => [90; 0; 0; 0; 4]
  | 5%nat => [100; 7; 1; 0; 5]
  | 6%nat => [100; 7; 1; 0; 6]
  | 7%nat => [100; 0; 1; 1; 7]
  | _ => [0; 0; 0; 0; N.of_nat vid]
  end.

Global Instance identity : vertex.Identity := {| vertex.ID := idOf |}.

(** The state of branch 1 holds output 0 of transaction 4, of amount 7. *)
Definition stateOfBranch (b : nat) : multistate.SugaredStateReader :=
  if bool_decide (b = 1%nat) then
    multistate.MakeSugared {[ NewOutputID (idOf 4) 0 := MkOutput 7 255 ]} {[ idOf 4 ]}
  else multistate.MakeSugared ∅ ∅.

Global Instance attacherEnvironment : attacher.Environment := {|
  attacher.GetStateReaderForTheBranch := stateOfBranch;
  attacher.BranchIsDescendantOf _ _ := false;
  attacher.AttachTxID m txid := (m, N.to_nat (default 0 (last txid)));
  attacher.EnsureOutput m _ _ _ := (m, true);
  attacher.maxToleratedParasiticChainSlots := 5;
  attacher.HistoryCoverageDeltas := 1;
  attacher.FetchRootRecord _ := None;
|}.

(** The tip pool of sequencer [[42]]; the pull of its tips brings output 0
    of the branch 1. *)
Global Instance tippoolEnvironment : tippool.Environment := {|
  tippool.SequencerID := [42];
  tippool.PullSequencerTips _ _ := Ok {[ vertex.MkWrappedOutput 1 0 ]};
  tippool.SequencerIDIfAvailable _ vid := ([42], IsSequencerMilestone (idOf vid));
  tippool.LedgerCoverageSum _ _ := 1000;
  tippool.SlotDuration := 10000000000%Z;
|}.

(** A memory where every wrapped transaction is virtual and undefined, but
    for 1, which is good, and 2, which holds the vertex at address 2: a
    transaction that consumes output 0 of transaction 3. *)
Definition consumerBytes : list N :=
  txBytes [[10; 5; 0; 0; 3; 0]] [[0; 0; 0; 0; 0; 0; 0; 5; 255]]
    [0; 255] [0; 0; 0; 100; 5] [0; 0; 0; 0; 0; 0; 0; 5].

Definition consumerTransaction : Transaction :=
  MkTransaction consumerBytes (take 4 consumerBytes) true false (MkLogicalTime 100 5) 5
    (length consumerBytes).

Definition memory : vertex.Memory :=
  vertex.MkMemory
    (λ vid, match vid with
            | 1%nat => vertex.MkWrappedTx vertex.Good None
                         (vertex._virtualTx (vertex.MkVirtualTransaction ∅)) ∅
            | 2%nat => vertex.MkWrappedTx vertex.Undefined None (vertex._vertex 2) ∅
            | _ => vertex.MkWrappedTx vertex.Undefined None
                     (vertex._virtualTx (vertex.MkVirtualTransaction ∅)) ∅
            end)
    (λ _, vertex.MkVertex consumerTransaction [None] [] (Some 1%nat)).

(** The attacher of milestone 2 on the baseline 1. *)
Definition milestoneAttacher : attacher.attacher :=
  attacher.MkAttacher "2" (Some 1%nat) ∅ ∅ {[ 2%nat ]} 0 None [].

Definition world : attacher.World := attacher.MkWorld milestoneAttacher memory [].

(** The same, when transaction 8 of the past cone already consumes output 0
    of transaction 3. *)
Definition conflictMemory : vertex.Memory :=
  vertex.setVID memory 3
    (vertex.MkWrappedTx vertex.Undefined None
       (vertex._virtualTx (vertex.MkVirtualTransaction ∅)) {[ 0 := {[ 8%nat ]} ]}).

Definition conflictWorld : attacher.World :=
  attacher.MkWorld (attacher.MkAttacher "2" (Some 1%nat) ∅ ∅ {[ 2%nat; 8%nat ]} 0 None [])
    conflictMemory [].

(** No descent into the producing vertex. *)
Definition noDescent (v vid : nat) (horizon : LogicalTime) (visited : gset nat)
  : attacher.M (bool * gset nat) := attacher.ret (true, visited).

(** *** Runs on the sample instance *)

Module runs.
Import multistate vertex attacher.

(** A transfer with one input and two outputs of 5 and 6, total 11. *)
Definition transferBytes (indices ts : list N) : list N :=
  txBytes [[1; 1; 0; 0; 7]]
    [[0; 0; 0; 0; 0; 0; 0; 5; 255]; [0; 0; 0; 0; 0; 0; 0; 6; 255]]
    indices ts [0; 0; 0; 0; 0; 0; 0; 11].

Definition transferTx (txBytes : list N) : Transaction :=
  MkTransaction txBytes (take 4 txBytes) false false (MkLogicalTime 9 0) 11 (length txBytes).

(** Two outputs of [2^63] each: the exact sum passes [MaxUint64]. *)
Definition overflowBytes : list N :=
  txBytes [[1; 1; 0; 0; 7]]
    [[128; 0; 0; 0; 0; 0; 0; 0; 255]; [128; 0; 0; 0; 0; 0; 0; 0; 255]]
    [255; 255] [0; 0; 0; 9; 1] [0; 0; 0; 0; 0; 0; 0; 0].

(** The world after a first, successful [attachInputID] of input 0 of the
    consumer 2. *)
Definition worldAfterAttach : World :=
  default world (snd <$> attachInputID 2 2 0 world).

(** The new attacher of milestone 2, its baseline set to branch 1, and the
    world after [attachRooted] of output 0 of transaction 4. *)
Definition freshWorld : World :=
  default world
    (snd <$> setBaselineBranch (Some 1%nat)
               (MkWorld (newPastConeAttacher "2") memory [])).

Definition worldAfterRooted : World :=
  default freshWorld (snd <$> attachRooted (MkWrappedOutput 4 0) freshWorld).

Import tippool.

(** The tip pool that holds milestone 5 as the latest of sequencer [[42]]. *)
Definition poolWithMilestone : SequencerTipPool :=
  MkSequencerTipPool ∅ {[ [42] := 5%nat ]} 0 0 0.

(** The tip pool that [New] returns, and a run of the account listener on
    it: output 0 of transaction 4 arrives half a slot after the start; then
    transaction 4 turns bad, and output 0 of transaction 3 arrives one
    nanosecond later. *)
Definition pulledPool : SequencerTipPool :=
  MkSequencerTipPool {[ MkWrappedOutput 1 0 ]} ∅ 0 0 0.

Definition poolAfterFirst : SequencerTipPool :=
  default pulledPool
    (accountListener memory 5000000000 (MkWrappedOutput 4 0) pulledPool).

Definition memoryWithBad : Memory :=
  setVID memory 4
    (MkWrappedTx Bad (Some (Errorf "conflict" []))
       (_virtualTx (MkVirtualTransaction ∅)) ∅).

Definition poolAfterSecond : SequencerTipPool :=
  default poolAfterFirst
    (accountListener memoryWithBad 5000000001 (MkWrappedOutput 3 0) poolAfterFirst).

End runs.

Module validation.
Import ledger transaction.

(** *** The validation options on the sample instance

    An id of a transaction has five bytes; two timestamps are in valid
    pace when the second is later than the first; the elements that
    [Tree.ForEach] visits are the elements of the node at the path. *)
Global Instance constraints : Constraints := {|
  TransactionIDFromBytes bs :=
    if bool_decide (length bs = 5%nat) then Ok bs
    else Err (Errorf "wrong transaction id bytes" []);
  ValidTimePace t1 t2 := Before t1 t2;
  MaxNumberOfEndorsements := 8;
  TxUnlockParams := 0;
  TxInputCommitment := 7;
  TxEndorsements := 8;
|}.

Global Instance iteration : LazyTreeIteration := {|
  ForEachData bs path := sub ← bytesAtPath bs path; elementsOf (length sub) sub;
|}.

Global Instance opaqueOptions : OpaqueOptions := {|
  ScanSequencerDataResult _ := Some None;
  CheckSenderResult _ := Some None;
|}.

(** A transaction with all its elements: unlock parameters, inputs,
    outputs, signature, the two indices, timestamp, total, input
    commitment and endorsements. *)
Definition fullTxBytes (inputs outputs endorsements : list (list N))
    (indices ts total : list N) : list N :=
  node [ node ((λ _, []) <$> inputs); node inputs; node outputs; []; indices; ts; total;
         replicate 32 0; node endorsements ].

Definition txOfBytes (txBytes : list N) (seq branch : bool) (ts : LogicalTime) (total : N)
  : Transaction :=
  MkTransaction txBytes (take 4 txBytes) seq branch ts total (length txBytes).

(** A transfer of slot 100 that spends output 0 of transaction 3 and
    output 0 of transaction 4 into two outputs of 5 and 6. *)
Definition validBytes : list N :=
  fullTxBytes [[10; 5; 0; 0; 3; 0]; [90; 0; 0; 0; 4; 0]]
    [[0; 0; 0; 0; 0; 0; 0; 5; 255]; [0; 0; 0; 0; 0; 0; 0; 6; 255]] []
    [255; 255] [0; 0; 0; 100; 5] [0; 0; 0; 0; 0; 0; 0; 11].

Definition validTx : Transaction := txOfBytes validBytes false false (MkLogicalTime 100 5) 11.

(** The same with output 0 of transaction 3 spent twice. *)
Definition doubleBytes : list N :=
  fullTxBytes [[10; 5; 0; 0; 3; 0]; [90; 0; 0; 0; 4; 0]; [10; 5; 0; 0; 3; 0]]
    [[0; 0; 0; 0; 0; 0; 0; 5; 255]; [0; 0; 0; 0; 0; 0; 0; 6; 255]] []
    [255; 255] [0; 0; 0; 100; 5] [0; 0; 0; 0; 0; 0; 0; 11].

Definition doubleTx : Transaction := txOfBytes doubleBytes false false (MkLogicalTime 100 5) 11.

(** A transfer of slot 5 that spends output 0 of transaction 3, of slot
    10. *)
Definition earlyBytes : list N :=
  fullTxBytes [[10; 5; 0; 0; 3; 0]]
    [[0; 0; 0; 0; 0; 0; 0; 5; 255]] []
    [255; 255] [0; 0; 0; 5; 5] [0; 0; 0; 0; 0; 0; 0; 5].

Definition earlyTx : Transaction := txOfBytes earlyBytes false false (MkLogicalTime 5 5) 5.

(** A sequencer milestone of slot 100 that endorses milestone 5, of slot
    100, and transaction 4, which is not a sequencer milestone. *)
Definition endorserBytes (endorsements : list (list N)) : list N :=
  fullTxBytes [[10; 5; 0; 0; 3; 0]]
    [[0; 0; 0; 0; 0; 0; 0; 5; 0]] endorsements
    [0; 255] [0; 0; 0; 100; 9] [0; 0; 0; 0; 0; 0; 0; 5].

Definition endorserTx (endorsements : list (list N)) : Transaction :=
  txOfBytes (endorserBytes endorsements) true false (MkLogicalTime 100 9) 5.

End validation.

Module sorting.
Import ledger transaction.

(** *** Sorting and the DAG on the sample instance

    [sort.Slice] is the insertion sort.  The root record of a branch is
    the last byte of its id, and the reader of a root reads the state of
    that branch; the coverage of branch 1 is 500, any other is 800. *)
Fixpoint insertSorted {A : Type} (less : A → A → option bool) (x : A) (l : list A)
  : option (list A) :=
  match l with
  | [] => Some [x]
  | y :: l' =>
      b ← less x y;
      if b : bool then Some (x :: y :: l')
      else
        r ← insertSorted less x l';
        Some (y :: r)
  end.

Fixpoint insertionSort {A : Type} (less : A → A → option bool) (l : list A)
  : option (list A) :=
  match l with
  | [] => Some []
  | x :: l' =>
      s ← insertionSort less l';
      insertSorted less x s
  end.

Global Instance slice : sort.Slice := {| sort.sortSlice := @insertionSort |}.

Global Instance dagEnvironment : dag.Environment := {|
  dag.FetchRootRecord txid := if IsBranchTransaction txid then Some (drop 4 txid) else None;
  dag.NewReadable root :=
    match root with
    | [b] => Ok (stateOfBranch (N.to_nat b))
    | _ => Err (Errorf "wrong root" [])
    end;
  dag.LedgerCoverageSum _ vid := if bool_decide (vid = 1%nat) then 500 else 800;
|}.

(** The DAG with the branches 1 and 7, both on slot 100. *)
Definition branchesDAG : dag.DAG :=
  default dag.New (d ← dag.AddBranchNoLock dag.New 1; dag.AddBranchNoLock d 7).

End sorting.

Module selection.
Import ledger transaction vertex tippool.

(** The tip pool with the latest milestones of three sequencers. *)
Definition poolWithMilestones : SequencerTipPool :=
  MkSequencerTipPool ∅ {[ [42] := 5%nat; [43] := 6%nat; [44] := 2%nat ]} 0 0 0.

End selection.

Module proposals.
Import ledger transaction vertex validation.
Import sequencer.

(** *** The proposals on the sample instance

    A transaction id is made of the slot, the tick, the two flags and the
    hash; the ledger coverage of a transaction is its
    total amount. *)
Global Instance hashing : Tx.Hashing := {|
  Tx.NewTransactionID ts hash seq branch :=
    [ledger.Slot ts; TimeTick ts; if seq then 1 else 0; if branch then 1 else 0] ++ hash;
  Tx.blake2b_Sum256 bs := take 4 bs;
|}.

Global Instance sequencerEnvironment : sequencer.Environment := {|
  LedgerCoverageFromTransaction tx := Ok (totalAmount tx);
|}.

(** A factory that has not set a target yet. *)
Definition idleProposal : latestMilestoneProposal :=
  MkProposal NilLogicalTime 0 None (MkWrappedOutput 0 0) [].

(** Two proposals for the target of slot 100, tick 9, of coverage 5 and 7,
    and one that comes late, for the tick 5. *)
Definition proposed (tx : Transaction) (coverage : N) : proposedMilestoneWithData :=
  MkProposed tx (MkWrappedOutput 2 0) coverage 1000 "base".

Definition firstProposed : proposedMilestoneWithData := proposed (endorserTx [idOf 5]) 5.

Definition secondBytes : list N :=
  fullTxBytes [[10; 5; 0; 0; 3; 0]; [90; 0; 0; 0; 4; 0]]
    [[0; 0; 0; 0; 0; 0; 0; 12; 0]] [idOf 5]
    [0; 255] [0; 0; 0; 100; 9] [0; 0; 0; 0; 0; 0; 0; 12].

Definition secondProposed : proposedMilestoneWithData :=
  proposed (txOfBytes secondBytes true false (MkLogicalTime 100 9) 12) 7.

Definition lateProposed : proposedMilestoneWithData := proposed validTx 9.

Definition proposalSteps : list proposalStep :=
  [SetNewTarget (MkLogicalTime 100 9); PlaceProposal firstProposed; StoreDuration 1000;
   PlaceProposal lateProposed; PlaceProposal secondProposed; StoreDuration 2001].

End proposals.

End sample.

(** * Properties of the transaction layer *)

Section transaction_properties.
Import ledger transaction multistate.
Context `{Library} `{LazyTree}.

Lemma FromBytes_base_error (txBytes : list N) (opt : list TxValidationOption) :
  (∀ tx, BaseValidation (emptyTransaction txBytes) ≠ Some (Ok tx)) →
  isErr (FromBytes txBytes opt) = true.
Proof.
  intros Hbase. unfold FromBytes, transactionFromBytes. simpl.
  fold (emptyTransaction txBytes).
  destruct (BaseValidation (emptyTransaction txBytes)) as [[tx|err]|] eqn:E; try done.
  by destruct (Hbase tx).
Qed.

(** C7.  [FromBytes] returns an error, and no transaction, for bytes with a
    stem output index but no sequencer output index, and for bytes of a
    sequencer milestone that is not a branch and whose timestamp has tick 0
    (or does not parse at all);
    base validation accepts a transaction that is not a sequencer milestone
    and has tick 0, when its timestamp and its total amount field are well
    formed. *)
Theorem BaseValidation_flag_discipline
    (txBytes : list N) (opt : list TxValidationOption) (sequencerIndex stemIndex : N) :
  indexBytes txBytes sequencerIndex stemIndex →
  (stemIndex ≠ 255 → sequencerIndex = 255 →
     isErr (FromBytes txBytes opt) = true)
  ∧ ((∀ ts, timestampOfBytes txBytes ts → TimeTick ts = 0) →
     sequencerIndex ≠ 255 → stemIndex = 255 →
     isErr (FromBytes txBytes opt) = true)
  ∧ (∀ ts totalBin, timestampOfBytes txBytes ts → TimeTick ts = 0 →
       sequencerIndex = 255 → stemIndex = 255 →
       BytesAtPath txBytes (Path TxTotalProducedAmount) = Some totalBin →
       length totalBin = 8%nat →
       BaseValidation (emptyTransaction txBytes)
       = Some (Ok (MkTransaction txBytes (HashTransactionBytes txBytes) false false ts
                     (BigEndianUint64 totalBin) (length txBytes)))).
Proof.
  unfold indexBytes, timestampOfBytes. intros Hidx. split; [|split].
  - intros Hstem Hseq. apply FromBytes_base_error. intros tx.
    unfold BaseValidation. simpl.
    destruct (BytesAtPath txBytes (Path TxTimestamp)) as [tsBin|]; simpl; [|done].
    rewrite Hidx. simpl. subst sequencerIndex.
    destruct (N.eqb_spec stemIndex 255) as [|_]; [done|]. simpl. done.
  - intros Htick Hseq Hstem.
    apply FromBytes_base_error. intros tx.
    unfold BaseValidation. simpl.
    destruct (BytesAtPath txBytes (Path TxTimestamp)) as [tsBin|] eqn:Hts; simpl; [|done].
    rewrite Hidx. simpl. subst stemIndex.
    destruct (N.eqb_spec sequencerIndex 255) as [|_]; [done|]. simpl.
    destruct (LogicalTimeFromBytes tsBin) as [ts|err] eqn:Hparse; [|done]. simpl.
    rewrite (Htick ts) by (by exists tsBin). simpl. done.
  - intros ts totalBin (tsBin & Hts & Hparse) Htick Hseq Hstem Htotal Hlen.
    unfold BaseValidation. simpl. rewrite Hts. simpl. rewrite Hidx. simpl.
    subst. simpl. rewrite Hparse. simpl. rewrite Htick. simpl.
    rewrite Htotal. simpl. rewrite bool_decide_eq_true_2 by done. done.
Qed.

Lemma sumN_app (l1 l2 : list N) : sumN (l1 ++ l2) = sumN l1 + sumN l2.
Proof. induction l1 as [|x l1 IH]; simpl; [done|]. rewrite IH. lia. Qed.

Lemma scanLoop_ok (tr : list N) (idxs : list nat) (acc total : N) :
  acc ≤ MaxUint64 →
  scanLoop tr idxs acc = Some (Ok total)
  ↔ ∃ outs, outputsParse tr idxs outs ∧ acc + sumN (amounts outs) = total ∧ total ≤ MaxUint64.
Proof.
  revert acc. induction idxs as [|i idxs IH]; intros acc Hacc; simpl.
  - split.
    + intros [= <-]. exists []. split; [constructor|]. simpl. split; [lia|done].
    + intros (outs & Hp & Hsum & _). inversion Hp; subst. simpl. f_equal. f_equal. lia.
  - split.
    + destruct (BytesAtPath tr [TxOutputs; byte_of_nat i]) as [data|] eqn:Ed; simpl; [|done].
      destruct (OutputFromBytesMain data) as [[o amount]|err] eqn:Ep; [|done].
      destruct (N.ltb_spec (MaxUint64 - acc) amount) as [Hlt|Hge]; [done|].
      assert (Hmod : (acc + amount) mod Uint64Modulus = acc + amount).
      { apply N.mod_small. unfold MaxUint64, Uint64Modulus in *. lia. }
      rewrite Hmod. intros Hrest.
      apply IH in Hrest; [|unfold MaxUint64 in *; lia].
      destruct Hrest as (outs & Hp & Hsum & Hmax).
      exists ((o, amount) :: outs). split; [|split; [|done]].
      * constructor; [|done]. by exists data.
      * simpl. lia.
    + intros (outs & Hp & Hsum & Hmax).
      inversion Hp as [|? [o amount] ? outs' (data & Ed & Ep) Hp']; subst.
      rewrite Ed. simpl. rewrite Ep. simpl in *.
      destruct (N.ltb_spec (MaxUint64 - acc) amount) as [Hlt|Hge]; [lia|].
      assert (Hmod : (acc + amount) mod Uint64Modulus = acc + amount).
      { apply N.mod_small. unfold MaxUint64, Uint64Modulus in *. lia. }
      rewrite Hmod. apply IH; [lia|]. exists outs'. split; [done|]. split; [lia|done].
Qed.

Lemma scanLoop_overflow (tr : list N) (pre rest : list nat) (k : nat)
    (outs : list (Output * N)) (oa : Output * N) (acc : N) :
  outputsParse tr (pre ++ [k]) (outs ++ [oa]) →
  acc + sumN (amounts outs) ≤ MaxUint64 →
  MaxUint64 < acc + sumN (amounts outs) + oa.2 →
  scanLoop tr (pre ++ k :: rest) acc = Some (Err (overflowError k)).
Proof.
  revert outs acc. induction pre as [|i pre IH]; intros outs acc Hp Hle Hgt.
  - apply Forall2_length in Hp as Hlen. rewrite !length_app in Hlen. simpl in Hlen.
    destruct outs as [|? outs]; [|simpl in Hlen; lia].
    simpl in *. inversion Hp as [|? ? ? ? (data & Ed & Ep) _]; subst.
    rewrite Ed. simpl. rewrite Ep. destruct oa as [o amount]. simpl in *.
    destruct (N.ltb_spec (MaxUint64 - acc) amount) as [Hlt|Hge]; [done|lia].
  - destruct outs as [|[o amount] outs].
    { apply Forall2_length in Hp. simpl in Hp. rewrite !length_app in Hp. simpl in Hp. lia. }
    simpl in *. inversion Hp as [|? ? ? ? (data & Ed & Ep) Hp']; subst.
    rewrite Ed. simpl. rewrite Ep.
    destruct (N.ltb_spec (MaxUint64 - acc) amount) as [Hlt|Hge]; [lia|].
    assert (Hmod : (acc + amount) mod Uint64Modulus = acc + amount).
    { apply N.mod_small. unfold MaxUint64, Uint64Modulus in *. lia. }
    rewrite Hmod. apply (IH outs); [done|lia|lia].
Qed.

(** C8.  [ScanOutputs] succeeds exactly when every produced output parses
    and the exact sum of the amounts is the declared total; when the exact
    sum of the first outputs passes [MaxUint64] it returns the overflow
    error of the output where that happens. *)
Theorem ScanOutputs_conservation (tx : Transaction) :
  transaction.totalAmount tx ≤ MaxUint64 →
  (ScanOutputs tx = Some (Ok tx)
   ↔ ∃ numOutputs outs,
       NumElements (tree tx) (Path TxOutputs) = Some numOutputs
       ∧ outputsParse (tree tx) (seq 0 numOutputs) outs
       ∧ sumN (amounts outs) = transaction.totalAmount tx)
  ∧ (∀ numOutputs k outs oa,
       NumElements (tree tx) (Path TxOutputs) = Some numOutputs →
       (k < numOutputs)%nat →
       outputsParse (tree tx) (seq 0 (S k)) (outs ++ [oa]) →
       sumN (amounts outs) ≤ MaxUint64 →
       MaxUint64 < sumN (amounts outs) + oa.2 →
       ScanOutputs tx = Some (Err (overflowError k))).
Proof.
  intros Htotal. split.
  - unfold ScanOutputs. split.
    + destruct (NumElements (tree tx) (Path TxOutputs)) as [n|] eqn:En; simpl; [|done].
      destruct (scanLoop (tree tx) (seq 0 n) 0) as [[total|err]|] eqn:Es; simpl; [|done|done].
      case_bool_decide as Heq; [|done]. intros _.
      apply scanLoop_ok in Es; [|done]. destruct Es as (outs & Hp & Hsum & _).
      exists n, outs. split; [done|]. split; [done|]. lia.
    + intros (n & outs & En & Hp & Hsum). rewrite En. simpl.
      assert (Es : scanLoop (tree tx) (seq 0 n) 0 = Some (Ok (transaction.totalAmount tx))).
      { apply scanLoop_ok; [done|]. exists outs. split; [done|]. split; [lia|done]. }
      rewrite Es. simpl. by rewrite bool_decide_eq_true_2.
  - intros n k outs oa En Hk Hp Hle Hgt. unfold ScanOutputs. rewrite En. simpl.
    assert (Hseq : seq 0 n = seq 0 k ++ k :: seq (S k) (n - S k)).
    { replace n with (k + S (n - S k))%nat at 1 by lia. by rewrite seq_app. }
    rewrite Hseq.
    rewrite seq_S in Hp. simpl in Hp.
    rewrite (scanLoop_overflow _ _ _ _ outs oa); [done|done|lia|lia].
Qed.

End transaction_properties.

Section transaction_witnesses.
Import ledger transaction multistate.
Import sample.runs.

(** C7 on three byte strings of slot 9, tick 0: a stem index without a
    sequencer index, a sequencer milestone that is not a branch, and a
    transfer that is not a sequencer milestone. *)
Lemma BaseValidation_flag_discipline_witness :
  isErr (FromBytes (transferBytes [255; 3] [0; 0; 0; 9; 0]) []) = true
  ∧ isErr (FromBytes (transferBytes [1; 255] [0; 0; 0; 9; 0]) []) = true
  ∧ BaseValidation (emptyTransaction (transferBytes [255; 255] [0; 0; 0; 9; 0]))
    = Some (Ok (transferTx (transferBytes [255; 255] [0; 0; 0; 9; 0]))).
Proof.
  split; [|split].
  - assert (Hidx : indexBytes (transferBytes [255; 3] [0; 0; 0; 9; 0]) 255 3) by reflexivity.
    destruct (BaseValidation_flag_discipline _ [] 255 3 Hidx) as (W & _).
    apply W; [lia|reflexivity].
  - assert (Hidx : indexBytes (transferBytes [1; 255] [0; 0; 0; 9; 0]) 1 255) by reflexivity.
    destruct (BaseValidation_flag_discipline _ [] 1 255 Hidx) as (_ & W & _).
    apply W; [|lia|reflexivity].
    intros ts (tsBin & Hts & Hparse). vm_compute in Hts.
    injection Hts as <-. vm_compute in Hparse. by injection Hparse as <-.
  - assert (Hidx : indexBytes (transferBytes [255; 255] [0; 0; 0; 9; 0]) 255 255) by reflexivity.
    destruct (BaseValidation_flag_discipline _ [] 255 255 Hidx) as (_ & _ & W).
    apply (W (MkLogicalTime 9 0) [0; 0; 0; 0; 0; 0; 0; 11]);
      [by exists [0; 0; 0; 9; 0]|reflexivity|reflexivity|reflexivity|reflexivity|reflexivity].
Defined.

(** C8 on the transfer of 5 and 6 with total 11, and on two outputs of
    [2^63] each. *)
Lemma ScanOutputs_conservation_witness :
  ScanOutputs (transferTx (transferBytes [255; 255] [0; 0; 0; 9; 0]))
  = Some (Ok (transferTx (transferBytes [255; 255] [0; 0; 0; 9; 0])))
  ∧ ScanOutputs (MkTransaction overflowBytes [] false false (MkLogicalTime 9 1) 0 0)
    = Some (Err (overflowError 1)).
Proof.
  split.
  - assert (Hmax : transaction.totalAmount (transferTx (transferBytes [255; 255] [0; 0; 0; 9; 0]))
                    ≤ MaxUint64) by (by vm_compute).
    destruct (ScanOutputs_conservation _ Hmax) as (W & _). apply W.
    exists 2%nat, [(MkOutput 5 255, 5); (MkOutput 6 255, 6)].
    split; [reflexivity|]. split; [|reflexivity].
    repeat constructor.
    + by exists [0; 0; 0; 0; 0; 0; 0; 5; 255].
    + by exists [0; 0; 0; 0; 0; 0; 0; 6; 255].
  - assert (Hmax : transaction.totalAmount
                      (MkTransaction overflowBytes [] false false (MkLogicalTime 9 1) 0 0)
                    ≤ MaxUint64) by (by vm_compute).
    destruct (ScanOutputs_conservation _ Hmax) as (_ & W).
    apply (W 2%nat 1%nat [(MkOutput 9223372036854775808 255, 9223372036854775808)]
             (MkOutput 9223372036854775808 255, 9223372036854775808));
      [reflexivity|lia| |by vm_compute|by vm_compute].
    repeat constructor.
    + by exists [128; 0; 0; 0; 0; 0; 0; 0; 255].
    + by exists [128; 0; 0; 0; 0; 0; 0; 0; 255].
Defined.

End transaction_witnesses.

(** * Properties of the attacher *)

Section attacher_properties.
Import ledger transaction multistate vertex attacher.
Context `{Library} `{LazyTree} `{Identity} `{Environment}.

(** C4.  [branchesCompatible] of a branch with itself is [true]; of two
    different branches on the same slot it is [false]; hence, among
    branches of one slot, [b1] compatible with [b2] and [b2] compatible with
    [b3] makes the three of them the same branch. *)
Theorem branchesCompatible_same_slot (b1 b2 b3 : nat) :
  vertex.IsBranchTransaction b1 = true →
  vertex.IsBranchTransaction b2 = true →
  vertex.IsBranchTransaction b3 = true →
  branchesCompatible (Some b1) (Some b1) = Some true
  ∧ (b1 ≠ b2 → vertex.Slot b1 = vertex.Slot b2 →
       branchesCompatible (Some b1) (Some b2) = Some false)
  ∧ (vertex.Slot b1 = vertex.Slot b2 → vertex.Slot b2 = vertex.Slot b3 →
       branchesCompatible (Some b1) (Some b2) = Some true →
       branchesCompatible (Some b2) (Some b3) = Some true →
       b1 = b2 ∧ b2 = b3).
Proof.
  intros Hb1 Hb2 Hb3. unfold branchesCompatible. rewrite Hb1, Hb2, Hb3. simpl.
  split; [|split].
  - by rewrite bool_decide_eq_true_2.
  - intros Hne Hslot. rewrite bool_decide_eq_false_2 by done.
    by rewrite Hslot, N.eqb_refl.
  - intros H12 H23. rewrite H12, H23, !N.eqb_refl.
    repeat case_bool_decide; naive_solver.
Qed.

Lemma ForEach_conflict (a : attacher) (consumerTx : nat) (members : list nat) :
  set.ForEach members
    (λ existingConsumer (conflict : bool),
       if bool_decide (existingConsumer = consumerTx) then (conflict, true)
       else if bool_decide (existingConsumer ∈ validPastVertices a) then (true, false)
       else if bool_decide (existingConsumer ∈ undefinedPastVertices a) then (true, false)
       else (conflict, true))
    false = true
  ↔ ∃ e, e ∈ members ∧ e ≠ consumerTx
         ∧ e ∈ validPastVertices a ∪ undefinedPastVertices a.
Proof.
  induction members as [|x members IH]; simpl.
  - split; [done|]. intros (e & He & _). by apply elem_of_nil in He.
  - repeat case_bool_decide; simpl.
    + rewrite IH. split; intros (e & He & Hne & Hin).
      * exists e. split; [by right|done].
      * apply elem_of_cons in He as [->|He]; [done|]. by exists e.
    + split; [|done]. intros _. exists x. split; [by left|]. split; [done|].
      apply elem_of_union. by left.
    + split; [|done]. intros _. exists x. split; [by left|]. split; [done|].
      apply elem_of_union. by right.
    + rewrite IH. split; intros (e & He & Hne & Hin).
      * exists e. split; [by right|done].
      * apply elem_of_cons in He as [->|He]; [|by exists e].
        apply elem_of_union in Hin as [?|?]; done.
Qed.

Lemma checkConflictsFunc_true (a : attacher) (consumerTx : nat) (existingConsumers : gset nat) :
  checkConflictsFunc a consumerTx existingConsumers = true
  ↔ ∃ e, e ∈ existingConsumers ∧ e ≠ consumerTx
         ∧ e ∈ validPastVertices a ∪ undefinedPastVertices a.
Proof.
  unfold checkConflictsFunc. rewrite ForEach_conflict.
  by setoid_rewrite elem_of_elements.
Qed.

Lemma checkConflictsFunc_false (a : attacher) (consumerTx : nat) (existingConsumers : gset nat) :
  checkConflictsFunc a consumerTx existingConsumers = false
  ↔ ∀ e, e ∈ existingConsumers →
         e ∈ validPastVertices a ∪ undefinedPastVertices a → e = consumerTx.
Proof.
  rewrite <-not_true_iff_false, checkConflictsFunc_true. split.
  - intros Hno e He Hin. destruct (decide (e = consumerTx)); [done|].
    destruct Hno. by exists e.
  - intros Hall (e & He & Hne & Hin). by apply Hne, Hall.
Qed.


Lemma isKnownVertex_true (vid : nat) (w : World) :
  validPastVertices (att w) ## undefinedPastVertices (att w) →
  vid ∈ validPastVertices (att w) ∪ undefinedPastVertices (att w) →
  isKnownVertex vid w = Some (true, w).
Proof.
  intros Hdisj Hin. unfold isKnownVertex, bind, gets, Assertf, ret.
  apply elem_of_union in Hin as [Hv|Hu].
  - rewrite bool_decide_eq_true_2 by done.
    rewrite (bool_decide_eq_false_2 (vid ∈ undefinedPastVertices (att w))); [done|].
    intros Hu. by apply (Hdisj vid).
  - rewrite (bool_decide_eq_false_2 (vid ∈ validPastVertices (att w))).
    2:{ intros Hv. by apply (Hdisj vid). }
    by rewrite bool_decide_eq_true_2 by done.
Qed.

(** C1, amended.  When a transaction other than the consumer being attached
    is registered as a consumer of the input output and is in the valid or
    in the undefined past vertices of the attacher, the conflict check
    reports a conflict; when moreover the producing transaction is not
    [Bad], [attachInputID] returns [false], the reason of the attacher is
    the double-spend error of that output, and the consumer is not
    registered. *)
Theorem attachInputID_conflict_rule
    (w w1 : World) (consumerVertex consumerTx : nat) (inputIdx : N)
    (inputOid : OutputID) (slot : option nat) (vidInputTx e b : nat) :
  MustInputAt (Tx (vertices (mem w) consumerVertex)) inputIdx = Some inputOid →
  Inputs (vertices (mem w) consumerVertex) !! N.to_nat inputIdx = Some slot →
  inputVID slot inputOid w = Some (vidInputTx, w1) →
  GetTxStatus (mem w1) vidInputTx ≠ Bad →
  validPastVertices (att w1) ## undefinedPastVertices (att w1) →
  consumerTx ∈ validPastVertices (att w1) ∪ undefinedPastVertices (att w1) →
  baselineBranch (att w1) = Some b →
  e ∈ consumersOf (mem w1) vidInputTx (IndexOf inputOid) →
  e ≠ consumerTx →
  e ∈ validPastVertices (att w1) ∪ undefinedPastVertices (att w1) →
  checkConflictsFunc (att w1) consumerTx
    (consumersOf (mem w1) vidInputTx (IndexOf inputOid)) = true
  ∧ ∃ w', attachInputID consumerVertex consumerTx inputIdx w = Some (false, w')
          ∧ reason (att w') = Some (doubleSpendError inputOid consumerTx b)
          ∧ mem w' = mem w1.
Proof.
  intros Hoid Hslot Hvid Hstatus Hdisj Hknown Hb He Hne Hin.
  assert (Hconflict : checkConflictsFunc (att w1) consumerTx
            (consumersOf (mem w1) vidInputTx (IndexOf inputOid)) = true).
  { apply checkConflictsFunc_true. by exists e. }
  split; [done|].
  unfold attachInputID. unfold bind at 1. unfold gets at 1.
  unfold bind at 1. rewrite Hoid. simpl.
  unfold bind at 1. unfold inputSlot. rewrite Hslot. simpl.
  unfold bind at 1. rewrite Hvid.
  unfold bind at 1. unfold gets at 1.
  rewrite bool_decide_eq_false_2 by done.
  unfold bind at 1. rewrite isKnownVertex_true by done.
  unfold bind at 1. simpl.
  unfold bind at 1. simpl. unfold bind at 1. simpl.
  unfold AttachConsumer. fold (consumersOf (mem w1) vidInputTx (IndexOf inputOid)).
  rewrite Hconflict. unfold bind at 1. simpl. rewrite Hb. simpl.
  eexists. split; [reflexivity|]. done.
Qed.

Lemma isKnownVertex_state (vid : nat) (w w' : World) (known : bool) :
  isKnownVertex vid w = Some (known, w') → w' = w.
Proof.
  unfold isKnownVertex, bind, gets, Assertf, ret, panic.
  repeat case_bool_decide; simpl; congruence.
Qed.

Lemma checkInputBaseline_true_state (a : attacher) (vid : nat) (w w' : World) :
  checkInputBaseline a vid w = Some (true, w') → w' = w.
Proof.
  unfold checkInputBaseline, bind, liftOption, deref, setReason, setAttacher, modify, ret, panic.
  destruct (vertex.IsSequencerMilestone vid); [|congruence].
  destruct (BaselineBranchOf (mem w) vid) as [[ib|]|]; [|congruence|done].
  destruct (branchesCompatible (baselineBranch a) (Some ib)) as [[]|]; simpl; [congruence| |done].
  destruct (baselineBranch a); simpl; congruence.
Qed.

Lemma attachInputID_ok_inv (w w' : World) (consumerVertex consumerTx : nat) (inputIdx : N) :
  attachInputID consumerVertex consumerTx inputIdx w = Some (true, w') →
  ∃ inputOid slot vidInputTx w1,
    MustInputAt (Tx (vertices (mem w) consumerVertex)) inputIdx = Some inputOid
    ∧ Inputs (vertices (mem w) consumerVertex) !! N.to_nat inputIdx = Some slot
    ∧ inputVID slot inputOid w = Some (vidInputTx, w1)
    ∧ GetTxStatus (mem w1) vidInputTx ≠ Bad
    ∧ isKnownVertex consumerTx w1 = Some (true, w1)
    ∧ checkConflictsFunc (att w1) consumerTx
        (consumersOf (mem w1) vidInputTx (IndexOf inputOid)) = false
    ∧ let m2 := (AttachConsumer (mem w1) vidInputTx (IndexOf inputOid) consumerTx
                   (checkConflictsFunc (att w1) consumerTx)).1 in
      let w2 := MkWorld (att w1) m2 (trace w1) in
      checkInputBaseline (att w1) vidInputTx w2 = Some (true, w2)
      ∧ w' = MkWorld (att w1)
               (setVertex m2 consumerVertex
                  (MkVertex (Tx (vertices m2 consumerVertex))
                     (<[N.to_nat inputIdx := Some vidInputTx]> (Inputs (vertices m2 consumerVertex)))
                     (Endorsements (vertices m2 consumerVertex))
                     (BaselineBranch (vertices m2 consumerVertex))))
               (trace w1).
Proof.
  unfold attachInputID. unfold bind at 1. unfold gets at 1.
  unfold bind at 1.
  destruct (MustInputAt (Tx (vertices (mem w) consumerVertex)) inputIdx) as [inputOid|] eqn:Hoid;
    simpl; [|done].
  unfold bind at 1. unfold inputSlot.
  destruct (Inputs (vertices (mem w) consumerVertex) !! N.to_nat inputIdx) as [slot|] eqn:Hslot;
    simpl; [|done].
  unfold bind at 1.
  destruct (inputVID slot inputOid w) as [[vidInputTx w1]|] eqn:Hvid; [|done].
  unfold bind at 1. unfold gets at 1.
  case_bool_decide as Hstatus.
  { unfold bind, gets, setReason, setAttacher, modify, ret. simpl. done. }
  unfold bind at 1.
  destruct (isKnownVertex consumerTx w1) as [[known w1']|] eqn:Hknown; [|done].
  apply isKnownVertex_state in Hknown as Hw1. subst w1'.
  unfold bind at 1. destruct known; simpl; [|done].
  unfold bind at 1. simpl. unfold bind at 1. simpl.
  unfold AttachConsumer at 1. fold (consumersOf (mem w1) vidInputTx (IndexOf inputOid)).
  destruct (checkConflictsFunc (att w1) consumerTx
              (consumersOf (mem w1) vidInputTx (IndexOf inputOid))) eqn:Hcheck.
  { unfold bind, setMemory, modify, deref, setReason, setAttacher, ret, panic. simpl.
    destruct (baselineBranch (att w1)); simpl; congruence. }
  unfold bind at 1. simpl. unfold bind at 1.
  match goal with |- context [checkInputBaseline _ _ ?w2] => set (wc := w2) end.
  destruct (checkInputBaseline (att w1) vidInputTx wc) as [[compatible wc']|] eqn:Hcompat; [|done].
  destruct compatible; simpl; [|unfold ret; congruence].
  apply checkInputBaseline_true_state in Hcompat as Hwc. subst wc'.
  unfold bind, gets, setMemory, modify, ret. simpl. intros [= <-].
  exists inputOid, slot, vidInputTx, w1.
  unfold AttachConsumer. fold (consumersOf (mem w1) vidInputTx (IndexOf inputOid)).
  rewrite Hcheck. simpl. done.
Qed.

Lemma isKnownVertex_att (vid : nat) (w w2 : World) :
  isKnownVertex vid w = Some (true, w) → att w2 = att w →
  isKnownVertex vid w2 = Some (true, w2).
Proof.
  unfold isKnownVertex, bind, gets, Assertf, ret, panic. intros Hk ->.
  repeat case_bool_decide; simpl in *; congruence.
Qed.

Lemma checkInputBaseline_true_mem (a : attacher) (vid : nat) (w w2 : World) :
  checkInputBaseline a vid w = Some (true, w) →
  BaselineBranchOf (mem w2) vid = BaselineBranchOf (mem w) vid →
  checkInputBaseline a vid w2 = Some (true, w2).
Proof.
  unfold checkInputBaseline, bind, liftOption, deref, setReason, setAttacher, modify, ret, panic.
  intros Hc Heq.
  destruct (vertex.IsSequencerMilestone vid); [|done].
  cbv beta in *. rewrite Heq.
  destruct (BaselineBranchOf (mem w) vid) as [[ib|]|]; [|done|done].
  destruct (branchesCompatible (baselineBranch a) (Some ib)) as [[]|]; simpl in *; [done| |done].
  destruct (baselineBranch a); simpl in *; congruence.
Qed.

Lemma inputVID_vertices (slot : option nat) (inputOid : OutputID) (vid : nat) (w w1 : World) :
  (∀ m txid, vertices (AttachTxID m txid).1 = vertices m) →
  inputVID slot inputOid w = Some (vid, w1) →
  vertices (mem w1) = vertices (mem w).
Proof.
  intros Hattach. unfold inputVID. destruct slot as [p|].
  - unfold ret. by intros [= _ <-].
  - unfold bind, gets, setMemory, modify, ret. simpl.
    specialize (Hattach (mem w) (TransactionIDOf inputOid)).
    destruct (AttachTxID (mem w) (TransactionIDOf inputOid)) as [m' p]. simpl in *.
    by intros [= _ <-].
Qed.

(** C9.  The conflict check never counts the consumer being attached: when
    every registered consumer of the output that is in the valid or in the
    undefined past vertices is the consumer itself, it reports no conflict.
    Hence a second [attachInputID] of the same consumer and input, after a
    first one that returned [true], returns [true] again and leaves the
    attacher as it is.  ([AttachTxID] is taken not to touch the vertices.) *)
Theorem attachInputID_self_exemption :
  (∀ (a : attacher) (consumerTx : nat) (existingConsumers : gset nat),
     (∀ e, e ∈ existingConsumers →
           e ∈ validPastVertices a ∪ undefinedPastVertices a → e = consumerTx) →
     checkConflictsFunc a consumerTx existingConsumers = false)
  ∧ ((∀ m txid, vertices (AttachTxID m txid).1 = vertices m) →
     ∀ (w w1 : World) (consumerVertex consumerTx : nat) (inputIdx : N),
       attachInputID consumerVertex consumerTx inputIdx w = Some (true, w1) →
       ∃ w2, attachInputID consumerVertex consumerTx inputIdx w1 = Some (true, w2)
             ∧ att w2 = att w1).
Proof.
  split.
  { intros a consumerTx existingConsumers. apply checkConflictsFunc_false. }
  intros Hattach w wF consumerVertex consumerTx inputIdx Hfirst.
  apply attachInputID_ok_inv in Hfirst
    as (inputOid & slot & vidInputTx & w1 & Hoid & Hslot & Hvid & Hstatus & Hknown & Hcheck & Hrest).
  simpl in Hrest. destruct Hrest as [Hcompat ->].
  pose proof (inputVID_vertices _ _ _ _ _ Hattach Hvid) as Hverts.
  revert Hcompat. unfold AttachConsumer.
  fold (consumersOf (mem w1) vidInputTx (IndexOf inputOid)). rewrite Hcheck. simpl.
  set (wtx := MkWrappedTx _ _ _ _).
  set (m2 := setVID (mem w1) vidInputTx wtx).
  intros Hcompat.
  set (newV := MkVertex _ _ _ _).
  assert (Hlen : (N.to_nat inputIdx < length (Inputs (vertices (mem w1) consumerVertex)))%nat).
  { rewrite Hverts. by eapply lookup_lt_Some. }
  unfold attachInputID. unfold bind at 1. unfold gets at 1. simpl.
  rewrite fn_lookup_insert. simpl. rewrite Hverts, Hoid.
  unfold bind at 1. simpl.
  unfold bind at 1. unfold inputSlot.
  unfold newV at 1. simpl. rewrite list_lookup_insert_eq by done.
  simpl. unfold bind at 1. simpl.
  unfold bind at 1. unfold gets at 1. simpl.
  unfold GetTxStatus. simpl. rewrite fn_lookup_insert. simpl.
  rewrite bool_decide_eq_false_2 by done.
  unfold bind at 1.
  rewrite (isKnownVertex_att consumerTx w1) by done.
  unfold bind at 1. simpl. unfold bind at 1. simpl. unfold bind at 1. simpl.
  unfold AttachConsumer. simpl. rewrite fn_lookup_insert. simpl.
  rewrite lookup_insert_eq. simpl.
  assert (Hcheck2 : checkConflictsFunc (att w1) consumerTx
            ({[consumerTx]} ∪ consumersOf (mem w1) vidInputTx (IndexOf inputOid)) = false).
  { apply checkConflictsFunc_false. intros e [->%elem_of_singleton|He]%elem_of_union Hin; [done|].
    by eapply checkConflictsFunc_false in Hcheck. }
  rewrite Hcheck2. unfold bind at 1. simpl. unfold bind at 1.
  match goal with |- context [checkInputBaseline _ _ ?w3] => set (wc := w3) end.
  rewrite (checkInputBaseline_true_mem _ _ _ wc Hcompat).
  2:{ subst wc. unfold BaselineBranchOf. simpl. rewrite !fn_lookup_insert. simpl.
      destruct (wrapper (vids (mem w1) vidInputTx)) as [p| |]; [|done|done].
      destruct (decide (consumerVertex = p)) as [->|Hne].
      - by rewrite fn_lookup_insert.
      - by rewrite fn_lookup_insert_ne. }
  simpl. unfold bind, gets, setMemory, modify, ret. simpl.
  eexists. split; [reflexivity|]. done.
Qed.

Lemma sumN_perm (l1 l2 : list N) : l1 ≡ₚ l2 → sumN l1 = sumN l2.
Proof. induction 1; simpl; lia. Qed.

Lemma sumN_fmap_ext {A} (f g : A → N) (l : list A) :
  (∀ x, x ∈ l → f x = g x) → sumN (f <$> l) = sumN (g <$> l).
Proof.
  unfold sumN. induction l as [|x l IH]; intros Hext; csimpl; [done|].
  rewrite Hext by (by left). rewrite IH; [done|]. intros y Hy. apply Hext. by right.
Qed.

Lemma sumN_cons (x : N) (l : list N) : sumN (x :: l) = x + sumN l.
Proof. done. Qed.

Lemma sum_lookup_le (m : gmap OutputID Output) (ks : list OutputID) :
  NoDup ks →
  sumN ((λ k, from_option Amount 0 (m !! k)) <$> ks)
  ≤ sumN ((λ p, Amount p.2) <$> map_to_list m).
Proof.
  intros Hnd. revert m. induction Hnd as [|k ks Hk Hnd IH]; intros m.
  { unfold sumN at 1. simpl. lia. }
  rewrite fmap_cons, sumN_cons.
  destruct (m !! k) as [o|] eqn:Hm; simpl.
  - rewrite <-(sumN_perm _ _ (fmap_Permutation _ _ _ (map_to_list_delete m k o Hm))).
    rewrite fmap_cons, sumN_cons. simpl. specialize (IH (delete k m)).
    rewrite (sumN_fmap_ext (λ k0, from_option Amount 0 (m !! k0))
               (λ k0, from_option Amount 0 (delete k m !! k0))); [lia|].
    intros k' Hk'. rewrite lookup_delete_ne; [done|]. by intros ->.
  - apply IH.
Qed.

Lemma elem_of_rootedList (r : gmap nat (gset N)) (vid : nat) (index : N) :
  MkWrappedOutput vid index ∈ rootedList r ↔ index ∈ default ∅ (r !! vid).
Proof.
  unfold rootedList. rewrite list_elem_of_bind. split.
  - intros ([vid' s] & Hin & Hentry). simpl in *.
    apply list_elem_of_fmap in Hin as (i & [= -> ->] & Hi).
    apply elem_of_map_to_list in Hentry. rewrite Hentry. simpl.
    by apply elem_of_elements.
  - destruct (r !! vid) as [s|] eqn:Hr; simpl; [|by intros ?%not_elem_of_empty].
    intros Hi. exists (vid, s). split.
    + simpl. apply list_elem_of_fmap. exists index. split; [done|]. by apply elem_of_elements.
    + by apply elem_of_map_to_list.
Qed.

Lemma NoDup_rootedList (r : gmap nat (gset N)) : NoDup (rootedList r).
Proof.
  unfold rootedList. apply NoDup_bind.
  - intros [v1 s1] [v2 s2] wOut Hin1 Hin2 H1' H2'. simpl in *.
    apply list_elem_of_fmap in H1' as (i1 & -> & _).
    apply list_elem_of_fmap in H2' as (i2 & [= -> ->] & _).
    apply elem_of_map_to_list in Hin1, Hin2. congruence.
  - intros [v s] _. simpl. apply NoDup_fmap_2; [|apply NoDup_elements].
    by intros i1 i2 [= ->].
  - apply NoDup_map_to_list.
Qed.

Lemma rootedList_insert (r : gmap nat (gset N)) (vid : nat) (index : N) :
  index ∉ default ∅ (r !! vid) →
  rootedList (<[vid := {[index]} ∪ default ∅ (r !! vid)]> r)
  ≡ₚ MkWrappedOutput vid index :: rootedList r.
Proof.
  intros Hnew. apply NoDup_Permutation.
  - apply NoDup_rootedList.
  - constructor; [|apply NoDup_rootedList]. by rewrite elem_of_rootedList.
  - intros [vid' index']. rewrite elem_of_cons, !elem_of_rootedList.
    destruct (decide (vid' = vid)) as [->|Hne].
    + rewrite lookup_insert_eq. simpl. rewrite elem_of_union, elem_of_singleton.
      split; intros [Heq|Hin]; auto; [left|left]; congruence.
    + rewrite lookup_insert_ne by done. split; [auto|]. intros [[= ? ?]|?]; done.
Qed.

Lemma rootedCoverage_bound (b : nat) :
  Inj (=) (=) ID →
  totalAmount (GetStateReaderForTheBranch b) ≤ MaxUint64 →
  ∀ l : list WrappedOutput, NoDup l →
    sumN (amountInState (GetStateReaderForTheBranch b) <$> l) ≤ MaxUint64.
Proof.
  intros Hinj Htotal l Hnd.
  etrans; [|exact Htotal]. unfold totalAmount.
  assert (Hdec : NoDup (DecodeID <$> l)).
  { apply NoDup_fmap_2; [|done]. intros [v1 i1] [v2 i2]. unfold DecodeID. simpl.
    intros [= ?%Hinj ?]. congruence. }
  pose proof (sum_lookup_le (utxo (GetStateReaderForTheBranch b)) _ Hdec) as Hle.
  rewrite <-list_fmap_compose in Hle. exact Hle.
Qed.


Lemma rootedCoverage_fresh (name : string) (b : nat) (w w' : World) :
  att w = newPastConeAttacher name →
  setBaselineBranch (Some b) w = Some (tt, w') →
  rootedCoverage (att w') b.
Proof.
  intros Hatt. unfold setBaselineBranch, bind, setAttacher, modify, deref, ret, panic.
  rewrite Hatt. simpl.
  assert (Hfresh : ∀ cov, rootedCoverage (MkAttacher name (Some b) ∅ ∅ ∅ 0 None cov) b).
  { intros cov. split; [done|]. split; [done|]. split.
    - intros vid index. unfold rootedOf. simpl. rewrite lookup_empty. simpl.
      by intros ?%not_elem_of_empty.
    - intros vid. unfold isRooted, rootedOf. cbn [rooted]. rewrite lookup_empty.
      cbn [default from_option id]. rewrite size_empty.
      by intros ?%bool_decide_eq_true_1%Nat.lt_irrefl. }
  case_bool_decide.
  - destruct (FetchRootRecord (ID b)); [|done]. intros [= <-]. apply Hfresh.
  - intros [= <-]. apply Hfresh.
Qed.

Lemma attachRooted_rooted_step (b : nat) (w w' : World) (wOut : WrappedOutput)
    (ok outputIsRooted : bool) :
  Inj (=) (=) ID →
  totalAmount (GetStateReaderForTheBranch b) ≤ MaxUint64 →
  rootedCoverage (att w) b →
  attachRooted wOut w = Some ((ok, outputIsRooted), w') →
  rootedCoverage (att w') b.
Proof.
  intros Hinj Htotal (Hb & Hcd & Hutxo & Hts).
  unfold attachRooted. unfold bind at 1. unfold gets at 1. rewrite Hb.
  unfold bind at 1. simpl.
  destruct (After (TimestampOfOutput wOut) (vertex.Timestamp b)) eqn:Hafter.
  { unfold ret. intros [= _ _ <-]. done. }
  unfold bind at 1. unfold gets at 1.
  case_bool_decide as Hcovered.
  { unfold ret. intros [= _ _ <-]. done. }
  unfold bind at 1. unfold baselineStateReader, bind, gets, deref, ret. rewrite Hb.
  set (consumedRooted := rootedOf (att w) (VID wOut)) in *.
  destruct (_ && _).
  { intros [= _ _ <-]. done. }
  destruct (GetOutput (GetStateReaderForTheBranch b) (DecodeID wOut)) as [out|] eqn:Hout.
  2:{ unfold setReason, setAttacher, modify. simpl. intros [= _ _ <-]. done. }
  simpl. destruct (EnsureOutput (mem w) (VID wOut) (Index wOut) out) as [m' ensured].
  unfold setMemory, modify, Assertf, setAttacher, ret, panic. simpl.
  destruct ensured; [|done]. intros [= _ _ <-]. cbn [att].
  assert (Hperm : rootedList (<[VID wOut := {[Index wOut]} ∪ consumedRooted]> (rooted (att w)))
                  ≡ₚ wOut :: rootedList (rooted (att w))).
  { destruct wOut as [vid index]. by apply rootedList_insert. }
  assert (Hamount : amountInState (GetStateReaderForTheBranch b) wOut = Amount out).
  { unfold amountInState. by rewrite Hout. }
  split; [done|]. split; [|split].
  - unfold rootedOutputs. cbn [rooted coverageDelta].
    rewrite (sumN_perm _ _ (fmap_Permutation _ _ _ Hperm)).
    rewrite fmap_cons, sumN_cons, Hamount.
    assert (Hbound : sumN (amountInState (GetStateReaderForTheBranch b) <$> wOut :: rootedList (rooted (att w)))
                     ≤ MaxUint64).
    { apply rootedCoverage_bound; [done|done|].
      rewrite <-Hperm. apply NoDup_rootedList. }
    rewrite fmap_cons, sumN_cons, Hamount in Hbound.
    fold (rootedOutputs (att w)) in *. rewrite <-Hcd in *.
    rewrite N.mod_small; [lia|]. unfold MaxUint64, Uint64Modulus in *. lia.
  - intros vid index. unfold rootedOf. cbn [rooted].
    destruct (decide (vid = VID wOut)) as [->|Hne].
    + rewrite lookup_insert_eq. cbn [default from_option id].
      intros [->%elem_of_singleton|Hin]%elem_of_union; [|by apply Hutxo].
      unfold HasUTXO. apply bool_decide_eq_true_2.
      destruct wOut as [vid index]. simpl. unfold GetOutput in Hout. by rewrite Hout.
    + rewrite lookup_insert_ne by done. apply Hutxo.
  - intros vid. unfold isRooted, rootedOf. cbn [rooted].
    destruct (decide (vid = VID wOut)) as [->|Hne].
    + intros _. exact Hafter.
    + rewrite lookup_insert_ne by done. apply Hts.
Qed.

(** C2.  With a baseline state whose amounts add up to at most
    [MaxUint64] and one wrapped transaction per id: the predicate
    [rootedCoverage] (the coverage delta is the exact sum of the amounts of
    the rooted outputs, every rooted output is a UTXO of the baseline state,
    no rooted output is later than the baseline) holds of a new attacher
    once its baseline is set, and every call of [attachRooted] that returns
    ok takes an attacher where it holds to one where it holds. *)
Theorem attachRooted_rooted_coverage (b : nat) :
  Inj (=) (=) ID →
  totalAmount (GetStateReaderForTheBranch b) ≤ MaxUint64 →
  (∀ name w w', att w = newPastConeAttacher name →
     setBaselineBranch (Some b) w = Some (tt, w') →
     rootedCoverage (att w') b)
  ∧ (∀ w w' wOut outputIsRooted,
       rootedCoverage (att w) b →
       attachRooted wOut w = Some ((true, outputIsRooted), w') →
       rootedCoverage (att w') b).
Proof.
  intros Hinj Htotal. split.
  - intros name w w'. apply rootedCoverage_fresh.
  - intros w w' wOut outputIsRooted. by apply attachRooted_rooted_step.
Qed.

End attacher_properties.

(** * The parasitic chain rule *)

Section parasitic_chain.
Import ledger transaction multistate vertex attacher.
Context `{Library} `{LazyTree} `{Identity} `{Environment}.
Variable attachVertex : nat → nat → LogicalTime → gset nat → M (bool * gset nat).

(** C3, amended.  [attachOutput] fails with the parasitic chain error for
    every output that [attachRooted] leaves unrooted and whose timestamp is
    strictly before the horizon it is called with; an unrooted output at or
    after that horizon is not rejected by the rule: [attachOutput] goes on
    with the unwrapping of the producing transaction, and descends into a
    good sequencer milestone with the nil time as horizon.  [attachInput],
    once [attachInputID] has attached the input, calls [attachOutput] on
    the consumed output with the horizon of its caller, unless that horizon
    is the nil time: then the horizon is tick 0 of the slot of the consumed
    output minus [maxToleratedParasiticChainSlots], whatever the baseline
    is.  With that horizon [attachInput] fails with the parasitic chain
    error for an unrooted output strictly before it, and otherwise returns
    what the unwrapping under that horizon gives. *)
Theorem attachOutput_parasitic_chain_rule
    (wOut : WrappedOutput) (parasiticChainHorizon : LogicalTime) (visited : gset nat)
    (w w1 : World) :
  attachRooted wOut w = Some ((true, false), w1) →
  (Before (TimestampOfOutput wOut) parasiticChainHorizon = true →
     ∃ w', attachOutput attachVertex wOut parasiticChainHorizon visited w
           = Some ((false, visited), w')
           ∧ reason (att w') = Some (parasiticChainError parasiticChainHorizon wOut))
  ∧ (Before (TimestampOfOutput wOut) parasiticChainHorizon = false →
       attachOutput attachVertex wOut parasiticChainHorizon visited w
       = attachOutputUnwrap attachVertex wOut parasiticChainHorizon visited w1)
  ∧ (∀ v, wrapper (vids (mem w1) (VID wOut)) = _vertex v →
       ledger.IsSequencerMilestone (ID (VID wOut)) = true →
       GetTxStatus (mem w1) (VID wOut) = Good →
       attachOutputUnwrap attachVertex wOut parasiticChainHorizon visited w1
       = attachVertex v (VID wOut) NilLogicalTime visited w1)
  ∧ (∀ (v : nat) (inputIdx : N) (vid : nat) (w0 : World) (callerHorizon : LogicalTime),
       attachInputID v vid inputIdx w0 = Some (true, w) →
       Inputs (vertices (mem w) v) !! N.to_nat inputIdx = Some (Some (VID wOut)) →
       transaction.MustOutputIndexOfTheInput (Tx (vertices (mem w) v)) inputIdx
       = Some (Index wOut) →
       (callerHorizon ≠ NilLogicalTime ∧ parasiticChainHorizon = callerHorizon)
       ∨ (callerHorizon = NilLogicalTime
          ∧ MustNewLogicalTime
              (subSlots (vertex.Slot (VID wOut)) maxToleratedParasiticChainSlots) 0
            = Some parasiticChainHorizon) →
       (Before (TimestampOfOutput wOut) parasiticChainHorizon = true →
          ∃ w', attachInput attachVertex v inputIdx vid callerHorizon visited w0
                = Some (((false, false), visited), w')
                ∧ reason (att w') = Some (parasiticChainError parasiticChainHorizon wOut))
       ∧ (Before (TimestampOfOutput wOut) parasiticChainHorizon = false →
          match attachOutputUnwrap attachVertex wOut parasiticChainHorizon visited w1 with
          | Some ((true, visited'), w') =>
              attachInput attachVertex v inputIdx vid callerHorizon visited w0
              = Some (((true, bool_decide (VID wOut ∈ validPastVertices (att w'))
                              || isRooted (att w') (VID wOut)), visited'), w')
          | Some ((false, visited'), w') =>
              attachInput attachVertex v inputIdx vid callerHorizon visited w0
              = Some (((false, false), visited'), w')
          | None =>
              attachInput attachVertex v inputIdx vid callerHorizon visited w0 = None
          end)).
Proof.
  intros Hrooted.
  assert (Hfail : Before (TimestampOfOutput wOut) parasiticChainHorizon = true →
            ∃ w', attachOutput attachVertex wOut parasiticChainHorizon visited w
                  = Some ((false, visited), w')
                  ∧ reason (att w') = Some (parasiticChainError parasiticChainHorizon wOut)).
  { intros Hbefore. unfold attachOutput, bind. rewrite Hrooted. simpl.
    rewrite Hbefore. unfold setReason, setAttacher, modify, ret. simpl.
    eexists. split; [reflexivity|done]. }
  assert (Hpass : Before (TimestampOfOutput wOut) parasiticChainHorizon = false →
            attachOutput attachVertex wOut parasiticChainHorizon visited w
            = attachOutputUnwrap attachVertex wOut parasiticChainHorizon visited w1).
  { intros Hbefore. unfold attachOutput. unfold bind at 1. rewrite Hrooted. simpl.
    by rewrite Hbefore. }
  split; [done|]. split; [done|]. split.
  - intros v Hv Hseq Hgood. unfold attachOutputUnwrap, bind, gets.
    rewrite Hv, Hseq, Hgood. simpl. done.
  - intros v inputIdx vid w0 callerHorizon Hid Hslot Hindex Hhorizon.
    assert (Hinput : attachInput attachVertex v inputIdx vid callerHorizon visited w0
              = match attachOutput attachVertex wOut parasiticChainHorizon visited w with
                | Some ((true, visited'), w') =>
                    Some (((true, bool_decide (VID wOut ∈ validPastVertices (att w'))
                                  || isRooted (att w') (VID wOut)), visited'), w')
                | Some ((false, visited'), w') => Some (((false, false), visited'), w')
                | None => None
                end).
    { unfold attachInput. unfold bind at 1. rewrite Hid. cbn [negb].
      unfold bind at 1. unfold gets at 1.
      unfold bind at 1. unfold inputSlot. rewrite Hslot. unfold deref at 1. unfold ret at 1.
      unfold bind at 1. unfold deref at 1. unfold ret at 1.
      assert (Hh : inputHorizon callerHorizon (VID wOut) w = Some (parasiticChainHorizon, w)).
      { unfold inputHorizon. destruct Hhorizon as [[Hne ->]|[-> Hnew]].
        - by rewrite bool_decide_eq_false_2.
        - rewrite bool_decide_eq_true_2 by done. by rewrite Hnew. }
      unfold bind at 1. rewrite Hh.
      unfold bind at 1. rewrite Hindex. unfold deref at 1. unfold ret at 1.
      destruct wOut as [input index]. cbn [VID Index].
      unfold bind at 1.
      destruct (attachOutput attachVertex (MkWrappedOutput input index) parasiticChainHorizon
                  visited w) as [[[[] visited'] w']|]; [|done|done].
      cbn [negb]. by unfold bind, gets, ret. }
    split.
    + intros Hbefore. destruct (Hfail Hbefore) as (w' & Hout & Hreason).
      exists w'. split; [|done]. by rewrite Hinput, Hout.
    + intros Hbefore. rewrite Hinput, (Hpass Hbefore).
      by destruct (attachOutputUnwrap attachVertex wOut parasiticChainHorizon visited w1)
        as [[[[] visited'] w']|].
Qed.

End parasitic_chain.

(** * The attacher on the sample instance *)

Section attacher_examples.
Import ledger transaction multistate vertex attacher.
Import sample.runs.

Lemma idOf_inj : Inj (=) (=) sample.idOf.
Proof.
  assert (Hlast : ∀ vid, last (sample.idOf vid) = Some (N.of_nat vid)).
  { intros vid. do 8 (destruct vid as [|vid]; [done|]). done. }
  intros x y Heq. apply Nat2N.inj.
  assert (Hxy : Some (N.of_nat x) = Some (N.of_nat y)) by (by rewrite <-!Hlast, Heq).
  by injection Hxy.
Qed.

(** C4 on the branches 1 and 7 of slot 100. *)
Lemma branchesCompatible_same_slot_witness :
  branchesCompatible (Some 1%nat) (Some 1%nat) = Some true
  ∧ branchesCompatible (Some 1%nat) (Some 7%nat) = Some false.
Proof.
  assert (H1 : vertex.IsBranchTransaction 1 = true) by reflexivity.
  assert (H7 : vertex.IsBranchTransaction 7 = true) by reflexivity.
  destruct (branchesCompatible_same_slot 1 7 7 H1 H7 H7) as (W1 & W2 & _).
  split; [exact W1|]. apply W2; [lia|reflexivity].
Defined.

(** C1 as stated fails: after a first [attachInputID] the consumer 2 is
    registered as a consumer of output 0 of transaction 3 and is one of the
    undefined past vertices, yet the conflict check reports no conflict and
    a second [attachInputID] returns [true]. *)
Lemma conflict_rule_counterexample :
  fst <$> attachInputID 2 2 0 sample.world = Some true
  ∧ 2%nat ∈ consumersOf (mem worldAfterAttach) 3 0
  ∧ 2%nat ∈ validPastVertices (att worldAfterAttach) ∪ undefinedPastVertices (att worldAfterAttach)
  ∧ checkConflictsFunc (att worldAfterAttach) 2 (consumersOf (mem worldAfterAttach) 3 0) = false
  ∧ fst <$> attachInputID 2 2 0 worldAfterAttach = Some true.
Proof.
  split; [by vm_compute|]. split; [|split; [|split]].
  - apply (bool_decide_unpack _). by vm_compute.
  - apply (bool_decide_unpack _). by vm_compute.
  - by vm_compute.
  - by vm_compute.
Qed.

(** C1, amended, where transaction 8 of the past cone already consumes the
    output. *)
Lemma attachInputID_conflict_rule_witness :
  ∃ w', attachInputID 2 2 0 sample.conflictWorld = Some (false, w')
        ∧ reason (att w')
          = Some (doubleSpendError (NewOutputID (sample.idOf 3) 0) 2 1).
Proof.
  destruct (attachInputID_conflict_rule sample.conflictWorld sample.conflictWorld
              2 2 0 (NewOutputID (sample.idOf 3) 0) None 3 8 1)
    as (_ & w' & W & Wreason & _).
  - reflexivity.
  - reflexivity.
  - reflexivity.
  - by vm_compute.
  - intros x Hx. by apply not_elem_of_empty in Hx.
  - apply (bool_decide_unpack _). by vm_compute.
  - reflexivity.
  - apply (bool_decide_unpack _). by vm_compute.
  - lia.
  - apply (bool_decide_unpack _). by vm_compute.
  - by exists w'.
Defined.

(** C9 on the consumer 2: alone among the registered consumers it raises no
    conflict, and the second attachment of its input succeeds. *)
Lemma attachInputID_self_exemption_witness :
  checkConflictsFunc sample.milestoneAttacher 2 {[ 2%nat ]} = false
  ∧ ∃ w2, attachInputID 2 2 0 worldAfterAttach = Some (true, w2)
          ∧ att w2 = att worldAfterAttach.
Proof.
  destruct attachInputID_self_exemption as (W1 & W2). split.
  - apply W1. by intros e ->%elem_of_singleton _.
  - apply (W2 (λ m txid, eq_refl) sample.world). by vm_compute.
Defined.

(** C2 on the new attacher of milestone 2: output 0 of transaction 4 is
    rooted in the state of branch 1 and brings a coverage delta of 7. *)
Lemma attachRooted_rooted_coverage_witness :
  fst <$> attachRooted (MkWrappedOutput 4 0) freshWorld = Some (true, true)
  ∧ coverageDelta (att worldAfterRooted) = 7
  ∧ rootedCoverage (att worldAfterRooted) 1.
Proof.
  split; [by vm_compute|]. split; [by vm_compute|].
  assert (Htotal : totalAmount (GetStateReaderForTheBranch 1) ≤ MaxUint64) by (by vm_compute).
  assert (Hinj : Inj (=) (=) (ID : nat → TransactionID)) by exact idOf_inj.
  destruct (attachRooted_rooted_coverage 1 Hinj Htotal) as (W1 & W2).
  apply (W2 freshWorld worldAfterRooted (MkWrappedOutput 4 0) true); [|by vm_compute].
  apply (W1 "2" (MkWorld (newPastConeAttacher "2") sample.memory []) freshWorld);
    [reflexivity|by vm_compute].
Defined.

(** Output 0 of transaction 3, of slot 10, is not rooted in the state of
    the baseline 1, of slot 100: under the horizon of slot 95 it is
    rejected, by [attachOutput] and by [attachInput] of the consumer 2
    called with that horizon. *)
Lemma attachOutput_parasitic_chain_rule_witness :
  (∃ w', attachOutput sample.noDescent (MkWrappedOutput 3 0) (MkLogicalTime 95 0) ∅ sample.world
         = Some ((false, ∅), w')
         ∧ reason (att w')
           = Some (parasiticChainError (MkLogicalTime 95 0) (MkWrappedOutput 3 0)))
  ∧ (∃ w', attachInput sample.noDescent 2 0 2 (MkLogicalTime 95 0) ∅ sample.world
           = Some (((false, false), ∅), w')
           ∧ reason (att w')
             = Some (parasiticChainError (MkLogicalTime 95 0) (MkWrappedOutput 3 0))).
Proof.
  split.
  - assert (Hrooted : attachRooted (MkWrappedOutput 3 0) sample.world
                      = Some ((true, false), sample.world)) by (by vm_compute).
    destruct (attachOutput_parasitic_chain_rule sample.noDescent (MkWrappedOutput 3 0)
                (MkLogicalTime 95 0) ∅ sample.world sample.world Hrooted) as (W & _).
    apply W. reflexivity.
  - assert (Hrooted : attachRooted (MkWrappedOutput 3 0) worldAfterAttach
                      = Some ((true, false), worldAfterAttach)) by (by vm_compute).
    destruct (attachOutput_parasitic_chain_rule sample.noDescent (MkWrappedOutput 3 0)
                (MkLogicalTime 95 0) ∅ worldAfterAttach worldAfterAttach Hrooted)
      as (_ & _ & _ & W).
    destruct (W 2%nat 0 2%nat sample.world (MkLogicalTime 95 0)) as [W1 _].
    + by vm_compute.
    + by vm_compute.
    + by vm_compute.
    + left. split; [|reflexivity]. intros [=].
    + apply W1. reflexivity.
Defined.

(** The consumer 2 spends output 0 of transaction 3, which is not rooted
    and lies 90 slots before the baseline, far beyond the 5 slots
    tolerated; attached with the nil time as horizon, the input passes. *)
Lemma parasitic_chain_counterexample :
  baselineBranch (att sample.world) = Some 1%nat
  ∧ fst <$> attachRooted (MkWrappedOutput 3 0) sample.world = Some (true, false)
  ∧ Before (TimestampOfOutput (MkWrappedOutput 3 0)) (baselineHorizon 1) = true
  ∧ fst <$> attachInput sample.noDescent 2 0 2 NilLogicalTime ∅ sample.world
    = Some ((true, false), ∅)
  ∧ (reason ∘ att ∘ snd) <$> attachInput sample.noDescent 2 0 2 NilLogicalTime ∅ sample.world
    = Some None.
Proof. repeat split; by vm_compute. Qed.

End attacher_examples.

(** * Properties of the tip pool *)

Section tippool_properties.
Import ledger transaction vertex tippool.
Context `{Library} `{LazyTree} `{Identity} `{Environment}.

Lemma bytesCompare_pos (a b : list N) :
  (0 <? bytesCompare a b)%Z = true ↔ lexLess b a.
Proof.
  revert b. induction a as [|x a IH]; intros [|y b]; simpl.
  - split; [done|tauto].
  - split; [done|tauto].
  - done.
  - destruct (N.ltb_spec x y) as [Hxy|Hxy]; simpl.
    { split; [done|]. intros [?|[? _]]; lia. }
    destruct (N.ltb_spec y x) as [Hyx|Hyx]; simpl.
    { split; [|done]. intros _. by left. }
    rewrite IH. split; [intros ?; right; split; [lia|done]|].
    intros [?|[_ ?]]; [lia|done].
Qed.

(** C5.  For two different sequencer milestones,
    [isPreferredMilestoneAgainstTheOther] returns [true] exactly when the
    ledger coverage sum of the first is strictly greater, or the sums are
    equal and the id of the first is lexicographically greater; for a
    milestone against itself it returns [false]. *)
Theorem isPreferredMilestoneAgainstTheOther_order (m : Memory) (vid1 vid2 : nat) :
  vertex.IsSequencerMilestone vid1 = true →
  vertex.IsSequencerMilestone vid2 = true →
  (vid1 ≠ vid2 →
     ∃ preferred, isPreferredMilestoneAgainstTheOther m (Some vid1) (Some vid2) = Some preferred
       ∧ (preferred = true
          ↔ LedgerCoverageSum m vid2 < LedgerCoverageSum m vid1
            ∨ (LedgerCoverageSum m vid1 = LedgerCoverageSum m vid2
               ∧ lexLess (ID vid2) (ID vid1))))
  ∧ isPreferredMilestoneAgainstTheOther m (Some vid1) (Some vid1) = Some false.
Proof.
  intros Hs1 Hs2. unfold isPreferredMilestoneAgainstTheOther. simpl.
  rewrite Hs1, Hs2. simpl. split.
  - intros Hne. rewrite bool_decide_eq_false_2 by congruence. simpl.
    destruct (N.ltb_spec (LedgerCoverageSum m vid2) (LedgerCoverageSum m vid1)) as [Hlt|Hge].
    { eexists. split; [done|]. split; [by left|done]. }
    destruct (N.eqb_spec (LedgerCoverageSum m vid1) (LedgerCoverageSum m vid2)) as [Heq|Hneq].
    + eexists. split; [done|]. rewrite bytesCompare_pos. split; [by right|].
      intros [?|[_ ?]]; [lia|done].
    + exists false. split; [done|]. split; [done|]. intros [?|[? _]]; [lia|done].
  - by rewrite bool_decide_eq_true_2.
Qed.

(** C6, amended.  For a milestone [vid] of the sequencer [seqID] delivered
    to the listener: when no milestone is stored for [seqID], or the
    timestamp of [vid] is not before the timestamp of the stored one (it is
    newer, or the same), [vid] replaces the stored entry; when the
    timestamp of [vid] is before the stored one the tip pool is left as it
    is. *)
Theorem sequencerListener_latest_milestone
    (m : Memory) (vid : nat) (seqID : ChainID) (tp : SequencerTipPool) :
  SequencerIDIfAvailable m vid = (seqID, true) →
  (latestMilestones tp !! seqID = None →
     sequencerListener m vid tp = Some (withLatestMilestone seqID vid tp))
  ∧ (∀ old, latestMilestones tp !! seqID = Some old →
       Before (vertex.Timestamp vid) (vertex.Timestamp old) = false →
       sequencerListener m vid tp = Some (withLatestMilestone seqID vid tp))
  ∧ (∀ old, latestMilestones tp !! seqID = Some old →
       Before (vertex.Timestamp vid) (vertex.Timestamp old) = true →
       sequencerListener m vid tp = Some tp).
Proof.
  intros Hseq. unfold sequencerListener, withLatestMilestone. rewrite Hseq. simpl.
  split; [|split].
  - by intros ->.
  - by intros old -> ->.
  - by intros old -> ->.
Qed.

Lemma isCandidateToTagAlong_true (m : Memory) (wOut : WrappedOutput) :
  isCandidateToTagAlong m wOut = Some true →
  IsBadOrDeleted m (VID wOut) = false
  ∧ vertex.IsBranchTransaction (VID wOut) = false
  ∧ ∃ o, OutputAt m (VID wOut) (Index wOut) = Some (Ok o)
         ∧ ∀ out, o = Some out → ChainConstraintIndex out = 255.
Proof.
  unfold isCandidateToTagAlong.
  destruct (IsBadOrDeleted m (VID wOut)); [done|].
  destruct (vertex.IsBranchTransaction (VID wOut)); [done|].
  destruct (OutputAt m (VID wOut) (Index wOut)) as [[[out|]|err]|]; simpl; try done.
  - destruct (N.eqb_spec (ChainConstraintIndex out) 255) as [Hc|Hc]; simpl; [|done].
    intros _. split; [done|]. split; [done|]. exists (Some out). split; [done|]. by intros ? [= <-].
  - intros _. split; [done|]. split; [done|]. by exists None.
Qed.

Lemma purgeCollect_spec (m : Memory) (members toDelete : list WrappedOutput) :
  purgeCollect m members = Some toDelete →
  ∀ wOut, wOut ∈ members →
    (isCandidateToTagAlong m wOut = Some true ∧ wOut ∉ toDelete)
    ∨ (isCandidateToTagAlong m wOut = Some false ∧ wOut ∈ toDelete).
Proof.
  revert toDelete. induction members as [|x members IH]; intros toDelete; simpl.
  - intros _ wOut Hin. by apply elem_of_nil in Hin.
  - destruct (isCandidateToTagAlong m x) as [c|] eqn:Hc; simpl; [|done].
    destruct (purgeCollect m members) as [rest|] eqn:Hrest; simpl; [|done].
    intros [= <-] wOut Hin.
    destruct (decide (wOut = x)) as [->|Hne].
    + destruct c; simpl.
      * destruct (decide (x ∈ members)) as [Hx|Hx].
        -- destruct (IH rest eq_refl x Hx) as [[_ ?]|[? _]]; [by left|congruence].
        -- left. split; [done|]. intros Hdel. apply Hx.
           clear -Hrest Hdel. revert rest Hrest Hdel.
           induction members as [|y members IH]; intros rest; simpl.
           { intros [= <-] Hin. by apply elem_of_nil in Hin. }
           destruct (isCandidateToTagAlong m y) as [[]|]; simpl; [| |done];
             destruct (purgeCollect m members) as [rest'|]; simpl; try done;
             intros [= <-] Hin.
           ++ right. by apply (IH rest').
           ++ apply elem_of_cons in Hin as [->|Hin]; [by left|]. right. by apply (IH rest').
      * right. split; [done|]. by left.
    + apply elem_of_cons in Hin as [?|Hin]; [done|].
      destruct (IH rest eq_refl wOut Hin) as [[Ht Hn]|[Hf Hd]].
      * left. split; [done|]. destruct c; simpl; [done|].
        intros [?|?]%elem_of_cons; done.
      * right. split; [done|]. destruct c; simpl; [done|by right].
Qed.

Lemma elem_of_foldl_difference (toDelete : list WrappedOutput) (s : gset WrappedOutput)
    (wOut : WrappedOutput) :
  wOut ∈ foldl (λ s wOut, s ∖ {[wOut]}) s toDelete ↔ wOut ∈ s ∧ wOut ∉ toDelete.
Proof.
  revert s. induction toDelete as [|x toDelete IH]; intros s; simpl.
  - split; [intros ?; split; [done|by intros ?%elem_of_nil]|by intros [? _]].
  - rewrite IH, elem_of_difference, elem_of_singleton, not_elem_of_cons. tauto.
Qed.

Lemma purge_due_outputs (m : Memory) (now : Z) (tp tp' : SequencerTipPool) :
  purgeDue now tp →
  purge m now tp = Some tp' →
  ∀ wOut, wOut ∈ outputs tp'
          ↔ wOut ∈ outputs tp ∧ isCandidateToTagAlong m wOut = Some true.
Proof.
  unfold purgeDue, purge. intros Hdue.
  destruct (Z.ltb_spec (now - lastPruned tp) (SlotDuration `quot` 2)) as [?|_]; [lia|].
  destruct (purgeCollect m (elements (outputs tp))) as [toDelete|] eqn:Hcollect; simpl; [|done].
  intros [= <-] wOut. simpl. rewrite elem_of_foldl_difference.
  pose proof (purgeCollect_spec _ _ _ Hcollect wOut) as Hspec.
  rewrite elem_of_elements in Hspec. split.
  - intros [Hin Hnot]. split; [done|]. destruct (Hspec Hin) as [[? _]|[_ ?]]; done.
  - intros [Hin Hc]. split; [done|]. destruct (Hspec Hin) as [[_ ?]|[? _]]; [done|congruence].
Qed.

Lemma purge_not_due (m : Memory) (now : Z) (tp : SequencerTipPool) :
  ¬ purgeDue now tp → purge m now tp = Some tp.
Proof.
  unfold purgeDue, purge. intros Hdue.
  destruct (Z.ltb_spec (now - lastPruned tp) (SlotDuration `quot` 2)) as [_|?]; [done|lia].
Qed.

(** C10, amended.  The account listener adds to the outputs of the tip
    pool at most the delivered output, and only when it satisfies
    [isCandidateToTagAlong]; a purge that is due keeps exactly the members
    that satisfy the predicate, and a purge that is not due changes nothing;
    so after a delivery whose purge was due every member satisfies the
    predicate.  An output that satisfies it belongs to a transaction that
    is neither bad nor deleted nor a branch, its index is resolved without
    an error, and the output, when available, has no chain constraint; an
    output of a branch transaction never satisfies it. *)
Theorem tippool_candidates (m : Memory) (now : Z) (tp tp' : SequencerTipPool) :
  (∀ wOut, accountListener m now wOut tp = Some tp' →
     ∀ x, x ∈ outputs tp' →
          x ∈ outputs tp ∨ (x = wOut ∧ isCandidateToTagAlong m wOut = Some true))
  ∧ (purgeDue now tp → purge m now tp = Some tp' →
       ∀ x, x ∈ outputs tp' ↔ x ∈ outputs tp ∧ isCandidateToTagAlong m x = Some true)
  ∧ (¬ purgeDue now tp → purge m now tp = Some tp)
  ∧ (∀ wOut, purgeDue now tp → accountListener m now wOut tp = Some tp' →
       ∀ x, x ∈ outputs tp' → isCandidateToTagAlong m x = Some true)
  ∧ (∀ wOut, isCandidateToTagAlong m wOut = Some true →
       IsBadOrDeleted m (VID wOut) = false
       ∧ vertex.IsBranchTransaction (VID wOut) = false
       ∧ ∃ o, OutputAt m (VID wOut) (Index wOut) = Some (Ok o)
              ∧ ∀ out, o = Some out → ChainConstraintIndex out = 255)
  ∧ (∀ wOut, vertex.IsBranchTransaction (VID wOut) = true →
       isCandidateToTagAlong m wOut = Some false).
Proof.
  assert (Hlistener : ∀ wOut tp1, purge m now tp = Some tp1 →
            accountListener m now wOut tp = Some tp' →
            ∀ x, x ∈ outputs tp' →
                 x ∈ outputs tp1 ∨ (x = wOut ∧ isCandidateToTagAlong m wOut = Some true)).
  { intros wOut tp1 Hpurge. unfold accountListener. rewrite Hpurge. simpl.
    destruct (isCandidateToTagAlong m wOut) as [[]|]; simpl; [| |done].
    - intros [= <-] x. simpl. rewrite elem_of_union, elem_of_singleton.
      intros [->|?]; [by right|by left].
    - intros [= <-] x ?. by left. }
  split; [|split; [|split; [|split; [|split]]]].
  - intros wOut Hl x Hx.
    destruct (purge m now tp) as [tp1|] eqn:Hpurge; [|by unfold accountListener in Hl; rewrite Hpurge in Hl].
    destruct (Hlistener wOut tp1 eq_refl Hl x Hx) as [Hin|?]; [|by right].
    left. destruct (decide (SlotDuration `quot` 2 ≤ now - lastPruned tp)%Z) as [Hdue|Hdue].
    + by apply (purge_due_outputs _ _ _ _ Hdue Hpurge) in Hin as [? _].
    + rewrite purge_not_due in Hpurge by done. by injection Hpurge as <-.
  - apply purge_due_outputs.
  - apply purge_not_due.
  - intros wOut Hdue Hl x Hx.
    destruct (purge m now tp) as [tp1|] eqn:Hpurge; [|by unfold accountListener in Hl; rewrite Hpurge in Hl].
    destruct (Hlistener wOut tp1 eq_refl Hl x Hx) as [Hin|[-> ?]]; [|done].
    by apply (purge_due_outputs _ _ _ _ Hdue Hpurge) in Hin as [_ ?].
  - apply isCandidateToTagAlong_true.
  - intros wOut Hbranch. unfold isCandidateToTagAlong. rewrite Hbranch.
    by destruct (IsBadOrDeleted m (VID wOut)).
Qed.

End tippool_properties.

(** * The tip pool on the sample instance *)

Section tippool_examples.
Import ledger transaction vertex tippool.
Import sample.runs.

(** C5 on the milestones 6 and 5, of equal coverage: the id of 6 is the
    greater one. *)
Lemma isPreferredMilestoneAgainstTheOther_order_witness :
  isPreferredMilestoneAgainstTheOther sample.memory (Some 6%nat) (Some 5%nat) = Some true
  ∧ isPreferredMilestoneAgainstTheOther sample.memory (Some 5%nat) (Some 5%nat) = Some false.
Proof.
  assert (H6 : vertex.IsSequencerMilestone 6 = true) by reflexivity.
  assert (H5 : vertex.IsSequencerMilestone 5 = true) by reflexivity.
  split.
  - destruct (isPreferredMilestoneAgainstTheOther_order sample.memory 6 5 H6 H5) as (W & _).
    destruct W as (preferred & Hp & Hiff); [lia|].
    rewrite Hp. f_equal. apply Hiff. right. split; [reflexivity|].
    simpl. right. split; [done|]. right. split; [done|]. right. split; [done|].
    right. split; [done|]. left. lia.
  - by destruct (isPreferredMilestoneAgainstTheOther_order sample.memory 5 5 H5 H5) as (_ & W).
Defined.

(** Milestone 6 has the timestamp of milestone 5: it is not newer, and it
    takes the place of 5 all the same. *)
Lemma latest_milestone_counterexample :
  latestMilestones poolWithMilestone !! [42] = Some 5%nat
  ∧ SequencerIDIfAvailable sample.memory 6 = ([42], true)
  ∧ After (vertex.Timestamp 6) (vertex.Timestamp 5) = false
  ∧ (λ tp, latestMilestones tp !! [42]) <$> sequencerListener sample.memory 6 poolWithMilestone
    = Some (Some 6%nat).
Proof. repeat split; by vm_compute. Qed.

(** C6, amended, on the same delivery. *)
Lemma sequencerListener_latest_milestone_witness :
  sequencerListener sample.memory 6 poolWithMilestone
  = Some (withLatestMilestone [42] 6 poolWithMilestone).
Proof.
  assert (Hseq : SequencerIDIfAvailable sample.memory 6 = ([42], true)) by reflexivity.
  destruct (sequencerListener_latest_milestone sample.memory 6 [42] poolWithMilestone Hseq)
    as (_ & W & _).
  apply (W 5%nat); reflexivity.
Defined.

(** C10 as stated fails: the pool that [New] returns holds an output of the
    branch 1; and after the run above the pool holds output 0 of
    transaction 4, which is bad by then. *)
Lemma tippool_membership_counterexample :
  New [] = Ok pulledPool
  ∧ MkWrappedOutput 1 0 ∈ outputs pulledPool
  ∧ isCandidateToTagAlong sample.memory (MkWrappedOutput 1 0) = Some false
  ∧ accountListener sample.memory 5000000000 (MkWrappedOutput 4 0) pulledPool
    = Some poolAfterFirst
  ∧ accountListener memoryWithBad 5000000001 (MkWrappedOutput 3 0) poolAfterFirst
    = Some poolAfterSecond
  ∧ MkWrappedOutput 4 0 ∈ outputs poolAfterSecond
  ∧ isCandidateToTagAlong memoryWithBad (MkWrappedOutput 4 0) = Some false.
Proof.
  split; [reflexivity|]. split; [apply (bool_decide_unpack _); by vm_compute|].
  split; [by vm_compute|].
  split; [by vm_compute|]. split; [by vm_compute|]. split; [|by vm_compute].
  apply (bool_decide_unpack _). by vm_compute.
Qed.

(** C10, amended: after the first delivery, whose purge was due, every
    member of the pool is a candidate. *)
Lemma tippool_candidates_witness :
  (∀ x, x ∈ outputs poolAfterFirst → isCandidateToTagAlong sample.memory x = Some true)
  ∧ isCandidateToTagAlong sample.memory (MkWrappedOutput 1 0) = Some false.
Proof.
  destruct (tippool_candidates sample.memory 5000000000 pulledPool poolAfterFirst)
    as (_ & _ & _ & W & _ & Wbranch).
  split.
  - apply (W (MkWrappedOutput 4 0)); [by vm_compute|by vm_compute].
  - by apply Wbranch.
Defined.

End tippool_examples.

(** * Properties of the validation options *)

Section validation_properties.
Import ledger transaction.
Context `{Library} `{Constraints} `{LazyTree} `{LazyTreeIteration} `{OpaqueOptions}.

Lemma forEachFrom_parse {A S : Type} (parse : list N → result A)
    (fun_ : N → A → S → S * bool) (i : nat) (datas : list (list N)) (xs : list A) (s : S) :
  Forall2 (λ data x, parse data = Ok x) datas xs →
  forEachFrom i datas
    (λ i data s, match parse data with Ok x => Some (fun_ i x s) | Err _ => None end) s
  = Some (iterFrom i xs fun_ s).
Proof.
  intros Hparse. revert i s.
  induction Hparse as [|data x datas xs Hx _ IH]; intros i s; simpl; [done|].
  rewrite Hx. destruct (fun_ (byte_of_nat i) x s) as [s' continue]. simpl.
  destruct continue; [apply IH|done].
Qed.

Lemma iterFrom_ext {A S : Type} (f g : N → A → S → S * bool) (i : nat) (xs : list A) (s : S) :
  (∀ i x s, f i x s = g i x s) → iterFrom i xs f s = iterFrom i xs g s.
Proof.
  intros Hext. revert i s. induction xs as [|x xs IH]; intros i s; simpl; [done|].
  rewrite Hext. destruct (g (byte_of_nat i) x s) as [s' continue]. simpl.
  destruct continue; [apply IH|done].
Qed.

(** The loop that looks for a repetition. *)
Lemma iterFrom_unique `{Countable A} (mkErr : N → error) (i : nat) (xs : list A)
    (seen : gset A) (err : option error) :
  NoDup xs → (∀ x, x ∈ xs → x ∉ seen) →
  (iterFrom i xs
     (λ i x (st : gset A * option error),
        if bool_decide (x ∈ st.1) then ((st.1, Some (mkErr i)), false)
        else (({[x]} ∪ st.1, st.2), true))
     (seen, err)).2 = err.
Proof.
  revert i seen. induction xs as [|x xs IH]; intros i seen Hnd Hseen; simpl; [done|].
  apply NoDup_cons in Hnd as [Hx Hnd].
  rewrite bool_decide_eq_false_2 by (apply Hseen; by left). simpl.
  apply IH; [done|]. intros y Hy [->%elem_of_singleton|Hin]%elem_of_union; [done|].
  by apply (Hseen y); [right|].
Qed.

Lemma iterFrom_repeat `{Countable A} (mkErr : N → error) (k i : nat) (xs : list A)
    (seen : gset A) (err : option error) (x : A) :
  xs !! k = Some x → NoDup (take k xs) → (∀ y, y ∈ take k xs → y ∉ seen) →
  x ∈ seen ∨ x ∈ take k xs →
  (iterFrom i xs
     (λ i x (st : gset A * option error),
        if bool_decide (x ∈ st.1) then ((st.1, Some (mkErr i)), false)
        else (({[x]} ∪ st.1, st.2), true))
     (seen, err)).2 = Some (mkErr (byte_of_nat (i + k))).
Proof.
  revert i xs seen. induction k as [|k IH]; intros i [|y xs] seen Hk Hnd Hseen Hx;
    simpl in *; try done.
  - injection Hk as ->. destruct Hx as [Hx|Hx]; [|by apply elem_of_nil in Hx].
    rewrite bool_decide_eq_true_2 by done. simpl. by rewrite Nat.add_0_r.
  - apply NoDup_cons in Hnd as [Hy Hnd].
    rewrite bool_decide_eq_false_2 by (apply Hseen; by left). simpl.
    rewrite (IH (S i) xs ({[y]} ∪ seen)); [by rewrite Nat.add_succ_r|done|done| |].
    + intros z Hz [->%elem_of_singleton|Hin]%elem_of_union; [done|].
      by apply (Hseen z); [right|].
    + destruct Hx as [Hx|[->|Hx]%elem_of_cons].
      * left. apply elem_of_union. by right.
      * left. apply elem_of_union. left. by apply elem_of_singleton.
      * by right.
Qed.

Lemma firstRepeatAt_exists `{EqDecision A} (l : list A) :
  ¬ NoDup l → ∃ i x, firstRepeatAt l i x.
Proof.
  intros Hdup.
  assert (Hn : ∀ n, NoDup (take n l) ∨ ∃ i x, firstRepeatAt l i x).
  { induction n as [|n [IH|IH]]; [left; apply NoDup_nil_2| |by right].
    destruct (l !! n) as [x|] eqn:Hx.
    - destruct (decide (x ∈ take n l)) as [Hin|Hin].
      + right. by exists n, x.
      + left. rewrite (take_S_r _ _ _ Hx). apply NoDup_app. split; [done|].
        split; [|apply NoDup_singleton]. by intros y Hy ->%list_elem_of_singleton.
    - left. apply lookup_ge_None in Hx. rewrite take_ge in * by lia. done. }
  destruct (Hn (length l)) as [Hnd|?]; [|done].
  rewrite firstn_all in Hnd. done.
Qed.

Lemma CheckUniqueness_first_input (tx : Transaction) (oids : list OutputID) (i : nat)
    (oid : OutputID) :
  inputsParse tx oids → firstRepeatAt oids i oid →
  CheckUniqueness tx = Some (Err (repeatingInput (byte_of_nat i))).
Proof.
  intros (inDatas & Hin & Hinp) (Hl & Hrep & Hnd).
  unfold CheckUniqueness, ForEachInput, TreeForEach.
  rewrite Hin. simpl. rewrite (forEachFrom_parse _ _ _ _ oids) by done. simpl.
  rewrite (iterFrom_repeat repeatingInput i 0 oids ∅ None oid); [done|done|done| |by right].
  intros y _ Hy. by apply not_elem_of_empty in Hy.
Qed.

Lemma CheckUniqueness_endorsements (tx : Transaction) (oids : list OutputID)
    (txids : list TransactionID) :
  inputsParse tx oids → endorsementsParse tx txids → NoDup oids →
  CheckUniqueness tx
  = match (iterFrom 0 txids
             (λ i txid (st : gset TransactionID * option error),
                if bool_decide (txid ∈ st.1) then ((st.1, Some (repeatingEndorsement i)), false)
                else (({[txid]} ∪ st.1, st.2), true))
             (∅, None)).2 with
    | Some err => Some (Err err)
    | None => Some (Ok tx)
    end.
Proof.
  intros (inDatas & Hin & Hinp) (enDatas & Hen & Henp) Hnd.
  unfold CheckUniqueness, ForEachInput, TreeForEach.
  rewrite Hin. simpl. rewrite (forEachFrom_parse _ _ _ _ oids) by done. simpl.
  rewrite (iterFrom_unique repeatingInput 0 oids ∅ None); [|done|].
  2:{ intros y _ Hy. by apply not_elem_of_empty in Hy. }
  unfold ForEachEndorsement, TreeForEach. rewrite Hen. simpl.
  by rewrite (forEachFrom_parse _ _ _ _ txids) by done.
Qed.

Lemma CheckUniqueness_first_endorsement (tx : Transaction) (oids : list OutputID)
    (txids : list TransactionID) (i : nat) (txid : TransactionID) :
  inputsParse tx oids → endorsementsParse tx txids → NoDup oids →
  firstRepeatAt txids i txid →
  CheckUniqueness tx = Some (Err (repeatingEndorsement (byte_of_nat i))).
Proof.
  intros Hinp Henp Hnd (Hl & Hrep & Hnd').
  rewrite (CheckUniqueness_endorsements tx oids txids) by done.
  rewrite (iterFrom_repeat repeatingEndorsement i 0 txids ∅ None txid);
    [done|done|done| |by right].
  intros y _ Hy. by apply not_elem_of_empty in Hy.
Qed.

Lemma CheckUniqueness_ok (tx : Transaction) (oids : list OutputID)
    (txids : list TransactionID) :
  inputsParse tx oids → endorsementsParse tx txids →
  CheckUniqueness tx = Some (Ok tx) ↔ NoDup oids ∧ NoDup txids.
Proof.
  intros Hinp Henp. split.
  - intros Hok. destruct (decide (NoDup oids)) as [Hnd|Hdup].
    + split; [done|]. destruct (decide (NoDup txids)) as [?|Hdup]; [done|].
      apply firstRepeatAt_exists in Hdup as (i & txid & Hrep).
      rewrite (CheckUniqueness_first_endorsement tx oids txids i txid) in Hok; done.
    + apply firstRepeatAt_exists in Hdup as (i & oid & Hrep).
      rewrite (CheckUniqueness_first_input tx oids i oid) in Hok; done.
  - intros [Hnd Hnd']. rewrite (CheckUniqueness_endorsements tx oids txids) by done.
    rewrite (iterFrom_unique repeatingEndorsement 0 txids ∅ None); [done|done|].
    intros y _ Hy. by apply not_elem_of_empty in Hy.
Qed.

(** X1.  [CheckUniqueness] on a transaction whose inputs and endorsements parse:
    it succeeds exactly when no input and no endorsement is repeated;
    otherwise the error names the index of the first repeated input, or,
    when the inputs are all different, of the first repeated endorsement. *)
Theorem CheckUniqueness_repetition (tx : Transaction) (oids : list OutputID)
    (txids : list TransactionID) :
  inputsParse tx oids →
  endorsementsParse tx txids →
  (CheckUniqueness tx = Some (Ok tx) ↔ NoDup oids ∧ NoDup txids)
  ∧ (∀ i oid, firstRepeatAt oids i oid →
       CheckUniqueness tx = Some (Err (repeatingInput (byte_of_nat i))))
  ∧ (NoDup oids → ∀ i txid, firstRepeatAt txids i txid →
       CheckUniqueness tx = Some (Err (repeatingEndorsement (byte_of_nat i)))).
Proof.
  intros Hinp Henp. split; [by apply CheckUniqueness_ok|]. split.
  - intros i oid. by apply CheckUniqueness_first_input.
  - intros Hnd i txid. by apply (CheckUniqueness_first_endorsement tx oids txids).
Qed.

(** The loop that stops at the first element that fails a check. *)
Lemma iterFrom_all_pass {A : Type} (check : A → option error) (i : nat) (xs : list A)
    (err : option error) :
  Forall (λ x, check x = None) xs →
  iterFrom i xs
    (λ _ x (err : option error),
       match check x with Some e => (Some e, false) | None => (err, true) end) err
  = err.
Proof.
  intros Hall. revert i. induction Hall as [|x xs Hx _ IH]; intros i; simpl; [done|].
  rewrite Hx. simpl. apply IH.
Qed.

Lemma iterFrom_first_failure {A : Type} (check : A → option error) (k i : nat) (xs : list A)
    (err : option error) (x : A) (e : error) :
  xs !! k = Some x → check x = Some e → Forall (λ y, check y = None) (take k xs) →
  iterFrom i xs
    (λ _ x (err : option error),
       match check x with Some e => (Some e, false) | None => (err, true) end) err
  = Some e.
Proof.
  revert i xs. induction k as [|k IH]; intros i [|y xs] Hk Hx Hall; simpl in *; try done.
  - injection Hk as ->. by rewrite Hx.
  - apply Forall_cons in Hall as [Hy Hall]. rewrite Hy. simpl. by apply IH.
Qed.

Lemma first_failure_exists {A : Type} (check : A → option error) (xs : list A) :
  Forall (λ x, check x = None) xs
  ∨ ∃ k x e, xs !! k = Some x ∧ check x = Some e
             ∧ Forall (λ y, check y = None) (take k xs).
Proof.
  induction xs as [|x xs [IH|(k & y & e & Hk & Hy & Hall)]].
  - left. apply Forall_nil_2.
  - destruct (check x) as [e|] eqn:Hx.
    + right. exists 0%nat, x, e. split; [done|]. split; [done|]. apply Forall_nil_2.
    + left. by apply Forall_cons.
  - destruct (check x) as [e'|] eqn:Hx.
    + right. exists 0%nat, x, e'. split; [done|]. split; [done|]. apply Forall_nil_2.
    + right. exists (S k), y, e. split; [done|]. split; [done|]. simpl. by apply Forall_cons.
Qed.

Lemma iterFrom_check_ok {A : Type} (check : A → option error) (xs : list A) :
  iterFrom 0 xs
    (λ _ x (err : option error),
       match check x with Some e => (Some e, false) | None => (err, true) end) None
  = None
  ↔ Forall (λ x, check x = None) xs.
Proof.
  split.
  - intros Hnone. destruct (first_failure_exists check xs) as [?|(k & x & e & Hk & Hx & Hall)];
      [done|].
    by rewrite (iterFrom_first_failure check k 0 xs None x e) in Hnone.
  - intros Hall. by apply iterFrom_all_pass.
Qed.

(** The check of one input by [CheckTimePace]. *)
Lemma CheckTimePace_run (tx : Transaction) (oids : list OutputID) :
  inputsParse tx oids →
  CheckTimePace tx
  = match iterFrom 0 oids
            (λ _ oid (err : option error),
               match timePaceCheck tx oid with
               | Some e => (Some e, false)
               | None => (err, true)
               end)
            None with
    | Some err => Some (Err err)
    | None => Some (Ok tx)
    end.
Proof.
  intros (datas & Hdatas & Hparse).
  unfold CheckTimePace, ForEachInput, TreeForEach. rewrite Hdatas. simpl.
  rewrite (forEachFrom_parse _ _ _ _ oids) by done. simpl.
  erewrite iterFrom_ext; [done|]. intros i x s. unfold timePaceCheck. simpl.
  by destruct (ValidTimePace _ _).
Qed.

Lemma CheckTimePace_ok (tx : Transaction) (oids : list OutputID) :
  inputsParse tx oids →
  CheckTimePace tx = Some (Ok tx)
  ↔ Forall (λ oid, ValidTimePace (Timestamp (TransactionIDOf oid)) (timestamp tx) = true) oids.
Proof.
  intros Hparse. rewrite (CheckTimePace_run tx oids Hparse).
  pose proof (iterFrom_check_ok (timePaceCheck tx) oids) as Hiff.
  destruct (iterFrom 0 oids _ None) as [e|] eqn:Hrun.
  - split; [done|]. intros Hall.
    assert (Hn : Some e = None); [|done].
    apply Hiff. eapply Forall_impl; [exact Hall|]. intros oid Hv.
    unfold timePaceCheck. by rewrite Hv.
  - split; [|done]. intros _.
    eapply Forall_impl; [by apply Hiff|]. intros oid Hv. unfold timePaceCheck in Hv.
    by destruct (ValidTimePace _ _).
Qed.

(** X2.  [CheckTimePace] on a transaction whose inputs parse: it succeeds
    exactly when the timestamp of every input transaction is in valid time
    pace with the timestamp of the transaction; otherwise the error names
    the first input that is not. *)
Theorem CheckTimePace_inputs (tx : Transaction) (oids : list OutputID) :
  inputsParse tx oids →
  (CheckTimePace tx = Some (Ok tx)
   ↔ Forall (λ oid, ValidTimePace (Timestamp (TransactionIDOf oid)) (timestamp tx) = true) oids)
  ∧ (∀ i oid,
       firstFailureAt (λ oid, ValidTimePace (Timestamp (TransactionIDOf oid)) (timestamp tx))
         oids i oid →
       CheckTimePace tx = Some (Err (timePaceError oid))).
Proof.
  intros Hparse. split; [by apply CheckTimePace_ok|].
  intros i oid (Hi & Hfail & Hall). rewrite (CheckTimePace_run tx oids Hparse).
  rewrite (iterFrom_first_failure (timePaceCheck tx) i 0 oids None oid (timePaceError oid));
    [done|done| |].
  - unfold timePaceCheck. by rewrite Hfail.
  - eapply Forall_impl; [exact Hall|]. intros y Hy. unfold timePaceCheck. by rewrite Hy.
Qed.

Lemma CheckEndorsements_run (tx : Transaction) (txids : list TransactionID)
    (numEndorsements : nat) :
  endorsementsParse tx txids →
  NumEndorsements tx = Some numEndorsements →
  sequencerMilestoneFlag tx = true ∨ numEndorsements = 0%nat →
  CheckEndorsements tx
  = match iterFrom 0 txids
            (λ _ txid (err : option error),
               match endorsementCheck tx txid with
               | Some e => (Some e, false)
               | None => (err, true)
               end)
            None with
    | Some err => Some (Err err)
    | None => Some (Ok tx)
    end.
Proof.
  intros (datas & Hdatas & Hparse) Hnum Hcase.
  assert (Hloop : ∀ s,
            ForEachEndorsement tx
              (λ _ endorsedTxID (err : option error),
                 if negb (IsSequencerMilestone endorsedTxID) then
                   (Some (endorsementNotSequencer tx endorsedTxID), false)
                 else if negb (Slot (Timestamp endorsedTxID) =? Slot (timestamp tx)) then
                   (Some (endorsementOtherSlot tx endorsedTxID), false)
                 else (err, true))
              s
            = Some (iterFrom 0 txids
                      (λ _ txid (err : option error),
                         match endorsementCheck tx txid with
                         | Some e => (Some e, false)
                         | None => (err, true)
                         end)
                      s)).
  { intros s. unfold ForEachEndorsement, TreeForEach. rewrite Hdatas. simpl.
    rewrite (forEachFrom_parse _ _ _ _ txids) by done. f_equal.
    apply iterFrom_ext. intros i x s'. unfold endorsementCheck.
    destruct (IsSequencerMilestone x); simpl; [|done].
    by destruct (Slot (Timestamp x) =? Slot (timestamp tx)). }
  unfold CheckEndorsements.
  destruct (sequencerMilestoneFlag tx) eqn:Hseq; simpl.
  - by rewrite Hloop.
  - destruct Hcase as [?| ->]; [done|]. rewrite Hnum. simpl. by rewrite Hloop.
Qed.

Lemma CheckEndorsements_non_sequencer (tx : Transaction) (numEndorsements : nat) :
  NumEndorsements tx = Some numEndorsements →
  sequencerMilestoneFlag tx = false → (0 < numEndorsements)%nat →
  CheckEndorsements tx
  = Some (Err (Errorf "non-sequencer tx can't contain endorsements: %s"
                 [ArgBytes (txHash tx)])).
Proof.
  intros Hnum Hseq Hpos. unfold CheckEndorsements. rewrite Hseq, Hnum. simpl.
  by rewrite bool_decide_eq_true_2 by done.
Qed.

Lemma endorsementOk_check (tx : Transaction) (txid : TransactionID) :
  endorsementCheck tx txid = None ↔ endorsementOk tx txid = true.
Proof.
  unfold endorsementCheck, endorsementOk. destruct (IsSequencerMilestone txid); simpl; [|done].
  by destruct (Slot (Timestamp txid) =? Slot (timestamp tx)).
Qed.

Lemma CheckEndorsements_ok (tx : Transaction) (txids : list TransactionID)
    (numEndorsements : nat) :
  endorsementsParse tx txids →
  NumEndorsements tx = Some numEndorsements →
  CheckEndorsements tx = Some (Ok tx)
  ↔ (sequencerMilestoneFlag tx = true ∨ numEndorsements = 0%nat)
    ∧ Forall (λ txid, endorsementOk tx txid = true) txids.
Proof.
  intros Hparse Hnum.
  assert (Hiff : ∀ Hcase : sequencerMilestoneFlag tx = true ∨ numEndorsements = 0%nat,
            CheckEndorsements tx = Some (Ok tx)
            ↔ Forall (λ txid, endorsementOk tx txid = true) txids).
  { intros Hcase. rewrite (CheckEndorsements_run tx txids numEndorsements) by done.
    pose proof (iterFrom_check_ok (endorsementCheck tx) txids) as Hiff.
    destruct (iterFrom 0 txids _ None) as [e|] eqn:Hrun.
    - split; [done|]. intros Hall.
      assert (Hn : Some e = None); [|done].
      apply Hiff. eapply Forall_impl; [exact Hall|]. intros txid Hv.
      by apply endorsementOk_check.
    - split; [|done]. intros _.
      eapply Forall_impl; [by apply Hiff|]. intros txid Hv. by apply endorsementOk_check. }
  split.
  - intros Hok.
    assert (Hcase : sequencerMilestoneFlag tx = true ∨ numEndorsements = 0%nat).
    { destruct (sequencerMilestoneFlag tx) eqn:Hseq; [by left|].
      destruct numEndorsements as [|n]; [by right|].
      rewrite (CheckEndorsements_non_sequencer tx (S n)) in Hok; [done|done|done|lia]. }
    split; [done|]. by apply (Hiff Hcase).
  - intros [Hcase Hall]. by apply (Hiff Hcase).
Qed.

(** X3.  [CheckEndorsements] on a transaction whose endorsements parse: a
    transaction that is not a sequencer milestone passes only with no
    endorsement; otherwise every endorsed id must be the id of a sequencer
    milestone of the slot of the transaction, and the error names the
    first one that is not. *)
Theorem CheckEndorsements_same_slot (tx : Transaction) (txids : list TransactionID)
    (numEndorsements : nat) :
  endorsementsParse tx txids →
  NumEndorsements tx = Some numEndorsements →
  (CheckEndorsements tx = Some (Ok tx)
   ↔ (sequencerMilestoneFlag tx = true ∨ numEndorsements = 0%nat)
     ∧ Forall (λ txid, endorsementOk tx txid = true) txids)
  ∧ (sequencerMilestoneFlag tx = false → (0 < numEndorsements)%nat →
     CheckEndorsements tx
     = Some (Err (Errorf "non-sequencer tx can't contain endorsements: %s"
                    [ArgBytes (txHash tx)])))
  ∧ (sequencerMilestoneFlag tx = true →
     ∀ i txid, firstFailureAt (endorsementOk tx) txids i txid →
       CheckEndorsements tx
       = Some (Err (if IsSequencerMilestone txid then endorsementOtherSlot tx txid
                    else endorsementNotSequencer tx txid))).
Proof.
  intros Hparse Hnum. split; [by apply CheckEndorsements_ok|].
  split; [by apply CheckEndorsements_non_sequencer|].
  intros Hseq i txid (Hi & Hfail & Hall).
  rewrite (CheckEndorsements_run tx txids numEndorsements) by (done || by left).
  rewrite (iterFrom_first_failure (endorsementCheck tx) i 0 txids None txid
             (if IsSequencerMilestone txid then endorsementOtherSlot tx txid
              else endorsementNotSequencer tx txid)); [done|done| |].
  - unfold endorsementCheck. unfold endorsementOk in Hfail.
    destruct (IsSequencerMilestone txid); simpl in *; [|done]. by rewrite Hfail.
  - eapply Forall_impl; [exact Hall|]. intros y Hy. by apply endorsementOk_check.
Qed.


(** ** The main validation options together *)

Lemma Validate_app (tx : Transaction) (opt1 opt2 : list TxValidationOption) :
  Validate tx (opt1 ++ opt2)
  = match Validate tx opt1 with
    | Ok tx' => Validate tx' opt2
    | Err err => Err err
    end.
Proof.
  revert tx. induction opt1 as [|option opt1 IH]; intros tx; simpl; [done|].
  destruct (option tx) as [[tx'|err]|]; [apply IH|done|done].
Qed.

Lemma Validate_checksOnly (tx tx' : Transaction) (opt : list TxValidationOption) :
  Forall checksOnly opt →
  Validate tx opt = Ok tx' ↔ tx' = tx ∧ Forall (λ option, option tx = Some (Ok tx)) opt.
Proof.
  intros Hchecks. revert tx. induction Hchecks as [|option opt Hc _ IH]; intros tx; simpl.
  - split; [intros [= <-]; by split|]. by intros [-> _].
  - destruct (option tx) as [[tx1|err]|] eqn:Ho.
    + apply Hc in Ho as Heq. subst tx1. rewrite IH. split.
      * intros [-> Hall]. split; [done|]. by apply Forall_cons.
      * intros [-> [_ Hall]%Forall_cons]. done.
    + split; [done|]. intros [_ [? _]%Forall_cons]. congruence.
    + split; [done|]. intros [_ [? _]%Forall_cons]. congruence.
Qed.

Lemma MainTxValidationOptions_checksOnly : Forall checksOnly MainTxValidationOptions.
Proof.
  unfold MainTxValidationOptions. repeat apply Forall_cons_2; [..|apply Forall_nil_2];
    intros tx tx'.
  - unfold ScanSequencerData. destruct (ScanSequencerDataResult tx) as [[e|]|]; simpl; congruence.
  - unfold CheckSender. destruct (CheckSenderResult tx) as [[e|]|]; simpl; congruence.
  - unfold CheckNumElements.
    destruct (NumElements (tree tx) (Path TxOutputs)) as [n1|]; simpl; [|done].
    case_bool_decide; [done|].
    destruct (NumElements (tree tx) (Path TxInputIDs)) as [n2|]; simpl; [|done].
    case_bool_decide; [done|].
    destruct (NumElements (tree tx) (Path TxUnlockParams)) as [n3|]; simpl; [|done].
    case_bool_decide; simpl; [|done].
    destruct (NumElements (tree tx) (Path TxEndorsements)) as [n4|]; simpl; [|done].
    case_bool_decide; congruence.
  - unfold CheckTimePace. destruct (ForEachInput tx _ None) as [[e|]|]; simpl; congruence.
  - unfold CheckEndorsements.
    destruct (if negb (sequencerMilestoneFlag tx) then _ else _) as [[]|]; simpl; [done| |done].
    destruct (ForEachEndorsement tx _ None) as [[e|]|]; simpl; congruence.
  - unfold CheckUniqueness.
    destruct (ForEachInput tx _ (∅, None)) as [[s [e|]]|]; simpl; [done| |done].
    destruct (ForEachEndorsement tx _ (∅, None)) as [[s' [e|]]|]; simpl; congruence.
  - unfold ScanOutputs.
    destruct (NumElements (tree tx) (Path TxOutputs)) as [n|]; simpl; [|done].
    destruct (scanLoop (tree tx) (seq 0 n) 0) as [[total|e]|]; simpl; [|done|done].
    case_bool_decide; congruence.
  - unfold CheckSizeOfOutputCommitment.
    destruct (BytesAtPath (tree tx) (Path TxInputCommitment)) as [data|]; simpl; [|done].
    case_bool_decide; simpl; congruence.
Qed.

Lemma FromBytes_checksOnly (txBytes : list N) (opt : list TxValidationOption)
    (tx1 : Transaction) :
  Forall checksOnly opt →
  FromBytes txBytes opt = Ok tx1
  ↔ BaseValidation (emptyTransaction txBytes) = Some (Ok tx1)
    ∧ Forall (λ option, option tx1 = Some (Ok tx1)) opt.
Proof.
  intros Hchecks. unfold FromBytes, transactionFromBytes. simpl.
  fold (emptyTransaction txBytes).
  destruct (BaseValidation (emptyTransaction txBytes)) as [[tx0|err]|];
    [|split; [done|by intros [? _]]..].
  pose proof (Validate_checksOnly tx0 tx1 opt Hchecks) as Hv.
  destruct (Validate tx0 opt) as [tx2|err].
  - split.
    + intros [= ->]. destruct Hv as [Hv _]. destruct (Hv eq_refl) as [-> Hall]. done.
    + intros [[= ->] Hall]. f_equal. destruct Hv as [_ Hv].
      assert (Heq : Ok tx2 = Ok tx1) by (by apply Hv). by injection Heq.
  - split; [done|]. intros [[= ->] Hall]. destruct Hv as [_ Hv].
    assert (Heq : @Err Transaction err = Ok tx1) by (by apply Hv). done.
Qed.

(** X4.  [FromBytesMainChecksWithOpt] returns a transaction exactly when base
    validation succeeds on the bytes, every main validation option accepts
    the transaction that base validation made, and the additional options
    succeed on it.  No main option changes a field that an option reads
    (the two fields that [ScanSequencerData] and [CheckSender] set are read
    by none of them, and are not fields of [Transaction] here), so that
    whether [FromBytes] accepts does not depend on the order in which the
    main options are given. *)
Theorem FromBytesMainChecksWithOpt_accepts
    (txBytes : list N) (additional : list TxValidationOption) (tx : Transaction) :
  (FromBytesMainChecksWithOpt txBytes additional = Ok tx
   ↔ ∃ tx0, BaseValidation (emptyTransaction txBytes) = Some (Ok tx0)
            ∧ Forall (λ option, option tx0 = Some (Ok tx0)) MainTxValidationOptions
            ∧ Validate tx0 additional = Ok tx)
  ∧ (∀ opt, opt ≡ₚ MainTxValidationOptions →
       FromBytes txBytes opt = Ok tx ↔ FromBytes txBytes MainTxValidationOptions = Ok tx).
Proof.
  pose proof (FromBytes_checksOnly txBytes) as Hfrom.
  split.
  - unfold FromBytesMainChecksWithOpt.
    destruct (FromBytes txBytes MainTxValidationOptions) as [tx1|err] eqn:Hmain.
    + apply (Hfrom _ _ MainTxValidationOptions_checksOnly) in Hmain as [Hbase Hall].
      split.
      * intros Hadd. exists tx1. split; [done|]. split; [done|].
        by destruct (Validate tx1 additional).
      * intros (tx0 & Hbase' & _ & Hadd). rewrite Hbase in Hbase'. injection Hbase' as ->.
        by rewrite Hadd.
    + split; [done|]. intros (tx0 & Hbase & Hall & _).
      assert (Hok : FromBytes txBytes MainTxValidationOptions = Ok tx0).
      { by apply (Hfrom _ _ MainTxValidationOptions_checksOnly). }
      congruence.
  - intros opt Hperm.
    assert (Hchecks : Forall checksOnly opt).
    { rewrite Hperm. apply MainTxValidationOptions_checksOnly. }
    rewrite (Hfrom opt tx Hchecks), (Hfrom _ tx MainTxValidationOptions_checksOnly).
    by rewrite Hperm.
Qed.

Lemma forEachFrom_unique_parsed `{Countable A} (parse : list N → result A)
    (mkErr : N → error) (i : nat) (datas : list (list N)) (seen : gset A)
    (r : gset A * option error) :
  forEachFrom i datas
    (λ i data (st : gset A * option error),
       match parse data with
       | Ok x => Some (if bool_decide (x ∈ st.1) then ((st.1, Some (mkErr i)), false)
                       else (({[x]} ∪ st.1, st.2), true))
       | Err _ => None
       end)
    (seen, None) = Some r →
  r.2 = None →
  ∃ xs, Forall2 (λ data x, parse data = Ok x) datas xs.
Proof.
  revert i seen. induction datas as [|data datas IH]; intros i seen; simpl.
  - intros _ _. exists []. apply Forall2_nil_2.
  - destruct (parse data) as [x|err] eqn:Hx; [|done]. simpl.
    case_bool_decide; simpl.
    + by intros [= <-].
    + intros Hrun Hnone. destruct (IH _ _ Hrun Hnone) as [xs Hxs].
      exists (x :: xs). by apply Forall2_cons.
Qed.

Lemma CheckUniqueness_parsed (tx tx' : Transaction) :
  CheckUniqueness tx = Some (Ok tx') →
  ∃ oids txids, inputsParse tx oids ∧ endorsementsParse tx txids.
Proof.
  unfold CheckUniqueness, ForEachInput, ForEachEndorsement, TreeForEach.
  destruct (ForEachData (tree tx) (Path TxInputIDs)) as [inDatas|] eqn:Hin; simpl; [|done].
  destruct (forEachFrom 0 inDatas _ (∅, None)) as [[s [e|]]|] eqn:Hrun; simpl; [done| |done].
  apply forEachFrom_unique_parsed in Hrun as [oids Hoids]; [|done].
  destruct (ForEachData (tree tx) (Path TxEndorsements)) as [enDatas|] eqn:Hen; simpl; [|done].
  destruct (forEachFrom 0 enDatas _ (∅, None)) as [[s' [e|]]|] eqn:Hrun'; simpl; [done| |done].
  apply forEachFrom_unique_parsed in Hrun' as [txids Htxids]; [|done].
  intros _. exists oids, txids. split; [by exists inDatas|by exists enDatas].
Qed.

(** X5.  What [FromBytes] with the main validation options guarantees of the
    transaction it returns: its tree is the bytes; it has at least one
    output and one input, as many unlock parameters as inputs and no more
    endorsements than allowed; its inputs parse, are all different and in
    valid time pace with its timestamp; its endorsements parse, are all
    different and are sequencer milestones of its slot, and it has none
    unless it is a sequencer milestone; its input commitment has 32 bytes;
    and it passes [ScanOutputs]. *)
Theorem FromBytes_main_checks (txBytes : list N) (tx : Transaction) :
  FromBytes txBytes MainTxValidationOptions = Ok tx →
  tree tx = txBytes
  ∧ (∃ numOutputs numInputs numEndorsements,
       NumProducedOutputs tx = Some numOutputs ∧ (0 < numOutputs)%nat
       ∧ NumInputs tx = Some numInputs ∧ (0 < numInputs)%nat
       ∧ NumElements (tree tx) (Path TxUnlockParams) = Some numInputs
       ∧ NumEndorsements tx = Some numEndorsements
       ∧ (numEndorsements ≤ MaxNumberOfEndorsements)%nat
       ∧ (sequencerMilestoneFlag tx = true ∨ numEndorsements = 0%nat))
  ∧ (∃ oids txids,
       inputsParse tx oids ∧ NoDup oids
       ∧ Forall (λ oid, ValidTimePace (Timestamp (TransactionIDOf oid)) (timestamp tx) = true)
           oids
       ∧ endorsementsParse tx txids ∧ NoDup txids
       ∧ Forall (λ txid, endorsementOk tx txid = true) txids)
  ∧ (∃ data, BytesAtPath (tree tx) (Path TxInputCommitment) = Some data
             ∧ length data = 32%nat)
  ∧ ScanOutputs tx = Some (Ok tx).
Proof.
  intros [Hbase Hall]%(FromBytes_checksOnly _ _ _ MainTxValidationOptions_checksOnly).
  rename tx into tx0.
  unfold MainTxValidationOptions in Hall.
  apply Forall_cons in Hall as [_ Hall]. apply Forall_cons in Hall as [_ Hall].
  apply Forall_cons in Hall as [Hnum Hall]. apply Forall_cons in Hall as [Hpace Hall].
  apply Forall_cons in Hall as [Hend Hall]. apply Forall_cons in Hall as [Huniq Hall].
  apply Forall_cons in Hall as [Hscan Hall]. apply Forall_cons in Hall as [Hsize _].
  assert (Htree : tree tx0 = txBytes).
  { revert Hbase. unfold BaseValidation, emptyTransaction. simpl.
    destruct (BytesAtPath txBytes (Path TxTimestamp)) as [tsBin|]; simpl; [|done].
    destruct (BytesAtPath txBytes (Path TxSequencerAndStemOutputIndices)) as [[|b0 [|b1 [|]]]|];
      simpl; try done.
    destruct (negb (b1 =? 255) && negb (negb (b0 =? 255))); [done|].
    destruct (LogicalTimeFromBytes tsBin) as [ts|]; [|done]. simpl.
    destruct ((TimeTick ts =? 0) && negb (b0 =? 255) && negb (negb (b1 =? 255))); [done|].
    destruct (BytesAtPath txBytes (Path TxTotalProducedAmount)) as [totalBin|]; simpl; [|done].
    case_bool_decide; [|done]. by intros [= <-]. }
  split; [done|].
  destruct (CheckUniqueness_parsed _ _ Huniq) as (oids & txids & Hinp & Henp).
  revert Hnum. unfold CheckNumElements, NumProducedOutputs, NumInputs, NumEndorsements.
  destruct (NumElements (tree tx0) (Path TxOutputs)) as [n1|]; simpl; [|done].
  case_bool_decide as Hn1; [done|].
  destruct (NumElements (tree tx0) (Path TxInputIDs)) as [n2|]; simpl; [|done].
  case_bool_decide as Hn2; [done|].
  destruct (NumElements (tree tx0) (Path TxUnlockParams)) as [n3|]; simpl; [|done].
  case_bool_decide as Hn3; simpl; [|done].
  destruct (NumElements (tree tx0) (Path TxEndorsements)) as [n4|] eqn:Hn4e; simpl; [|done].
  case_bool_decide as Hn4; [done|]. intros _.
  apply (CheckEndorsements_ok tx0 txids n4 Henp Hn4e) in Hend as [Hcase Hendok].
  split.
  { exists n1, n2, n4. repeat split; try done; try lia. by subst. }
  split.
  { exists oids, txids. split; [done|].
    apply (CheckUniqueness_ok tx0 oids txids Hinp Henp) in Huniq as [Hnd Hnd'].
    split; [done|]. split; [by apply (CheckTimePace_ok tx0 oids Hinp)|]. done. }
  split; [|done].
  revert Hsize. unfold CheckSizeOfOutputCommitment.
  destruct (BytesAtPath (tree tx0) (Path TxInputCommitment)) as [data|]; simpl; [|done].
  case_bool_decide; simpl; [|done]. intros _. by exists data.
Qed.

End validation_properties.


Section validation_examples.
Import ledger transaction sample sample.validation.

Lemma validTx_inputs :
  inputsParse validTx [NewOutputID (idOf 3) 0; NewOutputID (idOf 4) 0].
Proof. eexists. split; [by vm_compute|]. by repeat constructor. Qed.

Lemma validTx_endorsements : endorsementsParse validTx [].
Proof. eexists. split; [by vm_compute|]. by repeat constructor. Qed.

Lemma doubleTx_inputs :
  inputsParse doubleTx
    [NewOutputID (idOf 3) 0; NewOutputID (idOf 4) 0; NewOutputID (idOf 3) 0].
Proof. eexists. split; [by vm_compute|]. by repeat constructor. Qed.

Lemma doubleTx_endorsements : endorsementsParse doubleTx [].
Proof. eexists. split; [by vm_compute|]. by repeat constructor. Qed.

(** The transfer with two different inputs passes; the one that spends an
    output twice is rejected at the input 2. *)
Lemma CheckUniqueness_repetition_witness :
  CheckUniqueness validTx = Some (Ok validTx)
  ∧ CheckUniqueness doubleTx = Some (Err (repeatingInput 2)).
Proof.
  split.
  - apply (CheckUniqueness_repetition validTx _ _ validTx_inputs validTx_endorsements).
    split; [|apply NoDup_nil_2].
    apply NoDup_cons. split; [|apply NoDup_singleton].
    intros [=]%list_elem_of_singleton.
  - destruct (CheckUniqueness_repetition doubleTx _ _ doubleTx_inputs doubleTx_endorsements)
      as (_ & W & _).
    apply (W 2%nat (NewOutputID (idOf 3) 0)).
    split; [reflexivity|]. split; [by left|].
    apply NoDup_cons. split; [|apply NoDup_singleton].
    intros [=]%list_elem_of_singleton.
Defined.

Lemma earlyTx_inputs : inputsParse earlyTx [NewOutputID (idOf 3) 0].
Proof. eexists. split; [by vm_compute|]. by repeat constructor. Qed.

(** The inputs of slots 10 and 90 are in pace with the transfer of slot
    100; the input of slot 10 is not with the transfer of slot 5. *)
Lemma CheckTimePace_inputs_witness :
  CheckTimePace validTx = Some (Ok validTx)
  ∧ CheckTimePace earlyTx = Some (Err (timePaceError (NewOutputID (idOf 3) 0))).
Proof.
  split.
  - apply (CheckTimePace_inputs validTx _ validTx_inputs). by repeat constructor.
  - destruct (CheckTimePace_inputs earlyTx _ earlyTx_inputs) as [_ W].
    apply (W 0%nat). split; [reflexivity|]. split; [reflexivity|]. constructor.
Defined.

Lemma endorserTx_one : endorsementsParse (endorserTx [idOf 5]) [idOf 5].
Proof. eexists. split; [by vm_compute|]. by repeat constructor. Qed.

Lemma endorserTx_two : endorsementsParse (endorserTx [idOf 5; idOf 4]) [idOf 5; idOf 4].
Proof. eexists. split; [by vm_compute|]. by repeat constructor. Qed.

(** The milestone that endorses milestone 5 passes; the one that also
    endorses transaction 4 is rejected for it. *)
Lemma CheckEndorsements_same_slot_witness :
  CheckEndorsements (endorserTx [idOf 5]) = Some (Ok (endorserTx [idOf 5]))
  ∧ CheckEndorsements (endorserTx [idOf 5; idOf 4])
    = Some (Err (endorsementNotSequencer (endorserTx [idOf 5; idOf 4]) (idOf 4))).
Proof.
  assert (H1 : NumEndorsements (endorserTx [idOf 5]) = Some 1%nat) by (by vm_compute).
  assert (H2 : NumEndorsements (endorserTx [idOf 5; idOf 4]) = Some 2%nat) by (by vm_compute).
  split.
  - apply (CheckEndorsements_same_slot _ _ _ endorserTx_one H1).
    split; [by left|]. by repeat constructor.
  - destruct (CheckEndorsements_same_slot _ _ _ endorserTx_two H2) as (_ & _ & W).
    apply (W eq_refl 1%nat (idOf 4)).
    split; [reflexivity|]. split; [reflexivity|]. by repeat constructor.
Defined.

(** The valid transfer is returned by [FromBytes] with the main options. *)
Lemma FromBytes_main_checks_witness :
  FromBytes validBytes MainTxValidationOptions = Ok validTx
  ∧ ∃ oids, inputsParse validTx oids ∧ NoDup oids.
Proof.
  assert (Hok : FromBytes validBytes MainTxValidationOptions = Ok validTx) by (by vm_compute).
  split; [exact Hok|].
  destruct (FromBytes_main_checks validBytes validTx Hok)
    as (_ & _ & (oids & txids & W1 & W2 & _) & _).
  by exists oids.
Defined.

End validation_examples.

(** * More properties of the attacher *)

(** Facts on the two sets of past vertices. *)
Lemma visited_good_disjoint (valid undefined : gset nat) (vid : nat) :
  valid ## undefined → {[vid]} ∪ valid ## undefined ∖ {[vid]}.
Proof.
  intros Hd x [Hx|Hx]%elem_of_union [Hu Hn]%elem_of_difference.
  - done.
  - by apply (Hd x).
Qed.

Lemma visited_undefined_disjoint (valid undefined : gset nat) (vid : nat) :
  valid ## undefined → vid ∉ valid → valid ## {[vid]} ∪ undefined.
Proof.
  intros Hd Hv x Hx [->%elem_of_singleton|Hu]%elem_of_union.
  - done.
  - by apply (Hd x).
Qed.

Lemma visited_good_known (valid undefined : gset nat) (vid u : nat) :
  u ∈ ({[vid]} ∪ valid) ∪ undefined ∖ {[vid]} ↔ u = vid ∨ u ∈ valid ∪ undefined.
Proof.
  rewrite !elem_of_union, elem_of_difference, elem_of_singleton.
  destruct (decide (u = vid)); tauto.
Qed.

Lemma visited_undefined_known (valid undefined : gset nat) (vid u : nat) :
  u ∈ valid ∪ ({[vid]} ∪ undefined) ↔ u = vid ∨ u ∈ valid ∪ undefined.
Proof. rewrite !elem_of_union, elem_of_singleton. tauto. Qed.

Section attacher_more.
Import ledger transaction multistate vertex attacher.
Context `{Library} `{LazyTree} `{Identity} `{Environment}.

Lemma isKnownVertex_disjoint (u : nat) (w : World) :
  validPastVertices (att w) ## undefinedPastVertices (att w) →
  isKnownVertex u w
  = Some (bool_decide (u ∈ validPastVertices (att w) ∪ undefinedPastVertices (att w)), w).
Proof.
  intros Hd. unfold isKnownVertex, bind, gets, Assertf, ret, panic.
  destruct (decide (u ∈ validPastVertices (att w))) as [Hv|Hv].
  - rewrite (bool_decide_eq_true_2 _ Hv).
    rewrite (bool_decide_eq_false_2 (u ∈ undefinedPastVertices (att w))).
    2:{ intros Hu. by apply (Hd u). }
    simpl. rewrite bool_decide_eq_true_2; [done|]. apply elem_of_union. by left.
  - rewrite (bool_decide_eq_false_2 _ Hv).
    destruct (decide (u ∈ undefinedPastVertices (att w))) as [Hu|Hu].
    + rewrite (bool_decide_eq_true_2 _ Hu). simpl.
      rewrite bool_decide_eq_true_2; [done|]. apply elem_of_union. by right.
    + rewrite (bool_decide_eq_false_2 _ Hu).
      rewrite bool_decide_eq_false_2; [done|]. by intros [?|?]%elem_of_union.
Qed.

(** X6.  [pastConeVertexVisited] keeps the valid and the undefined past vertices
    apart, which is what the assertions of [isKnownVertex] rely on: on
    disjoint sets it panics only when a vertex that is already valid is
    marked undefined; otherwise the sets stay disjoint, the vertex is known
    afterwards, in the valid set exactly when it was marked good, and
    [isKnownVertex] answers for every vertex without panic. *)
Theorem pastConeVertexVisited_disjoint (vid : nat) (good : bool) (w : World) :
  validPastVertices (att w) ## undefinedPastVertices (att w) →
  (pastConeVertexVisited vid good w = None
   ↔ good = false ∧ vid ∈ validPastVertices (att w))
  ∧ (∀ w', pastConeVertexVisited vid good w = Some (tt, w') →
       validPastVertices (att w') ## undefinedPastVertices (att w')
       ∧ (∀ u, u ∈ validPastVertices (att w') ∪ undefinedPastVertices (att w')
               ↔ u = vid ∨ u ∈ validPastVertices (att w) ∪ undefinedPastVertices (att w))
       ∧ (vid ∈ validPastVertices (att w') ↔ good = true)
       ∧ mem w' = mem w
       ∧ ∀ u, isKnownVertex u w'
              = Some (bool_decide (u ∈ validPastVertices (att w')
                                       ∪ undefinedPastVertices (att w')), w')).
Proof.
  intros Hdisj. unfold pastConeVertexVisited. destruct good.
  - split; [split; [done|by intros [? _]]|].
    unfold setAttacher, modify. intros w' [= <-].
    assert (Hd := visited_good_disjoint _ _ vid Hdisj).
    split; [exact Hd|]. split; [intros u; apply visited_good_known|].
    split; [split; [done|]; intros _; apply elem_of_union; left; by apply elem_of_singleton|].
    split; [done|]. intros u. by apply isKnownVertex_disjoint.
  - unfold bind, gets, Assertf, setAttacher, modify, ret, panic.
    destruct (decide (vid ∈ validPastVertices (att w))) as [Hv|Hv].
    + rewrite (bool_decide_eq_true_2 _ Hv). simpl. split; [done|]. by intros w' ?.
    + rewrite (bool_decide_eq_false_2 _ Hv). simpl.
      split; [split; [done|by intros [_ ?]]|].
      intros w' [= <-].
      assert (Hd := visited_undefined_disjoint _ _ vid Hdisj Hv).
      split; [exact Hd|]. split; [intros u; apply visited_undefined_known|].
      split; [split; [done|done]|].
      split; [done|]. intros u. by apply isKnownVertex_disjoint.
Qed.

(** X7.  [branchesCompatible] does not depend on the order of its arguments:
    of two branches on different slots it is always the later one that is
    tested for descendance from the earlier one. *)
Theorem branchesCompatible_sym (vid1 vid2 : option nat) :
  branchesCompatible vid1 vid2 = branchesCompatible vid2 vid1.
Proof.
  unfold branchesCompatible. destruct vid1 as [b1|], vid2 as [b2|]; try done.
  rewrite (andb_comm (vertex.IsBranchTransaction b2)).
  destruct (vertex.IsBranchTransaction b1 && vertex.IsBranchTransaction b2); [|done].
  rewrite (N.eqb_sym (vertex.Slot b2)).
  destruct (decide (b1 = b2)) as [->|Hne]; [done|].
  rewrite !bool_decide_eq_false_2 by congruence.
  destruct (N.eqb_spec (vertex.Slot b1) (vertex.Slot b2)) as [|Hslot]; [done|].
  destruct (N.ltb_spec (vertex.Slot b1) (vertex.Slot b2)),
           (N.ltb_spec (vertex.Slot b2) (vertex.Slot b1)); try done; lia.
Qed.


(** X8.  [attachRooted] counts an output once: a second call for an output that
    a first call rooted returns the same answer and changes nothing, so the
    coverage delta is not increased again. *)
Theorem attachRooted_idempotent (wOut : WrappedOutput) (w w1 : World) :
  attachRooted wOut w = Some ((true, true), w1) →
  attachRooted wOut w1 = Some ((true, true), w1)
  ∧ Index wOut ∈ rootedOf (att w1) (VID wOut).
Proof.
  unfold attachRooted, baselineStateReader, bind, gets, deref, ret, panic,
    setMemory, setAttacher, Assertf, modify.
  destruct (baselineBranch (att w)) as [b|] eqn:Hb; [|done].
  destruct (After (TimestampOfOutput wOut) (vertex.Timestamp b)) eqn:Hafter; [done|].
  case_bool_decide as Hin.
  { intros [= <-]. rewrite Hb, Hafter. by rewrite bool_decide_eq_true_2. }
  rewrite Hb.
  destruct (bool_decide (size (rootedOf (att w) (VID wOut)) = 0%nat)
            && negb (KnowsCommittedTransaction (GetStateReaderForTheBranch b)
                       (TransactionIDOf (DecodeID wOut)))); [done|].
  destruct (GetOutput (GetStateReaderForTheBranch b) (DecodeID wOut)) as [out|]; [|done].
  destruct (EnsureOutput (mem w) (VID wOut) (Index wOut) out) as [m' ensured].
  destruct ensured; [|done].
  intros [= <-]. cbn [att baselineBranch]. rewrite Hb, Hafter.
  assert (Hroot : Index wOut
            ∈ rootedOf (MkAttacher (name (att w)) (Some b)
                          (<[VID wOut := {[Index wOut]} ∪ rootedOf (att w) (VID wOut)]> (rooted (att w)))
                          (validPastVertices (att w)) (undefinedPastVertices (att w))
                          ((coverageDelta (att w) + Amount out) mod Uint64Modulus)
                          (attacher.reason (att w)) (prevCoverage (att w))) (VID wOut)).
  { unfold rootedOf at 1. cbn [rooted]. rewrite lookup_insert_eq.
    cbn [default from_option id]. apply elem_of_union. left. by apply elem_of_singleton. }
  by rewrite (bool_decide_eq_true_2 _ Hroot).
Qed.

(** X9.  The error of [attachRooted]: on an attacher whose baseline [b] is
    a branch of the DAG, with the state reader that the DAG holds for it
    (for another baseline [GetStateReaderForTheBranch] of the DAG panics or
    returns [nil]), it returns [ok = false] exactly for an output that is
    not later than the baseline and not yet rooted, whose transaction the
    baseline state knows (or has another output rooted already), and that
    the state does not hold; the reason of the attacher is then the
    already-consumed error and nothing else changes. *)
Theorem attachRooted_error (d : dag.DAG) (wOut : WrappedOutput) (b : nat) (w : World) :
  baselineBranch (att w) = Some b →
  dag.GetStateReaderForTheBranch d b = Some (Some (GetStateReaderForTheBranch b)) →
  ∀ (isRooted : bool) (w' : World),
    attachRooted wOut w = Some ((false, isRooted), w')
    ↔ After (TimestampOfOutput wOut) (vertex.Timestamp b) = false
      ∧ (Index wOut ∉ rootedOf (att w) (VID wOut))
      ∧ ((0 < size (rootedOf (att w) (VID wOut)))%nat
         ∨ KnowsCommittedTransaction (GetStateReaderForTheBranch b) (ID (VID wOut)) = true)
      ∧ GetOutput (GetStateReaderForTheBranch b) (DecodeID wOut) = None
      ∧ isRooted = false
      ∧ w' = MkWorld
               (MkAttacher (name (att w)) (Some b) (rooted (att w))
                  (validPastVertices (att w)) (undefinedPastVertices (att w))
                  (coverageDelta (att w))
                  (Some (Errorf "output %s is already consumed in the baseline state %s"
                           [ArgOut (VID wOut) (Index wOut); ArgPtr b]))
                  (prevCoverage (att w)))
               (mem w) (trace w).
Proof.
  intros Hb _ isRooted w'.
  unfold attachRooted, baselineStateReader, bind, gets, deref, ret, panic,
    setMemory, setReason, setAttacher, Assertf, modify.
  rewrite Hb.
  destruct (After (TimestampOfOutput wOut) (vertex.Timestamp b)) eqn:Hafter.
  { split; [done|]. by intros [? _]. }
  case_bool_decide as Hin.
  { split; [done|]. by intros (_ & ? & _). }
  rewrite Hb. cbn [TransactionIDOf DecodeID].
  destruct (GetOutput (GetStateReaderForTheBranch b) (DecodeID wOut)) as [out|] eqn:Hout.
  - split; [|by intros (_ & _ & _ & ? & _)].
    destruct (_ && _); [done|].
    destruct (EnsureOutput (mem w) (VID wOut) (Index wOut) out) as [m' ensured].
    by destruct ensured.
  - case_bool_decide as Hsize; cbn [andb].
    + destruct (KnowsCommittedTransaction (GetStateReaderForTheBranch b) (ID (VID wOut)))
        eqn:Hknows; cbn [negb].
      * cbv beta. rewrite Hb. split.
        -- intros [= <- <-]. repeat split; try done. by right.
        -- by intros (_ & _ & _ & _ & -> & ->).
      * split; [done|]. intros (_ & _ & [?|?] & _); [lia|done].
    + cbv beta. rewrite Hb. split.
      * intros [= <- <-]. repeat split; try done. left. lia.
      * by intros (_ & _ & _ & _ & -> & ->).
Qed.


Lemma inputVID_att (slot : option nat) (inputOid : OutputID) (vid : nat) (w w1 : World) :
  inputVID slot inputOid w = Some (vid, w1) → att w1 = att w ∧ trace w1 = trace w.
Proof.
  unfold inputVID. destruct slot as [p|].
  - unfold ret. by intros [= _ <-].
  - unfold bind, gets, setMemory, modify, ret.
    destruct (AttachTxID (mem w) (TransactionIDOf inputOid)) as [m' p].
    by intros [= _ <-].
Qed.

Lemma isKnownVertex_elem (vid : nat) (w w' : World) :
  isKnownVertex vid w = Some (true, w') →
  vid ∈ validPastVertices (att w) ∪ undefinedPastVertices (att w).
Proof.
  unfold isKnownVertex, bind, gets, Assertf, ret, panic.
  case_bool_decide as Hv.
  { intros _. apply elem_of_union. by left. }
  case_bool_decide as Hu; [|done].
  intros _. apply elem_of_union. by right.
Qed.

(** X10.  What a successful [attachInputID] leaves behind: the input slot of the
    consumer vertex points to the wrapped transaction of the input, which is
    not bad, the consumer is registered among the consumers of the consumed
    output, and the attacher itself (its sets, its reason) and the requests
    are as before.  ([AttachTxID] is taken not to touch the vertices.) *)
Theorem attachInputID_attached
    (w w' : World) (consumerVertex consumerTx : nat) (inputIdx : N) :
  (∀ m txid, vertices (AttachTxID m txid).1 = vertices m) →
  attachInputID consumerVertex consumerTx inputIdx w = Some (true, w') →
  ∃ inputOid vidInputTx,
    MustInputAt (Tx (vertices (mem w) consumerVertex)) inputIdx = Some inputOid
    ∧ Inputs (vertices (mem w') consumerVertex) !! N.to_nat inputIdx = Some (Some vidInputTx)
    ∧ consumerTx ∈ consumersOf (mem w') vidInputTx (IndexOf inputOid)
    ∧ GetTxStatus (mem w') vidInputTx ≠ Bad
    ∧ consumerTx ∈ validPastVertices (att w) ∪ undefinedPastVertices (att w)
    ∧ Tx (vertices (mem w') consumerVertex) = Tx (vertices (mem w) consumerVertex)
    ∧ att w' = att w
    ∧ trace w' = trace w.
Proof.
  intros Hattach Hok.
  apply attachInputID_ok_inv in Hok
    as (inputOid & slot & vidInputTx & w1 & Hoid & Hslot & Hvid & Hstatus & Hknown & Hcheck & Hrest).
  cbv zeta in Hrest. destruct Hrest as [_ ->].
  pose proof (inputVID_vertices _ _ _ _ _ Hattach Hvid) as Hverts.
  destruct (inputVID_att _ _ _ _ _ Hvid) as [Hatt Htrace].
  exists inputOid, vidInputTx. split; [done|].
  unfold AttachConsumer. fold (consumersOf (mem w1) vidInputTx (IndexOf inputOid)).
  rewrite Hcheck. unfold setVertex, setVID. cbn [fst mem att trace vertices vids].
  rewrite !fn_lookup_insert. cbn [Inputs Tx].
  split.
  { apply list_lookup_insert_eq. rewrite Hverts. by eapply lookup_lt_Some. }
  split.
  { unfold consumersOf. cbn [vids]. rewrite fn_lookup_insert. cbn [consumers].
    rewrite lookup_insert_eq. cbn [default from_option id].
    apply elem_of_union. left. by apply elem_of_singleton. }
  split.
  { unfold GetTxStatus. cbn [vids]. by rewrite fn_lookup_insert. }
  split.
  { rewrite <-Hatt. by eapply isKnownVertex_elem. }
  split; [by rewrite Hverts|]. done.
Qed.

(** X11.  The conflict check does not depend on the order in which the set of
    the existing consumers is iterated: on every list that holds exactly
    the members of the set, in any order and with any repetition, the loop
    of [checkConflictsFunc] ends with the same answer. *)
Theorem checkConflictsFunc_any_order
    (a : attacher) (consumerTx : nat) (existingConsumers : gset nat) (members : list nat) :
  (∀ e, e ∈ members ↔ e ∈ existingConsumers) →
  set.ForEach members (conflictClosure a consumerTx) false
  = checkConflictsFunc a consumerTx existingConsumers.
Proof.
  intros Hmembers. unfold conflictClosure.
  destruct (checkConflictsFunc a consumerTx existingConsumers) eqn:Hc.
  - apply ForEach_conflict. apply checkConflictsFunc_true in Hc as (e & He & Hrest).
    exists e. split; [by apply Hmembers|done].
  - apply not_true_iff_false. intros (e & He & Hne & Hin)%ForEach_conflict.
    eapply checkConflictsFunc_false in Hc; [|by apply Hmembers|done]. done.
Qed.

End attacher_more.

(** * More runs of the attacher on the sample instance *)

Section attacher_more_examples.
Import ledger transaction multistate vertex attacher.
Import sample.runs.

(** Transaction 9 visited as good by the attacher of milestone 2. *)
Lemma pastConeVertexVisited_disjoint_witness :
  ∃ w', pastConeVertexVisited 9 true sample.world = Some (tt, w')
        ∧ validPastVertices (att w') ## undefinedPastVertices (att w')
        ∧ isKnownVertex 9 w' = Some (true, w').
Proof.
  assert (Hdisj : validPastVertices (att sample.world) ## undefinedPastVertices (att sample.world)).
  { intros x Hx. by apply not_elem_of_empty in Hx. }
  destruct (pastConeVertexVisited_disjoint 9 true sample.world Hdisj) as [_ W].
  eexists. split; [reflexivity|].
  destruct (W _ eq_refl) as (W1 & _ & _ & _ & W2). split; [exact W1|].
  rewrite W2. by vm_compute.
Defined.

(** Output 0 of transaction 4, once rooted, is not counted again. *)
Lemma attachRooted_idempotent_witness :
  attachRooted (MkWrappedOutput 4 0) worldAfterRooted = Some ((true, true), worldAfterRooted)
  ∧ coverageDelta (att worldAfterRooted) = 7.
Proof.
  split; [|by vm_compute].
  apply (attachRooted_idempotent (MkWrappedOutput 4 0) freshWorld worldAfterRooted).
  by vm_compute.
Defined.

(** The DAG holds the state reader of the baseline 1; the state of branch 1
    knows transaction 4 and holds its output 0 only: output 1 of
    transaction 4 is consumed. *)
Lemma attachRooted_error_witness :
  ∃ w', attachRooted (MkWrappedOutput 4 1) freshWorld = Some ((false, false), w')
        ∧ attacher.reason (att w')
          = Some (Errorf "output %s is already consumed in the baseline state %s"
                    [ArgOut 4 1; ArgPtr 1]).
Proof.
  assert (Hb : baselineBranch (att freshWorld) = Some 1%nat) by reflexivity.
  assert (Hreader : dag.GetStateReaderForTheBranch sample.sorting.branchesDAG 1
                    = Some (Some (GetStateReaderForTheBranch 1))) by (by vm_compute).
  eexists. split.
  - apply (attachRooted_error sample.sorting.branchesDAG (MkWrappedOutput 4 1) 1 freshWorld
             Hb Hreader false).
    split; [reflexivity|]. split.
    { intros Hin. by apply not_elem_of_empty in Hin. }
    split; [right; by vm_compute|]. split; [by vm_compute|]. split; reflexivity.
  - reflexivity.
Defined.

(** The first attachment of input 0 of the consumer 2, which spends output
    0 of transaction 3. *)
Lemma attachInputID_attached_witness :
  Inputs (vertices (mem worldAfterAttach) 2) !! 0%nat = Some (Some 3%nat)
  ∧ 2%nat ∈ consumersOf (mem worldAfterAttach) 3 0
  ∧ att worldAfterAttach = att sample.world.
Proof.
  assert (Hattach : ∀ m txid, vertices (AttachTxID m txid).1 = vertices m) by done.
  assert (Hok : attachInputID 2 2 0 sample.world = Some (true, worldAfterAttach))
    by (by vm_compute).
  destruct (attachInputID_attached sample.world worldAfterAttach 2 2 0 Hattach Hok)
    as (inputOid & vidInputTx & Hoid & Hslot & Hcons & _ & _ & _ & Hatt & _).
  assert (Hoid' : inputOid = NewOutputID (sample.idOf 3) 0).
  { assert (Hc : MustInputAt (Tx (vertices (mem sample.world) 2)) 0
                 = Some (NewOutputID (sample.idOf 3) 0)) by (by vm_compute).
    rewrite Hc in Hoid. by injection Hoid. }
  assert (Hvid' : vidInputTx = 3%nat).
  { assert (Hc : Inputs (vertices (mem worldAfterAttach) 2) !! N.to_nat 0 = Some (Some 3%nat))
      by (by vm_compute).
    rewrite Hc in Hslot. by injection Hslot. }
  subst. done.
Defined.

(** The consumers 8 and 2 in the two orders, for the attacher of milestone
    2 that has 8 in its past cone. *)
Lemma checkConflictsFunc_any_order_witness :
  set.ForEach [8%nat; 2%nat; 8%nat] (conflictClosure (att sample.conflictWorld) 2) false
  = checkConflictsFunc (att sample.conflictWorld) 2 {[ 2%nat; 8%nat ]}.
Proof.
  apply checkConflictsFunc_any_order. intros e.
  rewrite !elem_of_cons, elem_of_nil, elem_of_union, !elem_of_singleton. tauto.
Defined.

End attacher_more_examples.

Section dag_properties.
Import ledger multistate vertex.
Import dag.
Context `{Library} `{Identity} `{Environment} `{sort.Slice}.

(** X12.  A vertex is added once: [AddVertexNoLock] panics exactly when the DAG
    holds a vertex with the same transaction id; otherwise the vertex is
    found under its id afterwards, and every other id and the branches are
    as before. *)
Theorem AddVertexNoLock_lookup (d : DAG) (vid : nat) :
  (AddVertexNoLock d vid = None ↔ is_Some (GetVertexNoLock d (ID vid)))
  ∧ (∀ d', AddVertexNoLock d vid = Some d' →
       GetVertexNoLock d' (ID vid) = Some vid
       ∧ (∀ txid, txid ≠ ID vid → GetVertexNoLock d' txid = GetVertexNoLock d txid)
       ∧ branches d' = branches d
       ∧ AddVertexNoLock d' vid = None).
Proof.
  unfold AddVertexNoLock, GetVertexNoLock. case_bool_decide as Hnone; simpl.
  - split.
    + split; [done|]. rewrite Hnone. by intros [? ?].
    + intros d' [= <-]. simpl. split; [apply lookup_insert_eq|].
      split; [intros txid Hne; by apply lookup_insert_ne|]. split; [done|].
      rewrite bool_decide_eq_false_2; [done|]. by rewrite lookup_insert_eq.
  - split.
    + split; [|done]. intros _. by destruct (vertices d !! ID vid).
    + by intros d'.
Qed.

(** X13.  The state reader of a branch is loaded once: [AddBranchNoLock] of a
    branch that the DAG holds changes nothing, whatever the state store
    says by then; of a new branch it stores the reader of the root record,
    and panics when there is none; afterwards
    [GetStateReaderForTheBranch] returns the stored reader. *)
Theorem AddBranchNoLock_reader (d : DAG) (branchVID : nat) :
  vertex.IsBranchTransaction branchVID = true →
  (∀ rdr, branches d !! branchVID = Some rdr → AddBranchNoLock d branchVID = Some d)
  ∧ (branches d !! branchVID = None →
     AddBranchNoLock d branchVID = None ↔ MustGetIndexedStateReader (ID branchVID) = None)
  ∧ (∀ d', AddBranchNoLock d branchVID = Some d' →
       ∃ rdr, GetStateReaderForTheBranch d' branchVID = Some (Some rdr)
              ∧ (branches d !! branchVID = None →
                 GetIndexedStateReader (ID branchVID) = Ok rdr)
              ∧ (∀ br, br ≠ branchVID → branches d' !! br = branches d !! br)
              ∧ vertices d' = vertices d).
Proof.
  intros Hbranch. unfold AddBranchNoLock, GetStateReaderForTheBranch. rewrite Hbranch. simpl.
  split; [by intros rdr ->|]. split.
  - intros ->. by destruct (MustGetIndexedStateReader (ID branchVID)).
  - intros d'. destruct (branches d !! branchVID) as [rdr|] eqn:Hb.
    + intros [= <-]. exists rdr. by rewrite Hb.
    + unfold MustGetIndexedStateReader.
      destruct (GetIndexedStateReader (ID branchVID)) as [rdr|err]; simpl; [|done].
      intros [= <-]. exists rdr. simpl. rewrite lookup_insert_eq.
      split; [done|]. split; [done|]. split; [|done].
      intros br Hne. by apply lookup_insert_ne.
Qed.

Lemma latestBranchSlot_from (keys : list nat) (start : N) :
  let latest := foldl (λ ret br, if ret <? vertex.Slot br then vertex.Slot br else ret)
                      start keys in
  start ≤ latest
  ∧ (∀ br, br ∈ keys → vertex.Slot br ≤ latest)
  ∧ (latest = start ∨ ∃ br, br ∈ keys ∧ vertex.Slot br = latest).
Proof.
  revert start. induction keys as [|x keys IH]; intros start; simpl.
  - split; [lia|]. split; [by intros br ?%elem_of_nil|by left].
  - destruct (N.ltb_spec start (vertex.Slot x)) as [Hlt|Hge].
    + destruct (IH (vertex.Slot x)) as (Hle & Hall & Hex). split; [lia|]. split.
      * intros br [->|Hbr]%elem_of_cons; [done|by apply Hall].
      * right. destruct Hex as [->|(br & Hbr & Heq)]; [exists x; split; [by left|done]|].
        exists br. split; [by right|done].
    + destruct (IH start) as (Hle & Hall & Hex). split; [done|]. split.
      * intros br [->|Hbr]%elem_of_cons; [lia|by apply Hall].
      * destruct Hex as [?|(br & Hbr & Heq)]; [by left|].
        right. exists br. split; [by right|done].
Qed.

(** X14.  [LatestBranchSlot] is the greatest slot of a branch of the DAG, and 0
    for a DAG without branches; no branch is on a later slot, and unless
    the result is 0 some branch is on that slot. *)
Theorem LatestBranchSlot_greatest (d : DAG) :
  (branches d = ∅ → LatestBranchSlot d = 0)
  ∧ (∀ br, is_Some (branches d !! br) → vertex.Slot br ≤ LatestBranchSlot d)
  ∧ (LatestBranchSlot d ≠ 0 →
     ∃ br, is_Some (branches d !! br) ∧ vertex.Slot br = LatestBranchSlot d).
Proof.
  unfold LatestBranchSlot, _latestBranchSlot, latestBranchSlot.
  destruct (latestBranchSlot_from (map_to_list (branches d)).*1 0) as (_ & Hall & Hex).
  split; [|split].
  - intros ->. by rewrite map_to_list_empty.
  - intros br [rdr Hbr]. apply Hall. apply list_elem_of_fmap. exists (br, rdr).
    split; [done|]. by apply elem_of_map_to_list.
  - intros Hne. destruct Hex as [Heq|(br & Hbr & Heq)]; [done|].
    exists br. split; [|done].
    apply list_elem_of_fmap in Hbr as ([br' rdr] & -> & Hin).
    apply elem_of_map_to_list in Hin. by exists rdr.
Qed.

Lemma elem_of_branchesForSlot (d : DAG) (slot : N) (br : nat) :
  br ∈ _branchesForSlot d slot ↔ is_Some (branches d !! br) ∧ vertex.Slot br = slot.
Proof.
  unfold _branchesForSlot, branchesForSlot. rewrite list_elem_of_filter, list_elem_of_fmap.
  split.
  - intros [Hslot ([br' rdr] & -> & Hin)]. apply elem_of_map_to_list in Hin.
    split; [by exists rdr|done].
  - intros [[rdr Hbr] Hslot]. split; [done|]. exists (br, rdr). split; [done|].
    by apply elem_of_map_to_list.
Qed.

Lemma coverage_strictWeakOrder (m : Memory) (l : list nat) :
  sort.strictWeakOrder
    (λ bi bj, Some (LedgerCoverageSum m bj <? LedgerCoverageSum m bi)) l.
Proof.
  split; [by eexists|]. split; [intros a _; f_equal; apply N.ltb_irrefl|]. split.
  - intros a b c _ _ _ [= Hab%N.ltb_lt] [= Hbc%N.ltb_lt]. f_equal. apply N.ltb_lt. lia.
  - intros a b c _ _ _ [= Hab%N.ltb_ge] [= Hbc%N.ltb_ge]. f_equal. apply N.ltb_ge. lia.
Qed.

Lemma branchesDescending_members (m : Memory) (d : DAG) (slot : N) :
  sort.sorts →
  ∃ brs, _branchesDescending m d slot = Some brs
         ∧ (∀ br, br ∈ brs ↔ is_Some (branches d !! br) ∧ vertex.Slot br = slot)
         ∧ StronglySorted (λ a b, LedgerCoverageSum m b ≤ LedgerCoverageSum m a) brs.
Proof.
  intros Hsort. unfold _branchesDescending.
  destruct (Hsort nat _ (_branchesForSlot d slot) (coverage_strictWeakOrder m _))
    as (brs & Hbrs & Hperm & Hsorted).
  exists brs. split; [done|]. split.
  - intros br. rewrite Hperm. apply elem_of_branchesForSlot.
  - clear -Hsorted. induction Hsorted as [|a l Hl IH Hall]; constructor; [done|].
    eapply Forall_impl; [exact Hall|]. by intros b [= ?%N.ltb_ge].
Qed.

Lemma hasOutputInAll_spec (d : DAG) (brs : list nat) (oid : OutputID) :
  (∀ br, br ∈ brs → is_Some (branches d !! br)) →
  ∃ all, hasOutputInAll d brs oid = Some all
         ∧ (all = true ↔ ∀ br rdr, br ∈ brs → branches d !! br = Some rdr →
                                   HasUTXO rdr oid = true).
Proof.
  induction brs as [|x brs IH]; intros Hin; simpl.
  - exists true. split; [done|]. split; [|done]. by intros _ br rdr ?%elem_of_nil.
  - destruct (Hin x) as [rdr Hx]; [by left|]. rewrite Hx. simpl.
    destruct (HasUTXO rdr oid) eqn:Hutxo; simpl.
    + destruct IH as (all & Hall & Hiff); [intros br Hbr; apply Hin; by right|].
      exists all. split; [done|]. rewrite Hiff. split.
      * intros Hrest br rdr' [->|Hbr]%elem_of_cons Hl; [congruence|by eapply Hrest].
      * intros Hrest br rdr' Hbr Hl. eapply Hrest; [by right|done].
    + exists false. split; [done|]. split; [done|]. intros Hrest.
      rewrite (Hrest x rdr) in Hutxo; [done|by left|done].
Qed.

(** X15.  [HasOutputInAllBranches] answers, without panic, whether every branch
    of the DAG on the slot holds the output; it is [true] for a slot
    without branches. *)
Theorem HasOutputInAllBranches_all (m : Memory) (d : DAG) (e : N) (oid : OutputID) :
  sort.sorts →
  ∃ all, HasOutputInAllBranches m d e oid = Some all
         ∧ (all = true
            ↔ ∀ br rdr, branches d !! br = Some rdr → vertex.Slot br = e →
                        HasUTXO rdr oid = true).
Proof.
  intros Hsort. unfold HasOutputInAllBranches.
  destruct (branchesDescending_members m d e Hsort) as (brs & -> & Hmem & _). simpl.
  destruct (hasOutputInAll_spec d brs oid) as (all & Hall & Hiff).
  { intros br Hbr. by apply Hmem in Hbr as [? _]. }
  exists all. split; [done|]. rewrite Hiff. split.
  - intros Hrest br rdr Hbr Hslot. eapply Hrest; [|done]. apply Hmem. split; [by eexists|done].
  - intros Hrest br rdr Hbr Hl. apply (Hrest br rdr Hl). by apply Hmem in Hbr as [_ ?].
Qed.

Lemma findOutput_spec (m : Memory) (d : DAG) (brs : list nat) (oid : OutputID) :
  (∀ br, br ∈ brs → is_Some (branches d !! br)) →
  StronglySorted (λ a b, LedgerCoverageSum m b ≤ LedgerCoverageSum m a) brs →
  ∃ found, findOutput d brs oid = Some found
           ∧ match found with
             | Some (br, rdr) =>
                 br ∈ brs ∧ branches d !! br = Some rdr ∧ HasUTXO rdr oid = true
                 ∧ ∀ br' rdr', br' ∈ brs → branches d !! br' = Some rdr' →
                               HasUTXO rdr' oid = true →
                               LedgerCoverageSum m br' ≤ LedgerCoverageSum m br
             | None =>
                 ∀ br rdr, br ∈ brs → branches d !! br = Some rdr → HasUTXO rdr oid = false
             end.
Proof.
  induction brs as [|x brs IH]; intros Hin Hsorted; simpl.
  - exists None. split; [done|]. by intros br rdr ?%elem_of_nil.
  - apply StronglySorted_cons in Hsorted as [Hx Hsorted].
    destruct (Hin x) as [rdr Hl]; [by left|]. rewrite Hl. simpl.
    destruct (HasUTXO rdr oid) eqn:Hutxo.
    + exists (Some (x, rdr)). split; [done|]. split; [by left|]. split; [done|].
      split; [done|]. intros br' rdr' [->|Hbr]%elem_of_cons _ _; [lia|].
      by apply (proj1 (Forall_forall _ _) Hx).
    + destruct IH as (found & Hfound & Hspec); [intros br Hbr; apply Hin; by right|done|].
      exists found. split; [done|]. destruct found as [[br rdr']|].
      * destruct Hspec as (Hbr & Hlb & Hu & Hmax). split; [by right|]. split; [done|].
        split; [done|]. intros br' rdr'' [->|Hbr']%elem_of_cons Hl' Hu'; [congruence|].
        by eapply Hmax.
      * intros br rdr' [->|Hbr]%elem_of_cons Hl'; [congruence|by eapply Hspec].
Qed.

(** X16.  [FindOutputInLatestTimeSlot] returns, without panic, a branch of the
    latest slot whose state holds the output, together with the reader of
    that branch, and no branch of the latest slot that holds the output has
    a greater ledger coverage; it returns [nil] exactly when no branch of
    the latest slot holds the output. *)
Theorem FindOutputInLatestTimeSlot_heaviest (m : Memory) (d : DAG) (oid : OutputID) :
  sort.sorts →
  ∃ found, FindOutputInLatestTimeSlot m d oid = Some found
           ∧ match found with
             | Some (br, rdr) =>
                 branches d !! br = Some rdr ∧ vertex.Slot br = LatestBranchSlot d
                 ∧ HasUTXO rdr oid = true
                 ∧ ∀ br' rdr', branches d !! br' = Some rdr' →
                               vertex.Slot br' = LatestBranchSlot d →
                               HasUTXO rdr' oid = true →
                               LedgerCoverageSum m br' ≤ LedgerCoverageSum m br
             | None =>
                 ∀ br rdr, branches d !! br = Some rdr → vertex.Slot br = LatestBranchSlot d →
                           HasUTXO rdr oid = false
             end.
Proof.
  intros Hsort. unfold FindOutputInLatestTimeSlot, LatestBranchSlot.
  destruct (branchesDescending_members m d (_latestBranchSlot d) Hsort)
    as (brs & -> & Hmem & Hsorted).
  simpl. destruct (findOutput_spec m d brs oid) as (found & Hfound & Hspec); [|done|].
  { intros br Hbr. by apply Hmem in Hbr as [? _]. }
  exists found. split; [done|]. destruct found as [[br rdr]|].
  - destruct Hspec as (Hbr & Hl & Hu & Hmax). apply Hmem in Hbr as [_ Hslot].
    split; [done|]. split; [done|]. split; [done|].
    intros br' rdr' Hl' Hslot' Hu'. eapply Hmax; [|done|done].
    apply Hmem. split; [by eexists|done].
  - intros br rdr Hl Hslot. eapply Hspec; [|done]. apply Hmem. split; [by eexists|done].
Qed.

End dag_properties.

Section vertex_properties.
Import ledger vertex.
Context `{Library} `{transaction.LazyTree} `{Identity}.

(** X17.  [HasOutputAt] and [OutputAt] agree: when [HasOutputAt] reports an
    invalid index, [OutputAt] returns the wrong-index error; when it
    reports, for a valid index, that the output is not there, the
    transaction is virtual and [OutputAt] returns [nil] without an error;
    and whenever [OutputAt] returns an output, [HasOutputAt] reports it
    with a valid index. *)
Theorem HasOutputAt_OutputAt (m : Memory) (vid : nat) (idx : N) :
  (∀ hasIt, HasOutputAt m vid idx = Some (hasIt, true) →
     hasIt = false
     ∧ OutputAt m vid idx = Some (Err (Errorf "wrong output index" [])))
  ∧ (HasOutputAt m vid idx = Some (false, false) → OutputAt m vid idx = Some (Ok None))
  ∧ (∀ o, OutputAt m vid idx = Some (Ok (Some o)) →
       HasOutputAt m vid idx = Some (true, false))
  ∧ (HasOutputAt m vid idx = None → OutputAt m vid idx = None).
Proof.
  unfold HasOutputAt, OutputAt, transaction.ProducedOutputAt.
  destruct (wrapper (vids m vid)) as [v|v|].
  - destruct (transaction.NumProducedOutputs (Tx (vertices m v))) as [n|]; simpl; [|done].
    case_bool_decide as Hn; simpl.
    + split; [by intros hasIt [= <-]|]. done.
    + split; [done|]. split; [done|]. split; [done|]. done.
  - split; [done|]. split.
    + intros [= Hd]. apply bool_decide_eq_false in Hd.
      destruct (outputs v !! idx) as [o|] eqn:Ho; [|done]. destruct Hd. by eexists.
    + split; [|done]. intros o [= Ho]. rewrite Ho.
      rewrite bool_decide_eq_true_2; [done|by eexists].
  - done.
Qed.

End vertex_properties.


Section sort_examples.
Import sample.sorting.

Lemma insertSorted_sorts {A : Type} (less : A → A → option bool) (L s : list A) (x : A) :
  sort.strictWeakOrder less L →
  x ∈ L → (∀ y, y ∈ s → y ∈ L) →
  StronglySorted (λ a b, less b a = Some false) s →
  ∃ r, insertSorted less x s = Some r ∧ r ≡ₚ x :: s
       ∧ StronglySorted (λ a b, less b a = Some false) r.
Proof.
  intros (Htotal & Hirrefl & Htrans & Hneg) Hx. induction s as [|y s IH]; intros Hs Hsorted.
  - exists [x]. split; [done|]. split; [done|]. by repeat constructor.
  - apply StronglySorted_cons in Hsorted as [Hy Hsorted]. simpl.
    assert (HyL : y ∈ L) by (apply Hs; by left).
    destruct (Htotal x y Hx HyL) as [b Hb]. rewrite Hb. simpl. destruct b.
    + exists (x :: y :: s). split; [done|]. split; [done|].
      apply StronglySorted_cons. split; [|by apply StronglySorted_cons].
      assert (Hyx : less y x = Some false).
      { destruct (Htotal y x HyL Hx) as [[] Hyx]; [|done].
        pose proof (Htrans x y x Hx HyL Hx Hb Hyx) as Hxx.
        by rewrite (Hirrefl x Hx) in Hxx. }
      constructor; [done|]. apply Forall_forall. intros z Hz.
      apply (Hneg z y x); [apply Hs; by right|done|done| |done].
      by apply (proj1 (Forall_forall _ _) Hy).
    + destruct IH as (r & Hr & Hperm & Hrsorted); [intros z Hz; apply Hs; by right|done|].
      rewrite Hr. simpl. exists (y :: r). split; [done|]. split.
      * rewrite Hperm. apply perm_swap.
      * apply StronglySorted_cons. split; [|done]. apply Forall_forall. intros z Hz.
        rewrite Hperm in Hz. apply elem_of_cons in Hz as [->|Hz]; [done|].
        by apply (proj1 (Forall_forall _ _) Hy).
Qed.

Lemma insertionSort_sorts {A : Type} (less : A → A → option bool) (L l : list A) :
  sort.strictWeakOrder less L →
  (∀ y, y ∈ l → y ∈ L) →
  ∃ r, insertionSort less l = Some r ∧ r ≡ₚ l
       ∧ StronglySorted (λ a b, less b a = Some false) r.
Proof.
  intros Hswo. induction l as [|x l IH]; intros Hl; simpl.
  - exists []. split; [done|]. split; [done|]. constructor.
  - destruct IH as (s & -> & Hperm & Hsorted); [intros y Hy; apply Hl; by right|]. simpl.
    destruct (insertSorted_sorts less L s x Hswo) as (r & Hr & Hperm' & Hrsorted).
    + apply Hl. by left.
    + intros y Hy. apply Hl. right. by rewrite <- Hperm.
    + done.
    + exists r. split; [done|]. split; [|done]. by rewrite Hperm', Hperm.
Qed.

(** The insertion sort keeps the promise of [sort.Slice]. *)
Lemma slice_sorts : sort.sorts.
Proof. intros A less l Hswo. by apply (insertionSort_sorts less l l). Qed.

End sort_examples.

Section dag_examples.
Import ledger multistate vertex sample sample.sorting.
Import dag.

(** The branch 1 enters the empty DAG with the reader of its root record. *)
Lemma AddBranchNoLock_reader_witness :
  ∃ d' rdr, AddBranchNoLock New 1 = Some d'
            ∧ GetStateReaderForTheBranch d' 1 = Some (Some rdr)
            ∧ GetIndexedStateReader (idOf 1) = Ok rdr.
Proof.
  assert (Hbranch : vertex.IsBranchTransaction 1 = true) by reflexivity.
  destruct (AddBranchNoLock_reader New 1 Hbranch) as (_ & _ & W).
  eexists. destruct (W (MkDAG ∅ {[ 1%nat := stateOfBranch 1 ]})) as (rdr & W1 & W2 & _).
  - by vm_compute.
  - exists rdr. split; [by vm_compute|]. split; [exact W1|]. by apply W2.
Defined.

(** Output 0 of transaction 4 is in the state of branch 1 and not in that
    of branch 7. *)
Lemma HasOutputInAllBranches_all_witness :
  ∃ all, HasOutputInAllBranches sample.memory branchesDAG 100 (NewOutputID (idOf 4) 0)
         = Some all
         ∧ (all = true
            ↔ ∀ br rdr, branches branchesDAG !! br = Some rdr → vertex.Slot br = 100 →
                        HasUTXO rdr (NewOutputID (idOf 4) 0) = true).
Proof.
  exact (HasOutputInAllBranches_all sample.memory branchesDAG 100 (NewOutputID (idOf 4) 0)
           slice_sorts).
Defined.

(** The branch 7 has the greater coverage and lacks output 0 of
    transaction 4: the branch 1 is found. *)
Lemma FindOutputInLatestTimeSlot_heaviest_witness :
  ∃ rdr, FindOutputInLatestTimeSlot sample.memory branchesDAG (NewOutputID (idOf 4) 0)
         = Some (Some (1%nat, rdr))
         ∧ HasUTXO rdr (NewOutputID (idOf 4) 0) = true.
Proof.
  destruct (FindOutputInLatestTimeSlot_heaviest sample.memory branchesDAG
              (NewOutputID (idOf 4) 0) slice_sorts) as (found & W & Wspec).
  assert (Hrun : FindOutputInLatestTimeSlot sample.memory branchesDAG (NewOutputID (idOf 4) 0)
                 = Some (Some (1%nat, stateOfBranch 1))) by (by vm_compute).
  rewrite Hrun in W. injection W as <-. destruct Wspec as (_ & _ & W & _).
  exists (stateOfBranch 1). split; [exact Hrun|exact W].
Defined.

End dag_examples.

(** * More properties of the tip pool *)

Section tippool_more.
Import ledger transaction vertex tippool.
Context `{Library} `{Constraints} `{LazyTree} `{Identity} `{Environment} `{sort.Slice}.

Lemma lookup_foldl_delete (ks : list ChainID) (ms : gmap ChainID nat) (k : ChainID) :
  foldl (λ ms chainID, delete chainID ms) ms ks !! k
  = if bool_decide (k ∈ ks) then None else ms !! k.
Proof.
  revert ms. induction ks as [|x ks IH]; intros ms; cbn [foldl].
  - rewrite bool_decide_eq_false_2; [done|]. by intros ?%elem_of_nil.
  - rewrite IH. destruct (decide (k = x)) as [->|Hne].
    + rewrite lookup_delete_eq.
      rewrite (bool_decide_eq_true_2 (x ∈ x :: ks)) by (by left).
      by case_bool_decide.
    + rewrite lookup_delete_ne by done.
      destruct (decide (k ∈ ks)) as [Hin|Hin].
      * rewrite !bool_decide_eq_true_2; [done|by right|done].
      * rewrite !bool_decide_eq_false_2; [done| |done].
        by intros [?|?]%elem_of_cons.
Qed.

Lemma purge_milestones_kept (m : Memory) (now : Z) (tp tp' : SequencerTipPool)
    (seqID : ChainID) (vid : nat) :
  purge m now tp = Some tp' →
  latestMilestones tp' !! seqID = Some vid → latestMilestones tp !! seqID = Some vid.
Proof.
  unfold purge. destruct (now - lastPruned tp <? SlotDuration `quot` 2)%Z; [by intros [= <-]|].
  destruct (purgeCollect m (elements (outputs tp))) as [toDelete|]; simpl; [|done].
  intros [= <-]. simpl. rewrite lookup_foldl_delete. by case_bool_decide.
Qed.

(** X18.  A purge that is due drops from the latest milestones exactly those of
    a transaction that is bad or deleted: a sequencer keeps its entry, with
    the same milestone, when and only when that milestone is neither. *)
Theorem purge_latest_milestones (m : Memory) (now : Z) (tp tp' : SequencerTipPool) :
  purgeDue now tp →
  purge m now tp = Some tp' →
  ∀ seqID vid,
    latestMilestones tp' !! seqID = Some vid
    ↔ latestMilestones tp !! seqID = Some vid ∧ IsBadOrDeleted m vid = false.
Proof.
  unfold purgeDue, purge. intros Hdue.
  destruct (Z.ltb_spec (now - lastPruned tp) (SlotDuration `quot` 2)) as [?|_]; [lia|].
  destruct (purgeCollect m (elements (outputs tp))) as [toDelete|]; simpl; [|done].
  intros [= <-] seqID vid. simpl. rewrite lookup_foldl_delete.
  case_bool_decide as Hin.
  - apply list_elem_of_fmap in Hin as ([k v] & -> & Hin).
    apply list_elem_of_filter in Hin as [Hbad Hin]. simpl in *.
    apply elem_of_map_to_list in Hin. split; [done|].
    intros [Hl Hgood]. rewrite Hin in Hl. injection Hl as ->.
    rewrite Hgood in Hbad. done.
  - split.
    + intros Hl. split; [done|].
      destruct (IsBadOrDeleted m vid) eqn:Hbad; [|done].
      destruct Hin. apply list_elem_of_fmap. exists (seqID, vid). split; [done|].
      apply list_elem_of_filter. split; [simpl; by rewrite Hbad|].
      by apply elem_of_map_to_list.
    + by intros [? _].
Qed.


Lemma purgeCollect_sublist (m : Memory) (members toDelete : list WrappedOutput) :
  purgeCollect m members = Some toDelete → sublist toDelete members.
Proof.
  revert toDelete. induction members as [|x members IH]; intros toDelete; simpl.
  - by intros [= <-].
  - destruct (isCandidateToTagAlong m x) as [c|]; simpl; [|done].
    destruct (purgeCollect m members) as [rest|]; simpl; [|done].
    intros [= <-]. destruct c; simpl.
    + apply sublist_cons. by apply IH.
    + apply sublist_skip. by apply IH.
Qed.

Lemma size_foldl_difference (toDelete : list WrappedOutput) (s : gset WrappedOutput) :
  NoDup toDelete → (∀ x, x ∈ toDelete → x ∈ s) →
  (size (foldl (λ s wOut, s ∖ {[wOut]}) s toDelete) + length toDelete = size s)%nat.
Proof.
  revert s. induction toDelete as [|x toDelete IH]; intros s Hnd Hin; simpl; [lia|].
  apply NoDup_cons in Hnd as [Hx Hnd].
  rewrite Nat.add_succ_r, IH; [|done|].
  - assert (Hs : size s = S (size (s ∖ {[x]}))).
    { rewrite (union_difference_L {[x]} s) at 1.
      - rewrite size_union, size_singleton; [done|].
        intros y ->%elem_of_singleton [_ Hy]%elem_of_difference. by apply Hy, elem_of_singleton.
      - intros y ->%elem_of_singleton. apply Hin. by left. }
    lia.
  - intros y Hy. apply elem_of_difference. split; [apply Hin; by right|].
    intros ->%elem_of_singleton. done.
Qed.

(** X19.  The accounts of a purge that is due: the outputs it removes are
    counted in [removedOutputsSinceReset], [outputCount] stays, and the
    instant of the purge is recorded, so that until half a slot has passed
    no later purge changes the pool. *)
Theorem purge_accounting (m : Memory) (now : Z) (tp tp' : SequencerTipPool) :
  purgeDue now tp →
  purge m now tp = Some tp' →
  (∃ removed : nat,
     (size (outputs tp') + removed = size (outputs tp))%nat
     ∧ removedOutputsSinceReset tp'
       = wrapInt (removedOutputsSinceReset tp + Z.of_nat removed))
  ∧ outputCount tp' = outputCount tp
  ∧ lastPruned tp' = now
  ∧ ∀ m1 later, (later - now < SlotDuration `quot` 2)%Z → purge m1 later tp' = Some tp'.
Proof.
  unfold purgeDue. intros Hdue Hpurge.
  assert (Hlast : lastPruned tp' = now).
  { revert Hpurge. unfold purge.
    destruct (Z.ltb_spec (now - lastPruned tp) (SlotDuration `quot` 2)) as [?|_]; [lia|].
    destruct (purgeCollect m (elements (outputs tp))) as [toDelete|]; simpl; [|done].
    by intros [= <-]. }
  split; [|split; [|split; [done|]]].
  - revert Hpurge. unfold purge.
    destruct (Z.ltb_spec (now - lastPruned tp) (SlotDuration `quot` 2)) as [?|_]; [lia|].
    destruct (purgeCollect m (elements (outputs tp))) as [toDelete|] eqn:Hcollect; simpl; [|done].
    intros [= <-]. simpl. exists (length toDelete). split; [|done].
    apply purgeCollect_sublist in Hcollect.
    apply size_foldl_difference.
    + apply (sublist_NoDup _ (elements (outputs tp))); [apply NoDup_elements|exact Hcollect].
    + intros x Hx. apply elem_of_elements. by apply (elem_of_sublist toDelete).
  - revert Hpurge. unfold purge.
    destruct (Z.ltb_spec (now - lastPruned tp) (SlotDuration `quot` 2)) as [?|_]; [lia|].
    destruct (purgeCollect m (elements (outputs tp))) as [toDelete|]; simpl; [|done].
    by intros [= <-].
  - intros m1 later Hlater. apply purge_not_due. unfold purgeDue. rewrite Hlast. lia.
Qed.

Lemma lexLess_irrefl (a : list N) : ¬ lexLess a a.
Proof. induction a as [|x a IH]; simpl; [tauto|]. intros [?|[_ ?]]; [lia|done]. Qed.

Lemma lexLess_trans (a b c : list N) : lexLess a b → lexLess b c → lexLess a c.
Proof.
  revert b c. induction a as [|x a IH]; intros [|y b] [|z c]; simpl; try done.
  intros [Hxy|[-> Hab]] [Hyz|[-> Hbc]].
  - left. lia.
  - by left.
  - by left.
  - right. split; [done|]. by eapply IH.
Qed.

Lemma lexLess_total (a b : list N) : a ≠ b → lexLess a b ∨ lexLess b a.
Proof.
  revert b. induction a as [|x a IH]; intros [|y b] Hne; simpl; [done|by left|by right|].
  destruct (N.lt_trichotomy x y) as [?|[->|?]]; [left; by left| |right; by left].
  destruct (IH b) as [?|?]; [congruence| |].
  - left. by right.
  - right. by right.
Qed.

(** When [vid1] is preferred to [vid2], both sequencer milestones. *)
Lemma isPreferred_cases (m : Memory) (v1 v2 : nat) :
  vertex.IsSequencerMilestone v1 = true →
  vertex.IsSequencerMilestone v2 = true →
  ∃ p, isPreferredMilestoneAgainstTheOther m (Some v1) (Some v2) = Some p
       ∧ (p = true
          ↔ v1 ≠ v2
            ∧ (LedgerCoverageSum m v2 < LedgerCoverageSum m v1
               ∨ (LedgerCoverageSum m v1 = LedgerCoverageSum m v2
                  ∧ lexLess (ID v2) (ID v1)))).
Proof.
  intros Hv1 Hv2. destruct (decide (v1 = v2)) as [->|Hne].
  - exists false. split.
    + unfold isPreferredMilestoneAgainstTheOther. simpl. rewrite Hv2. simpl.
      by rewrite bool_decide_eq_true_2.
    + split; [done|]. by intros [? _].
  - unfold isPreferredMilestoneAgainstTheOther. simpl. rewrite Hv1, Hv2. simpl.
    rewrite bool_decide_eq_false_2 by congruence. simpl.
    destruct (N.ltb_spec (LedgerCoverageSum m v2) (LedgerCoverageSum m v1)) as [Hlt|Hge].
    { eexists. split; [done|]. split; [|done]. intros _. split; [done|by left]. }
    destruct (N.eqb_spec (LedgerCoverageSum m v1) (LedgerCoverageSum m v2)) as [Heq|Hneq].
    + eexists. split; [done|]. rewrite bytesCompare_pos. split.
      * intros ?. split; [done|]. by right.
      * intros [_ [?|[_ ?]]]; [lia|done].
    + exists false. split; [done|]. split; [done|]. intros [_ [?|[? _]]]; [lia|done].
Qed.

(** X20.  [isPreferredMilestoneAgainstTheOther] is a strict order on sequencer
    milestones, as the sort that uses it needs: it is never true in both
    directions, it is transitive, and of two milestones with different ids
    one is preferred to the other. *)
Theorem isPreferredMilestoneAgainstTheOther_strict_order (m : Memory) (vid1 vid2 vid3 : nat) :
  vertex.IsSequencerMilestone vid1 = true →
  vertex.IsSequencerMilestone vid2 = true →
  vertex.IsSequencerMilestone vid3 = true →
  (isPreferredMilestoneAgainstTheOther m (Some vid1) (Some vid2) = Some true →
     isPreferredMilestoneAgainstTheOther m (Some vid2) (Some vid1) = Some false)
  ∧ (isPreferredMilestoneAgainstTheOther m (Some vid1) (Some vid2) = Some true →
     isPreferredMilestoneAgainstTheOther m (Some vid2) (Some vid3) = Some true →
     isPreferredMilestoneAgainstTheOther m (Some vid1) (Some vid3) = Some true)
  ∧ (ID vid1 ≠ ID vid2 →
     isPreferredMilestoneAgainstTheOther m (Some vid1) (Some vid2) = Some true
     ∨ isPreferredMilestoneAgainstTheOther m (Some vid2) (Some vid1) = Some true).
Proof.
  intros Hs1 Hs2 Hs3.
  pose proof (isPreferred_cases m) as Hpref.
  destruct (Hpref vid1 vid2 Hs1 Hs2) as (p12 & E12 & P12).
  destruct (Hpref vid2 vid1 Hs2 Hs1) as (p21 & E21 & P21).
  destruct (Hpref vid2 vid3 Hs2 Hs3) as (p23 & E23 & P23).
  destruct (Hpref vid1 vid3 Hs1 Hs3) as (p13 & E13 & P13).
  rewrite E12, E21, E23, E13. split; [|split].
  - intros [= ->]. f_equal. apply not_true_iff_false. intros ->.
    destruct P12 as [P12 _], P21 as [P21 _].
    destruct (P12 eq_refl) as [_ [?|[? L12]]], (P21 eq_refl) as [_ [?|[? L21]]]; try lia.
    by apply (lexLess_irrefl (ID vid1)), (lexLess_trans _ (ID vid2)).
  - intros [= ->] [= ->]. f_equal. apply P13.
    destruct P12 as [P12 _], P23 as [P23 _].
    destruct (P12 eq_refl) as [Hne12 C12], (P23 eq_refl) as [Hne23 C23].
    assert (Hc : LedgerCoverageSum m vid3 < LedgerCoverageSum m vid1
                 ∨ (LedgerCoverageSum m vid1 = LedgerCoverageSum m vid3
                    ∧ lexLess (ID vid3) (ID vid1))).
    { destruct C12 as [?|[? L12]], C23 as [?|[? L23]]; try (left; lia).
      right. split; [lia|]. by apply (lexLess_trans _ (ID vid2)). }
    split; [|done]. intros ->.
    destruct C12 as [?|[? L12]], C23 as [?|[? L23]]; try lia.
    by apply (lexLess_irrefl (ID vid3)), (lexLess_trans _ (ID vid2)).
  - intros Hid.
    assert (Hne : vid1 ≠ vid2) by congruence.
    destruct (N.lt_trichotomy (LedgerCoverageSum m vid1) (LedgerCoverageSum m vid2))
      as [Hlt|[Heq|Hgt]].
    + right. f_equal. apply P21. split; [done|]. by left.
    + destruct (lexLess_total _ _ Hid) as [L|L].
      * right. f_equal. apply P21. split; [done|]. by right.
      * left. f_equal. apply P12. split; [done|]. by right.
    + left. f_equal. apply P12. split; [done|]. by left.
Qed.

Lemma lexLess_not_trans (a b c : list N) :
  ¬ lexLess b a → ¬ lexLess c b → ¬ lexLess c a.
Proof.
  intros Hba Hcb Hca. destruct (decide (a = b)) as [->|Hne]; [done|].
  destruct (lexLess_total a b Hne) as [Hab|?]; [|done].
  by apply Hcb, (lexLess_trans _ a).
Qed.

Lemma isPreferred_strictWeakOrder (m : Memory) (l : list nat) :
  (∀ vid, vid ∈ l → vertex.IsSequencerMilestone vid = true) →
  sort.strictWeakOrder
    (λ vid1 vid2, isPreferredMilestoneAgainstTheOther m (Some vid1) (Some vid2)) l.
Proof.
  intros Hseq. split; [|split; [|split]].
  - intros a b Ha Hb. destruct (isPreferred_cases m a b) as (p & -> & _); by auto.
  - intros a Ha. destruct (isPreferred_cases m a a) as (p & -> & Hp); [by auto..|].
    f_equal. apply not_true_iff_false. intros Ht. by apply Hp in Ht as [? _].
  - intros a b c Ha Hb Hc.
    destruct (isPreferred_cases m a b) as (pab & -> & Hab); [by auto..|].
    destruct (isPreferred_cases m b c) as (pbc & -> & Hbc); [by auto..|].
    destruct (isPreferred_cases m a c) as (pac & -> & Hac); [by auto..|].
    intros [= ->] [= ->]. f_equal. apply Hac.
    destruct Hab as [Hab _], Hbc as [Hbc _].
    destruct (Hab eq_refl) as [_ Cab], (Hbc eq_refl) as [_ Cbc].
    split.
    + intros ->. destruct Cab as [?|[? Lab]], Cbc as [?|[? Lbc]]; try lia.
      by apply (lexLess_irrefl (ID c)), (lexLess_trans _ (ID b)).
    + destruct Cab as [?|[? Lab]], Cbc as [?|[? Lbc]]; try (left; lia).
      right. split; [lia|]. by apply (lexLess_trans _ (ID b)).
  - intros a b c Ha Hb Hc.
    destruct (isPreferred_cases m a b) as (pab & -> & Hab); [by auto..|].
    destruct (isPreferred_cases m b c) as (pbc & -> & Hbc); [by auto..|].
    destruct (isPreferred_cases m a c) as (pac & -> & Hac); [by auto..|].
    intros [= ->] [= ->]. f_equal. apply not_true_iff_false. intros Ht.
    apply Hac in Ht as [Hne Cac].
    assert (Nab : ¬ (LedgerCoverageSum m b < LedgerCoverageSum m a
                     ∨ (LedgerCoverageSum m a = LedgerCoverageSum m b
                        ∧ lexLess (ID b) (ID a)))).
    { intros C. destruct (decide (a = b)) as [->|Hn].
      - destruct C as [?|[_ ?]]; [lia|by eapply lexLess_irrefl].
      - by assert (false = true) by (apply Hab; by split). }
    assert (Nbc : ¬ (LedgerCoverageSum m c < LedgerCoverageSum m b
                     ∨ (LedgerCoverageSum m b = LedgerCoverageSum m c
                        ∧ lexLess (ID c) (ID b)))).
    { intros C. destruct (decide (b = c)) as [->|Hn].
      - destruct C as [?|[_ ?]]; [lia|by eapply lexLess_irrefl].
      - by assert (false = true) by (apply Hbc; by split). }
    assert (LedgerCoverageSum m a ≤ LedgerCoverageSum m b) by (apply N.le_ngt; tauto).
    assert (LedgerCoverageSum m b ≤ LedgerCoverageSum m c) by (apply N.le_ngt; tauto).
    destruct Cac as [?|[Heq Lca]]; [lia|].
    apply (lexLess_not_trans (ID a) (ID b) (ID c)); [| |done].
    + intros L. apply Nab. right. split; [lia|done].
    + intros L. apply Nbc. right. split; [lia|done].
Qed.

Lemma elem_of_preSelect_from (targetTs : LogicalTime) (mss acc : list nat) (vid : nat) :
  vid ∈ foldl (λ ret ms,
                 if negb (vertex.Slot ms =? ledger.Slot targetTs)
                    || negb (ValidTimePace (vertex.Timestamp ms) targetTs)
                 then ret
                 else ret ++ [ms])
              acc mss
  ↔ vid ∈ acc
    ∨ (vid ∈ mss ∧ vertex.Slot vid = ledger.Slot targetTs
       ∧ ValidTimePace (vertex.Timestamp vid) targetTs = true).
Proof.
  revert acc. induction mss as [|x mss IH]; intros acc; cbn [foldl].
  - split; [by left|]. by intros [?|[?%elem_of_nil _]].
  - rewrite IH. destruct (N.eqb_spec (vertex.Slot x) (ledger.Slot targetTs)) as [Hslot|Hslot];
      cbn [negb orb].
    + destruct (ValidTimePace (vertex.Timestamp x) targetTs) eqn:Hpace; cbn [negb].
      * rewrite elem_of_app, list_elem_of_singleton. split.
        -- intros [[?| ->]|(Hin & ? & ?)]; [by left|right|right].
           ++ split; [by left|done].
           ++ split; [by right|done].
        -- intros [?|([->|Hin]%elem_of_cons & ? & ?)].
           ++ left. by left.
           ++ left. by right.
           ++ right. done.
      * split.
        -- intros [?|(Hin & ? & ?)]; [by left|right]. split; [by right|done].
        -- intros [?|([->|Hin]%elem_of_cons & ? & ?)]; [by left|congruence|by right].
    + split.
      * intros [?|(Hin & ? & ?)]; [by left|right]. split; [by right|done].
      * intros [?|([->|Hin]%elem_of_cons & ? & ?)]; [by left|done|by right].
Qed.

Lemma StronglySorted_lookup {A : Type} (R : A → A → Prop) (l : list A) (i j : nat) (a b : A) :
  StronglySorted R l → l !! i = Some a → l !! j = Some b → (i < j)%nat → R a b.
Proof.
  intros Hsorted. revert i j. induction Hsorted as [|x l Hl IH Hall]; intros i j; [done|].
  destruct i as [|i], j as [|j]; simpl; try lia.
  - intros [= ->] Hb _. apply (proj1 (Forall_forall _ _) Hall). by eapply list_elem_of_lookup_2.
  - intros Ha Hb ?. apply (IH i j); [done|done|lia].
Qed.

(** X21.  [preSelectAndSortEndorsableMilestones] purges the pool and returns,
    from the latest milestones that are left, those on the slot of the
    target with a valid time pace to it, the preferred ones first: a
    milestone is never preferred to one that comes before it, and of two
    with different ids the earlier is preferred to the later. *)
Theorem preSelectAndSortEndorsableMilestones_preferred (m : Memory) (now : Z)
    (targetTs : LogicalTime) (tp tp' : SequencerTipPool) :
  sort.sorts →
  (∀ seqID vid, latestMilestones tp !! seqID = Some vid →
                vertex.IsSequencerMilestone vid = true) →
  purge m now tp = Some tp' →
  ∃ ret, preSelectAndSortEndorsableMilestones m now targetTs tp = Some (ret, tp')
         ∧ (∀ vid, vid ∈ ret
                   ↔ (∃ seqID, latestMilestones tp' !! seqID = Some vid)
                     ∧ vertex.Slot vid = ledger.Slot targetTs
                     ∧ ValidTimePace (vertex.Timestamp vid) targetTs = true)
         ∧ (∀ i j vid1 vid2, ret !! i = Some vid1 → ret !! j = Some vid2 → (i < j)%nat →
              isPreferredMilestoneAgainstTheOther m (Some vid2) (Some vid1) = Some false
              ∧ (ID vid1 ≠ ID vid2 →
                 isPreferredMilestoneAgainstTheOther m (Some vid1) (Some vid2) = Some true)).
Proof.
  intros Hsort Hseq Hpurge. unfold preSelectAndSortEndorsableMilestones. rewrite Hpurge.
  cbn [mbind option_bind].
  set (selected := preSelect targetTs (map_to_list (latestMilestones tp')).*2).
  assert (Hsel : ∀ vid, vid ∈ selected
                        ↔ (∃ seqID, latestMilestones tp' !! seqID = Some vid)
                          ∧ vertex.Slot vid = ledger.Slot targetTs
                          ∧ ValidTimePace (vertex.Timestamp vid) targetTs = true).
  { intros vid. unfold selected, preSelect. rewrite elem_of_preSelect_from.
    rewrite list_elem_of_fmap. split.
    - intros [?%elem_of_nil|(([seqID v] & -> & Hin%elem_of_map_to_list) & ? & ?)]; [done|].
      split; [by exists seqID|done].
    - intros ([seqID Hl] & ? & ?). right. split; [|done]. exists (seqID, vid).
      split; [done|]. by apply elem_of_map_to_list. }
  assert (Hms : ∀ vid, vid ∈ selected → vertex.IsSequencerMilestone vid = true).
  { intros vid [[seqID Hl] _]%Hsel. apply (Hseq seqID).
    by apply (purge_milestones_kept m now tp tp'). }
  destruct (Hsort nat _ selected (isPreferred_strictWeakOrder m selected Hms))
    as (ret & Hret & Hperm & Hsorted).
  exists ret. split; [by rewrite Hret|]. split.
  - intros vid. rewrite Hperm. apply Hsel.
  - intros i j vid1 vid2 Hi Hj Hlt.
    pose proof (StronglySorted_lookup _ ret i j vid1 vid2 Hsorted Hi Hj Hlt) as Hnot.
    cbv beta in Hnot.
    split; [exact Hnot|]. intros Hid.
    assert (Hs1 : vertex.IsSequencerMilestone vid1 = true).
    { apply Hms. rewrite <- Hperm. by eapply list_elem_of_lookup_2. }
    assert (Hs2 : vertex.IsSequencerMilestone vid2 = true).
    { apply Hms. rewrite <- Hperm. by eapply list_elem_of_lookup_2. }
    destruct (isPreferred_cases m vid1 vid2 Hs1 Hs2) as (p12 & E12 & P12).
    destruct (isPreferred_cases m vid2 vid1 Hs2 Hs1) as (p21 & E21 & P21).
    rewrite E12. rewrite E21 in Hnot. injection Hnot as ->. f_equal. apply P12.
    assert (Hne : vid1 ≠ vid2) by congruence. split; [done|].
    destruct (N.lt_trichotomy (LedgerCoverageSum m vid1) (LedgerCoverageSum m vid2))
      as [Hc|[Hc|Hc]]; [|right|by left].
    + by assert (false = true) by (apply P21; split; [done|by left]).
    + split; [done|]. destruct (lexLess_total _ _ Hid) as [L|L]; [|done].
      by assert (false = true) by (apply P21; split; [done|right; by split]).
Qed.

End tippool_more.


(** * More runs of the tip pool on the sample instance *)

Section tippool_more_examples.
Import ledger transaction vertex tippool.
Import sample.runs sample.validation sample.sorting sample.selection.

(** Milestone 5, which is not bad, stays the latest of sequencer [[42]]
    through a purge half a slot after the start. *)
Lemma purge_latest_milestones_witness :
  ∃ tp', purge sample.memory 5000000000 poolWithMilestone = Some tp'
         ∧ latestMilestones tp' !! [42] = Some 5%nat.
Proof.
  assert (Hdue : purgeDue 5000000000 poolWithMilestone).
  { unfold purgeDue. apply Z.leb_le. reflexivity. }
  eexists. split; [by vm_compute|].
  eapply (purge_latest_milestones sample.memory 5000000000 poolWithMilestone _ Hdue).
  - by vm_compute.
  - split; by vm_compute.
Defined.

(** The purge one slot after the start removes output 0 of transaction 4,
    which turned bad, and counts it. *)
Lemma purge_accounting_witness :
  ∃ tp', purge memoryWithBad 10000000000 poolAfterFirst = Some tp'
         ∧ outputCount tp' = outputCount poolAfterFirst
         ∧ lastPruned tp' = 10000000000%Z
         ∧ purge sample.memory 12000000000 tp' = Some tp'.
Proof.
  assert (Hdue : purgeDue 10000000000 poolAfterFirst).
  { unfold purgeDue. apply Z.leb_le. reflexivity. }
  eexists. split; [by vm_compute|].
  match goal with |- outputCount ?tp' = _ ∧ _ =>
    assert (Hpurge : purge memoryWithBad 10000000000 poolAfterFirst = Some tp') by (by vm_compute);
    destruct (purge_accounting memoryWithBad 10000000000 poolAfterFirst tp' Hdue Hpurge)
      as (_ & W1 & W2 & W3)
  end.
  split; [exact W1|]. split; [exact W2|]. apply W3. apply Z.ltb_lt. reflexivity.
Defined.

(** Milestones 5 and 6 have the same coverage; the id of 6 is the greater. *)
Lemma isPreferredMilestoneAgainstTheOther_strict_order_witness :
  isPreferredMilestoneAgainstTheOther sample.memory (Some 6%nat) (Some 5%nat) = Some true
  ∧ isPreferredMilestoneAgainstTheOther sample.memory (Some 5%nat) (Some 6%nat) = Some false.
Proof.
  assert (H5 : vertex.IsSequencerMilestone 5 = true) by reflexivity.
  assert (H6 : vertex.IsSequencerMilestone 6 = true) by reflexivity.
  destruct (isPreferredMilestoneAgainstTheOther_strict_order sample.memory 6 5 5 H6 H5 H5)
    as (W1 & _ & _).
  assert (Hp : isPreferredMilestoneAgainstTheOther sample.memory (Some 6%nat) (Some 5%nat)
               = Some true) by (by vm_compute).
  split; [exact Hp|]. exact (W1 Hp).
Defined.

(** The three milestones are on the slot of the target, before it, and of
    the same coverage: they come by descending id. *)
Lemma preSelectAndSortEndorsableMilestones_preferred_witness :
  ∃ ret, preSelectAndSortEndorsableMilestones sample.memory 0 (MkLogicalTime 100 50)
           poolWithMilestones = Some (ret, poolWithMilestones)
         ∧ ret = [6; 5; 2]%nat
         ∧ ∀ i j vid1 vid2, ret !! i = Some vid1 → ret !! j = Some vid2 → (i < j)%nat →
             isPreferredMilestoneAgainstTheOther sample.memory (Some vid2) (Some vid1)
             = Some false
             ∧ (ID vid1 ≠ ID vid2 →
                isPreferredMilestoneAgainstTheOther sample.memory (Some vid1) (Some vid2)
                = Some true).
Proof.
  assert (Hseq : ∀ seqID vid, latestMilestones poolWithMilestones !! seqID = Some vid →
                              vertex.IsSequencerMilestone vid = true).
  { apply (bool_decide_unpack
             (map_Forall (λ _ vid, vertex.IsSequencerMilestone vid = true)
                (latestMilestones poolWithMilestones))).
    by vm_compute. }
  assert (Hpurge : purge sample.memory 0 poolWithMilestones = Some poolWithMilestones)
    by (by vm_compute).
  destruct (preSelectAndSortEndorsableMilestones_preferred sample.memory 0
              (MkLogicalTime 100 50) poolWithMilestones poolWithMilestones
              slice_sorts Hseq Hpurge) as (ret & W1 & _ & W3).
  exists ret. split; [exact W1|]. split; [|exact W3].
  assert (Hrun : preSelectAndSortEndorsableMilestones sample.memory 0 (MkLogicalTime 100 50)
                   poolWithMilestones = Some ([6; 5; 2]%nat, poolWithMilestones))
    by (by vm_compute).
  rewrite Hrun in W1. by injection W1 as <-.
Defined.

End tippool_more_examples.

(** * Properties of the proposals of the milestone factory *)

Section sequencer_properties.
Import ledger transaction vertex.
Import sequencer.
Context `{Library} `{LazyTree} `{Tx.Hashing} `{Identity} `{Environment} `{Constraints}.

Lemma placeProposalIfRelevant_cases (proposal : latestMilestoneProposal)
    (mdProposed : proposedMilestoneWithData) :
  let r := placeProposalIfRelevant proposal mdProposed in
  (r.1 = proposal ∧ r.2.1 ≠ None)
  ∨ (r = (MkProposal (targetTs proposal) (coverage mdProposed) (Some (tx mdProposed))
            (extended mdProposed) (durations proposal), (None, false))
     ∧ targetTs proposal ≠ NilLogicalTime
     ∧ Tx.Timestamp (tx mdProposed) = targetTs proposal
     ∧ (∀ cur, current proposal = Some cur → Tx.ID cur ≠ Tx.ID (tx mdProposed))
     ∧ (Tx.IsBranchTransaction (tx mdProposed) = true
        ∨ bestSoFarCoverage proposal < coverage mdProposed)).
Proof.
  unfold placeProposalIfRelevant. cbv zeta.
  case_bool_decide as Hnil; [by left|].
  case_bool_decide as Hts; simpl; [|by left].
  destruct (current proposal) as [cur|] eqn:Hcur.
  - case_bool_decide as Hid; [by left|].
    destruct (Tx.IsBranchTransaction (tx mdProposed)) eqn:Hbranch; simpl.
    + right. repeat split; try done. * by intros ? [= <-]. * by left.
    + destruct (N.leb_spec (coverage mdProposed) (bestSoFarCoverage proposal)); [by left|].
      right. repeat split; try done. * by intros ? [= <-]. * by right.
  - destruct (Tx.IsBranchTransaction (tx mdProposed)) eqn:Hbranch; simpl.
    + right. repeat split; try done. by left.
    + destruct (N.leb_spec (coverage mdProposed) (bestSoFarCoverage proposal)); [by left|].
      right. repeat split; try done. by right.
Qed.

(** X22.  The current proposal is always for the current target: whatever
    targets the factory sets, whatever proposals the proposers place and
    whatever durations they store, the proposal that [getLatestProposal]
    returns is [nil] or a transaction with the timestamp of the target,
    which is then not the nil time. *)
Theorem proposal_for_target (proposal : latestMilestoneProposal) (steps : list proposalStep) :
  proposalForTarget proposal →
  proposalForTarget (foldl runStep proposal steps)
  ∧ ∀ tx, getLatestProposal (foldl runStep proposal steps) = Some tx →
          Tx.Timestamp tx = targetTs (foldl runStep proposal steps).
Proof.
  intros Hinv.
  assert (Hall : proposalForTarget (foldl runStep proposal steps)).
  { revert proposal Hinv. induction steps as [|step steps IH]; intros proposal Hinv; simpl;
      [done|].
    apply IH. destruct step as [ts|mdProposed|d]; simpl.
    - by intros tx.
    - destruct (placeProposalIfRelevant_cases proposal mdProposed)
        as [[-> _]|(-> & Hnil & Hts & _)]; [done|].
      simpl. by intros tx [= <-].
    - exact Hinv. }
  split; [done|]. intros tx Hcur. by apply Hall.
Qed.

(** X23.  [assessAndAcceptProposal] lets a proposal through once: a transaction
    whose hash of inputs and endorsements was assessed before changes
    neither the task nor the proposal of the factory; a new hash is
    recorded, so that the next transaction with this hash is dropped.  A
    proposal whose ledger coverage cannot be computed counts with coverage
    0: when it is not a branch it leaves the proposal of the factory as it
    is. *)
Theorem assessAndAcceptProposal_once (c : proposerTaskGeneric)
    (proposal : latestMilestoneProposal) (tx : Transaction) (extend : WrappedOutput)
    (elapsed : Z) (taskName : string) (hashOfProposal : list N) :
  HashInputsAndEndorsements tx = Some hashOfProposal →
  (hashOfProposal ∈ alreadyProposed c →
     assessAndAcceptProposal c proposal tx extend elapsed taskName = Some (c, proposal, false))
  ∧ (hashOfProposal ∉ alreadyProposed c →
     ∃ c' proposal' forceExit,
       assessAndAcceptProposal c proposal tx extend elapsed taskName
       = Some (c', proposal', forceExit)
       ∧ alreadyProposed c' = {[hashOfProposal]} ∪ alreadyProposed c
       ∧ visited c' = visited c
       ∧ (∀ tx2 extend2 elapsed2 taskName2,
            HashInputsAndEndorsements tx2 = Some hashOfProposal →
            assessAndAcceptProposal c' proposal' tx2 extend2 elapsed2 taskName2
            = Some (c', proposal', false))
       ∧ (∀ err, LedgerCoverageFromTransaction tx = Err err →
            Tx.IsBranchTransaction tx = false → proposal' = proposal)).
Proof.
  intros Hhash. split.
  - intros Hin. unfold assessAndAcceptProposal. rewrite Hhash. simpl.
    by rewrite bool_decide_eq_true_2.
  - intros Hnot. unfold assessAndAcceptProposal at 1. rewrite Hhash. simpl.
    rewrite bool_decide_eq_false_2 by done.
    set (coverage := match LedgerCoverageFromTransaction tx with Ok c0 => c0 | Err _ => 0 end).
    set (md := MkProposed tx extend coverage elapsed taskName).
    destruct (placeProposalIfRelevant proposal md) as [proposal' [reason forceExit]] eqn:Hplace.
    eexists _, proposal', forceExit. split; [done|]. simpl. split; [done|]. split; [done|].
    split.
    + intros tx2 extend2 elapsed2 taskName2 Hhash2. unfold assessAndAcceptProposal.
      rewrite Hhash2. simpl. rewrite bool_decide_eq_true_2; [done|].
      apply elem_of_union. left. by apply elem_of_singleton.
    + intros err Herr Hbranch.
      destruct (placeProposalIfRelevant_cases proposal md) as [[Hsame _]|(_ & _ & _ & _ & Hcov)].
      * by rewrite Hplace in Hsame.
      * subst md coverage. simpl in Hcov. rewrite Herr in Hcov.
        destruct Hcov as [?|?]; [congruence|lia].
Qed.

Lemma foldl_wrapInt64_sum (ds : list Z) (acc : Z) :
  (0 ≤ acc)%Z → Forall (λ d, 0 ≤ d)%Z ds →
  (acc + foldr Z.add 0 ds < 9223372036854775808)%Z →
  foldl (λ sum d, wrapInt64 (sum + d)) acc ds = (acc + foldr Z.add 0 ds)%Z.
Proof.
  revert acc. induction ds as [|d ds IH]; intros acc Hacc Hall Hsum; simpl in *; [lia|].
  apply Forall_cons in Hall as [Hd Hall].
  assert (Hrest : (0 ≤ foldr Z.add 0 ds)%Z).
  { clear -Hall. induction Hall; simpl; lia. }
  assert (Hw : wrapInt64 (acc + d) = (acc + d)%Z).
  { unfold wrapInt64. rewrite Z.mod_small; lia. }
  rewrite Hw, IH; [lia|lia|done|lia].
Qed.

(** X24.  [averageProposalDuration] returns zero and zero when no duration is
    stored; otherwise the number of the durations and, for durations that
    are not negative and whose sum fits an [int64], their mean rounded
    down. *)
Theorem averageProposalDuration_mean (proposal : latestMilestoneProposal) :
  (durations proposal = [] → averageProposalDuration proposal = (0%Z, 0%nat))
  ∧ (durations proposal ≠ [] →
     Forall (λ d, 0 ≤ d)%Z (durations proposal) →
     (foldr Z.add 0 (durations proposal) < 9223372036854775808)%Z →
     ∃ mean, averageProposalDuration proposal = (mean, length (durations proposal))
             ∧ (Z.of_nat (length (durations proposal)) * mean
                ≤ foldr Z.add 0 (durations proposal)
                < Z.of_nat (length (durations proposal)) * (mean + 1))%Z).
Proof.
  unfold averageProposalDuration. split.
  - by intros ->.
  - intros Hne Hpos Hsum.
    destruct (durations proposal) as [|d ds] eqn:Hds; [done|].
    rewrite bool_decide_eq_false_2 by done.
    eexists. split; [reflexivity|].
    rewrite foldl_wrapInt64_sum by (done || lia).
    rewrite Z.add_0_l.
    set (n := Z.of_nat (length (d :: ds))).
    set (total := foldr Z.add 0%Z (d :: ds)).
    assert (Hn : (0 < n)%Z) by (subst n; simpl; lia).
    assert (Htotal : (0 ≤ total)%Z).
    { subst total. clear -Hpos. induction Hpos; simpl; lia. }
    rewrite Z.quot_div_nonneg by lia.
    pose proof (Z.mul_div_le total n Hn).
    pose proof (Z.mul_succ_div_gt total n Hn). lia.
Qed.

Lemma After_false_trans (t1 t2 t3 : LogicalTime) :
  After t1 t2 = false → After t2 t3 = false → After t1 t3 = false.
Proof.
  unfold After, Before. intros H12 H23.
  destruct (N.ltb_spec (ledger.Slot t2) (ledger.Slot t1)), (N.eqb_spec (ledger.Slot t2) (ledger.Slot t1)),
    (N.ltb_spec (TimeTick t2) (TimeTick t1)); simpl in *; try done;
  destruct (N.ltb_spec (ledger.Slot t3) (ledger.Slot t2)), (N.eqb_spec (ledger.Slot t3) (ledger.Slot t2)),
    (N.ltb_spec (TimeTick t3) (TimeTick t2)); simpl in *; try done;
  destruct (N.ltb_spec (ledger.Slot t3) (ledger.Slot t1)), (N.eqb_spec (ledger.Slot t3) (ledger.Slot t1)),
    (N.ltb_spec (TimeTick t3) (TimeTick t1)); simpl; try done; lia.
Qed.

Lemma After_irrefl (t : LogicalTime) : After t t = false.
Proof.
  unfold After, Before. rewrite N.ltb_irrefl, N.eqb_refl. simpl. apply N.ltb_irrefl.
Qed.

Lemma After_true_false (t1 t2 : LogicalTime) : After t1 t2 = true → After t2 t1 = false.
Proof.
  unfold After, Before.
  destruct (N.ltb_spec (ledger.Slot t2) (ledger.Slot t1)), (N.eqb_spec (ledger.Slot t2) (ledger.Slot t1)),
    (N.ltb_spec (TimeTick t2) (TimeTick t1)); simpl; try done;
  destruct (N.ltb_spec (ledger.Slot t1) (ledger.Slot t2)), (N.eqb_spec (ledger.Slot t1) (ledger.Slot t2)),
    (N.ltb_spec (TimeTick t1) (TimeTick t2)); simpl; try done; lia.
Qed.

Lemma getLatestMilestone_loop (ownMilestones : list WrappedOutput) (r : WrappedOutput) :
  ∃ ret,
    foldl (λ (ret : option WrappedOutput) ms,
             match ret with
             | None => Some ms
             | Some r =>
                 if After (TimestampOfOutput ms) (TimestampOfOutput r) then Some ms else Some r
             end)
          (Some r) ownMilestones = Some ret
    ∧ (ret = r ∨ ret ∈ ownMilestones)
    ∧ After (TimestampOfOutput r) (TimestampOfOutput ret) = false
    ∧ ∀ ms, ms ∈ ownMilestones →
            After (TimestampOfOutput ms) (TimestampOfOutput ret) = false.
Proof.
  revert r. induction ownMilestones as [|x l IH]; intros r; simpl.
  - exists r. split; [done|]. split; [by left|]. split; [apply After_irrefl|].
    by intros ms ?%elem_of_nil.
  - destruct (After (TimestampOfOutput x) (TimestampOfOutput r)) eqn:Hx.
    + destruct (IH x) as (ret & Hret & Hin & Hxr & Hall). exists ret.
      split; [done|]. split.
      { right. destruct Hin as [->|?]; [by left|by right]. }
      split.
      { apply (After_false_trans _ (TimestampOfOutput x)); [|done].
        by apply After_true_false. }
      intros ms [->|Hms]%elem_of_cons; [done|by apply Hall].
    + destruct (IH r) as (ret & Hret & Hin & Hrr & Hall). exists ret.
      split; [done|]. split.
      { destruct Hin as [->|?]; [by left|right; by right]. }
      split; [done|].
      intros ms [->|Hms]%elem_of_cons; [|by apply Hall].
      by apply (After_false_trans _ (TimestampOfOutput r)).
Qed.

(** X25.  [getLatestMilestone] panics when there is no own milestone; otherwise
    it returns one of the own milestones, and none of them is later,
    whatever the order in which the map is iterated. *)
Theorem getLatestMilestone_latest (ownMilestones : list WrappedOutput) :
  (getLatestMilestone ownMilestones = None ↔ ownMilestones = [])
  ∧ (ownMilestones ≠ [] →
     ∃ ret, getLatestMilestone ownMilestones = Some ret
            ∧ ret ∈ ownMilestones
            ∧ ∀ ms, ms ∈ ownMilestones →
                    After (TimestampOfOutput ms) (TimestampOfOutput ret) = false).
Proof.
  unfold getLatestMilestone. destruct ownMilestones as [|x l]; simpl.
  - split; [done|]. by intros ?.
  - destruct (getLatestMilestone_loop l x) as (ret & Hret & Hin & Hx & Hall).
    rewrite Hret. split; [split; done|]. intros _. exists ret. split; [done|]. split.
    + destruct Hin as [->|?]; [by left|by right].
    + intros ms [->|Hms]%elem_of_cons; [done|by apply Hall].
Qed.

End sequencer_properties.


Section sequencer_examples.
Import ledger transaction vertex sample sample.validation.
Import sequencer.
Import sample.proposals.

(** After the steps the current proposal is the second one, of the target
    timestamp. *)
Lemma proposal_for_target_witness :
  getLatestProposal (foldl runStep idleProposal proposalSteps) = Some (tx secondProposed)
  ∧ Tx.Timestamp (tx secondProposed) = targetTs (foldl runStep idleProposal proposalSteps).
Proof.
  assert (Hcur : getLatestProposal (foldl runStep idleProposal proposalSteps)
                 = Some (tx secondProposed)) by (by vm_compute).
  split; [exact Hcur|].
  assert (Hinv : proposalForTarget idleProposal) by (by intros t).
  destruct (proposal_for_target idleProposal proposalSteps Hinv) as [_ W].
  exact (W _ Hcur).
Defined.

(** The first proposal is assessed once. *)
Lemma assessAndAcceptProposal_once_witness :
  ∃ c' proposal' forceExit,
    assessAndAcceptProposal (newProposerGeneric (MkLogicalTime 100 9) "base")
      (setNewTarget idleProposal (MkLogicalTime 100 9)) (tx firstProposed)
      (MkWrappedOutput 2 0) 1000 "base"
    = Some (c', proposal', forceExit)
    ∧ assessAndAcceptProposal c' proposal' (tx firstProposed) (MkWrappedOutput 2 0) 2000 "base"
      = Some (c', proposal', false).
Proof.
  assert (Hhash : HashInputsAndEndorsements (tx firstProposed) = Some [6; 10; 5; 0])
    by (by vm_compute).
  destruct (assessAndAcceptProposal_once (newProposerGeneric (MkLogicalTime 100 9) "base")
              (setNewTarget idleProposal (MkLogicalTime 100 9)) (tx firstProposed)
              (MkWrappedOutput 2 0) 1000 "base" _ Hhash) as [_ W].
  destruct W as (c' & proposal' & forceExit & W1 & _ & _ & W2 & _).
  { intros Hin. by apply not_elem_of_empty in Hin. }
  exists c', proposal', forceExit. split; [exact W1|]. by apply W2.
Defined.

(** The mean of the durations 1000 and 2001 is 1500. *)
Lemma averageProposalDuration_mean_witness :
  averageProposalDuration (foldl runStep idleProposal proposalSteps) = (1500%Z, 2%nat).
Proof.
  destruct (averageProposalDuration_mean (foldl runStep idleProposal proposalSteps)) as [_ W].
  destruct W as (mean & W1 & W2).
  - by vm_compute.
  - by repeat constructor.
  - by vm_compute.
  - rewrite W1. f_equal.
    assert (Hd : durations (foldl runStep idleProposal proposalSteps) = [1000; 2001]%Z)
      by (by vm_compute).
    rewrite Hd in W2. simpl in W2. lia.
Defined.

(** Of the outputs of the transactions 3 (slot 10), 2 (slot 100, tick 5)
    and 4 (slot 90), the one of transaction 2 is the latest. *)
Lemma getLatestMilestone_latest_witness :
  ∃ ret, getLatestMilestone [MkWrappedOutput 3 0; MkWrappedOutput 2 0; MkWrappedOutput 4 0]
         = Some ret
         ∧ After (TimestampOfOutput (MkWrappedOutput 4 0)) (TimestampOfOutput ret) = false.
Proof.
  destruct (getLatestMilestone_latest
              [MkWrappedOutput 3 0; MkWrappedOutput 2 0; MkWrappedOutput 4 0]) as [_ W].
  destruct W as (ret & W1 & _ & W2); [done|].
  exists ret. split; [exact W1|]. apply W2. right. right. by left.
Defined.

End sequencer_examples.

(** * The predecessors of a transaction *)

Section predecessor_properties.
Import ledger transaction.
Context `{Library} `{Constraints} `{LazyTree} `{LazyTreeIteration}.

Lemma iterFrom_collect {A : Type} (key : A → TransactionID) (i : nat) (xs : list A)
    (acc : gset TransactionID) (txid : TransactionID) :
  txid ∈ iterFrom i xs (λ _ x (ret : gset TransactionID), ({[key x]} ∪ ret, true)) acc
  ↔ txid ∈ acc ∨ ∃ x, x ∈ xs ∧ key x = txid.
Proof.
  revert i acc. induction xs as [|x xs IH]; intros i acc; simpl.
  - split; [by left|]. by intros [?|(x & ?%elem_of_nil & _)].
  - rewrite IH, elem_of_union, elem_of_singleton. split.
    + intros [[->|?]|(y & Hy & Hk)].
      * right. exists x. split; [by left|done].
      * by left.
      * right. exists y. split; [by right|done].
    + intros [?|(y & [->|Hy]%elem_of_cons & Hk)].
      * left. by right.
      * left. by left.
      * right. by exists y.
Qed.

Lemma forEachFrom_panic {A S : Type} (parse : list N → result A) (step : A → S → S)
    (i : nat) (datas : list (list N)) (s : S) :
  (∃ data err, data ∈ datas ∧ parse data = Err err) →
  forEachFrom i datas
    (λ _ data s, match parse data with Ok x => Some (step x s, true) | Err _ => None end) s
  = None.
Proof.
  intros (data & err & Hin & Herr). revert i s.
  induction datas as [|d datas IH]; intros i s; [by apply elem_of_nil in Hin|].
  simpl. destruct (parse d) as [x|e] eqn:Hd; [|done].
  apply IH. apply elem_of_cons in Hin as [->|?]; [congruence|done].
Qed.

(** X26.  [PredecessorTransactionIDs] of a transaction whose inputs and
    endorsements parse is the set of the transactions that the inputs
    consume from together with the endorsed transactions; it panics when
    the bytes of some input do not parse. *)
Theorem PredecessorTransactionIDs_members (tx : Transaction) :
  (∀ oids txids, inputsParse tx oids → endorsementsParse tx txids →
     ∃ ret, PredecessorTransactionIDs tx = Some ret
            ∧ ∀ txid, txid ∈ ret
                      ↔ (∃ oid, oid ∈ oids ∧ TransactionIDOf oid = txid) ∨ txid ∈ txids)
  ∧ (∀ datas, ForEachData (tree tx) (Path TxInputIDs) = Some datas →
       (∃ data err, data ∈ datas ∧ OutputIDFromBytes data = Err err) →
       PredecessorTransactionIDs tx = None).
Proof.
  unfold PredecessorTransactionIDs, ForEachInput, ForEachEndorsement, TreeForEach. split.
  - intros oids txids (datas & -> & Hoids) (edatas & -> & Htxids). simpl.
    rewrite (forEachFrom_parse OutputIDFromBytes
               (λ _ oid (ret : gset TransactionID), ({[TransactionIDOf oid]} ∪ ret, true))
               0 datas oids ∅ Hoids).
    simpl.
    rewrite (forEachFrom_parse TransactionIDFromBytes
               (λ _ txid (ret : gset TransactionID), ({[txid]} ∪ ret, true))
               0 edatas txids _ Htxids).
    eexists. split; [done|]. intros txid.
    rewrite (iterFrom_collect id), (iterFrom_collect TransactionIDOf). split.
    + intros [[?%elem_of_empty|?]|(x & ? & <-)]; [done|by left|by right].
    + intros [?|?]; [left; by right|right]. by exists txid.
  - intros datas -> Hbad. simpl.
    by rewrite (forEachFrom_panic OutputIDFromBytes
                  (λ oid (ret : gset TransactionID), {[TransactionIDOf oid]} ∪ ret)
                  0 datas ∅ Hbad).
Qed.

End predecessor_properties.

Section predecessor_examples.
Import ledger transaction sample sample.validation.

Lemma endorserTx_input : inputsParse (endorserTx [idOf 5]) [NewOutputID (idOf 3) 0].
Proof. eexists. split; [by vm_compute|]. by repeat constructor. Qed.

(** The predecessors of the milestone that consumes from transaction 3 and
    endorses milestone 5. *)
Lemma PredecessorTransactionIDs_members_witness :
  ∃ ret, PredecessorTransactionIDs (endorserTx [idOf 5]) = Some ret
         ∧ idOf 3 ∈ ret ∧ idOf 5 ∈ ret ∧ idOf 4 ∉ ret.
Proof.
  destruct (PredecessorTransactionIDs_members (endorserTx [idOf 5])) as [W _].
  destruct (W _ _ endorserTx_input endorserTx_one) as (ret & Hret & Hmem).
  exists ret. split; [done|]. split; [|split].
  - apply Hmem. left. eexists. split; [by left|done].
  - apply Hmem. right. by left.
  - intros [(oid & ->%list_elem_of_singleton & [=])|[=]%list_elem_of_singleton]%Hmem.
Defined.

End predecessor_examples.

(** * Deleted transactions *)

Section deletion_properties.
Import ledger transaction vertex tippool.
Context `{Library} `{LazyTree} `{Identity} `{Environment}.

(** X27.  A deleted transaction stays deleted and leaves the tip pool:
    [MarkDeleted] panics on a deleted transaction; when it succeeds, a
    second [MarkDeleted] panics, as do [OutputAt] and [HasOutputAt] of the
    transaction, every other wrapped transaction is as before, and the
    next purge that is due drops all its outputs from the pool and drops it
    from the latest milestones. *)
Theorem MarkDeleted_purged (m m' : Memory) (vid : nat) :
  MarkDeleted m vid = Some m' →
  wrapper (vids m vid) ≠ _deletedTx
  ∧ MarkDeleted m' vid = None
  ∧ (∀ idx, OutputAt m' vid idx = None ∧ HasOutputAt m' vid idx = None)
  ∧ (∀ other, other ≠ vid → vids m' other = vids m other)
  ∧ vertices m' = vertices m
  ∧ ∀ now tp tp', purgeDue now tp → purge m' now tp = Some tp' →
      (∀ idx, MkWrappedOutput vid idx ∉ outputs tp')
      ∧ (∀ seqID, latestMilestones tp' !! seqID ≠ Some vid).
Proof.
  unfold MarkDeleted. intros Hmark.
  assert (Hm' : wrapper (vids m vid) ≠ _deletedTx
                ∧ m' = setVID m vid
                         (MkWrappedTx (txStatus (vids m vid)) (reason (vids m vid)) _deletedTx
                            (consumers (vids m vid)))).
  { destruct (wrapper (vids m vid)); by inversion Hmark. }
  destruct Hm' as [Hnot ->]. clear Hmark.
  assert (Hw : wrapper (vids (setVID m vid
                  (MkWrappedTx (txStatus (vids m vid)) (reason (vids m vid)) _deletedTx
                     (consumers (vids m vid)))) vid) = _deletedTx).
  { unfold setVID. cbn [vids]. by rewrite fn_lookup_insert. }
  split; [done|]. split; [by rewrite Hw|]. split.
  { intros idx. unfold OutputAt, HasOutputAt. by rewrite Hw. }
  split.
  { intros other Hne. unfold setVID. cbn [vids]. by rewrite fn_lookup_insert_ne. }
  split; [done|].
  intros now tp tp' Hdue Hpurge.
  assert (Hbad : IsBadOrDeleted (setVID m vid
                   (MkWrappedTx (txStatus (vids m vid)) (reason (vids m vid)) _deletedTx
                      (consumers (vids m vid)))) vid = true).
  { unfold IsBadOrDeleted. by rewrite Hw. }
  split.
  - intros idx Hin. apply (purge_due_outputs _ _ _ _ Hdue Hpurge) in Hin as [_ Hc].
    apply isCandidateToTagAlong_true in Hc as [Hgood _]. simpl in Hgood. congruence.
  - intros seqID Hl. revert Hpurge. unfold purge.
    destruct (Z.ltb_spec (now - lastPruned tp) (SlotDuration `quot` 2)) as [?|_];
      [unfold purgeDue in Hdue; lia|].
    destruct (purgeCollect _ (elements (outputs tp))) as [toDelete|]; simpl; [|done].
    intros [= <-]. simpl in Hl. rewrite lookup_foldl_delete in Hl.
    case_bool_decide as Hin; [done|]. apply Hin.
    apply list_elem_of_fmap. exists (seqID, vid). split; [done|].
    apply list_elem_of_filter. split; [simpl; by rewrite Hbad|].
    by apply elem_of_map_to_list.
Qed.

End deletion_properties.

Section deletion_examples.
Import ledger transaction vertex tippool.
Import sample.runs.

(** Transaction 4 is deleted; the purge one slot after the start drops its
    output 0 from the pool. *)
Lemma MarkDeleted_purged_witness :
  ∃ m' tp', MarkDeleted sample.memory 4 = Some m'
            ∧ MkWrappedOutput 4 0 ∈ outputs poolAfterFirst
            ∧ purge m' 10000000000 poolAfterFirst = Some tp'
            ∧ MkWrappedOutput 4 0 ∉ outputs tp'.
Proof.
  eexists. eexists. split; [reflexivity|]. split; [by vm_compute|].
  assert (Hdue : purgeDue 10000000000 poolAfterFirst).
  { unfold purgeDue. apply Z.leb_le. reflexivity. }
  match goal with |- purge ?m' _ _ = Some ?tp' ∧ _ =>
    assert (Hmark : MarkDeleted sample.memory 4 = Some m') by reflexivity;
    assert (Hpurge : purge m' 10000000000 poolAfterFirst
                     = Some (MkSequencerTipPool ∅ ∅ 10000000000 1 2))
  end.
  { by vm_compute. }
  split; [exact Hpurge|].
  destruct (MarkDeleted_purged _ _ _ Hmark) as (_ & _ & _ & _ & _ & W).
  destruct (W _ _ _ Hdue Hpurge) as [W1 _]. apply W1.
Defined.

End deletion_examples.
